(** * Base64 offload pipeline and ping-aware transport: a verification development

    The development embeds two TypeScript units:

    - [src/app/lib/s3-utils.ts]: the upload primitive [uploadBase64ToS3], the
      recursive walk [replaceBase64InObject] and the three entry points
      [processToolCallForBase64], [processToolResultForBase64] and
      [processMessagesForBase64], with the batching helper [batchPromises];
    - [src/lib/mcp-transport.ts]: the class [PingAwareTransportWrapper].

    Layout: Part I holds the definitions (text helpers, JavaScript values,
    the storage environment, the pipeline on JSON trees, its scheduling
    traces, the pipeline on a heap of objects, the transport wrapper, and
    the predicates the properties are stated in); Part II holds the lemmas
    and theorems about the sentences of the specification; Part III holds
    further properties of the same functions: what is stored and under
    which key, the batches and their awaiting, the shape of what the walk
    returns, which items the scans upload, offloading twice, and the
    wrapper over a sequence of messages. *)

From Stdlib Require Import ZArith Ascii DecimalString Lia.
From stdpp Require Import base option list strings.

Local Open Scope Z_scope.
Local Open Scope nat_scope.

#[local] Set Warnings "-register-all".

(* ===================================================================== *)
(** * Part I. Definitions *)
(* ===================================================================== *)

(** ** Text: the string tests and regular expressions of the source

    JavaScript strings are sequences of 16-bit code units; the model uses
    [string], a sequence of 8-bit characters, read as the UTF-8 encoding
    of the JavaScript string.  The tests of the source look for characters
    of the ASCII range, which UTF-8 keeps as single bytes that occur
    nowhere else, with one exception: the [.] of a regular expression
    refuses the line terminators U+2028 and U+2029 besides LF and CR, and
    these two are the three-byte sequences [line_separator] and
    [paragraph_separator] below.  [substring(0, 100)] counts code units
    where [take_chars 100] counts bytes; the base64 test applied to the
    result is the same, since it fails at the first character outside
    the ASCII range and before that character code units and bytes are
    numbered alike. *)
Module Text.

Definition code (c : ascii) : nat := nat_of_ascii c.

Definition in_range (lo hi : nat) (c : ascii) : bool :=
  (lo <=? code c) && (code c <=? hi).

(** [A-Z], [a-z], [0-9]. *)
Definition is_upper : ascii -> bool := in_range 65 90.
Definition is_lower : ascii -> bool := in_range 97 122.
Definition is_digit : ascii -> bool := in_range 48 57.

(** The class [[a-zA-Z0-9]]. *)
Definition is_alnum (c : ascii) : bool := is_upper c || is_lower c || is_digit c.

(** The class [[A-Za-z0-9+/]]. *)
Definition is_base64_char (c : ascii) : bool :=
  is_alnum c || bool_decide (c = "+"%char) || bool_decide (c = "/"%char).

Fixpoint all_chars (p : ascii -> bool) (s : string) : bool :=
  match s with
  | EmptyString => true
  | String c r => p c && all_chars p r
  end.

Definition is_pad (c : ascii) : bool := bool_decide (c = "="%char).

Definition nonempty (s : string) : bool :=
  match s with EmptyString => false | String _ _ => true end.

(** The class [[^c]]. *)
Definition other_than (sep : ascii) (c : ascii) : bool := negb (bool_decide (c = sep)).

(** [s.startsWith(p)]. *)
Fixpoint starts_with (p s : string) : bool :=
  match p, s with
  | EmptyString, _ => true
  | String a p', String b s' => bool_decide (a = b) && starts_with p' s'
  | String _ _, EmptyString => false
  end.

(** [s.includes(p)]. *)
Fixpoint includes (p s : string) : bool :=
  starts_with p s ||
  match s with
  | EmptyString => false
  | String _ r => includes p r
  end.

(** [s.substring(0, n)]. *)
Fixpoint take_chars (n : nat) (s : string) : string :=
  match n, s with
  | S m, String c r => String c (take_chars m r)
  | _, _ => EmptyString
  end.

(** Removes a literal prefix: [Some rest] when [s = p ++ rest]. *)
Fixpoint strip_prefix (p s : string) : option string :=
  match p, s with
  | EmptyString, _ => Some s
  | String a p', String b s' =>
      if bool_decide (a = b) then strip_prefix p' s' else None
  | String _ _, EmptyString => None
  end.

(** The longest prefix of [s] without the character [sep], and what
    follows it (starting at the first [sep], if there is one). *)
Fixpoint span_until (sep : ascii) (s : string) : string * string :=
  match s with
  | EmptyString => (EmptyString, EmptyString)
  | String c r =>
      if bool_decide (c = sep) then (EmptyString, s)
      else let '(a, b) := span_until sep r in (String c a, b)
  end.

(** [s.split(sep)] for a one-character separator. *)
Fixpoint split_on (sep : ascii) (s : string) : list string :=
  match s with
  | EmptyString => [EmptyString]
  | String c r =>
      if bool_decide (c = sep) then EmptyString :: split_on sep r
      else match split_on sep r with
           | [] => [String c EmptyString]
           | w :: ws => String c w :: ws
           end
  end.

(** The tail of the regular expression [/^[A-Za-z0-9+/]+=*$/] once one
    character of the class has been read: more characters of the class,
    then only [=] up to the end. *)
Fixpoint base64_rest (s : string) : bool :=
  match s with
  | EmptyString => true
  | String c r =>
      if is_base64_char c then base64_rest r else all_chars is_pad s
  end.

(** [/^[A-Za-z0-9+/]+=*$/.test(s)]. *)
Definition matches_base64 (s : string) : bool :=
  match s with
  | EmptyString => false
  | String c r => is_base64_char c && base64_rest r
  end.

(** The test both pipelines apply to a string without the [data:] prefix:
    [/^[A-Za-z0-9+/]+=*$/.test(s.substring(0, 100))]. *)
Definition looks_like_base64 (s : string) : bool :=
  matches_base64 (take_chars 100 s).

(** [/\.[a-zA-Z0-9]+$/.test(s)]: somewhere a dot is followed by one or
    more letters or digits and then the end of the string. *)
Fixpoint has_extension (s : string) : bool :=
  match s with
  | EmptyString => false
  | String c r =>
      (bool_decide (c = "."%char) && nonempty r && all_chars is_alnum r)
      || has_extension r
  end.

(** The one-byte line terminators, LF and CR. *)
Definition is_line_terminator (c : ascii) : bool :=
  bool_decide (code c = 10) || bool_decide (code c = 13).

(** U+2028 LINE SEPARATOR and U+2029 PARAGRAPH SEPARATOR in UTF-8:
    the bytes E2 80 A8 and E2 80 A9. *)
Definition line_separator : string :=
  String (ascii_of_nat 226) (String (ascii_of_nat 128)
    (String (ascii_of_nat 168) EmptyString)).
Definition paragraph_separator : string :=
  String (ascii_of_nat 226) (String (ascii_of_nat 128)
    (String (ascii_of_nat 169) EmptyString)).

(** What [.+] or [.*] of a regular expression (without the [s] flag) can
    match to the end: a string in which no line terminator begins, LF, CR,
    U+2028 or U+2029. *)
Fixpoint one_line (s : string) : bool :=
  match s with
  | EmptyString => true
  | String c r =>
      negb (is_line_terminator c)
      && negb (starts_with line_separator s)
      && negb (starts_with paragraph_separator s)
      && one_line r
  end.

(** [dataUrl.match(/^data:([^;]+);base64,(.+)$/)]: the two groups. *)
Definition match_data_url (s : string) : option (string * string) :=
  match strip_prefix "data:" s with
  | None => None
  | Some rest =>
      let '(mime, after) := span_until ";"%char rest in
      match strip_prefix ";base64," after with
      | None => None
      | Some payload =>
          if nonempty mime && nonempty payload && one_line payload
          then Some (mime, payload)
          else None
      end
  end.

Fixpoint join (sep : string) (ws : list string) : string :=
  match ws with
  | [] => EmptyString
  | [w] => w
  | w :: ws' => w +:+ sep +:+ join sep ws'
  end.

End Text.

(** ** JavaScript values

    The pipeline handles JSON data: what [JSON.parse] builds.  An object is
    the list of its own properties in property order; [undefined] is the
    absence of a value ([None]).  Numbers are never inspected by the source
    beyond their truthiness and their rendering as text, and are modelled
    by integers. *)
Module Js.

Inductive json : Type :=
  | JNull
  | JBool (b : bool)
  | JNum (n : Z)
  | JStr (s : string)
  | JArr (items : list json)
  | JObj (fields : list (string * json)).

(** The own properties of an object, for any type of property values. *)
Definition props (V : Type) : Type := list (string * V).

(** [obj[k]]: the value of the own property [k], [None] for [undefined]. *)
Fixpoint get_prop {V} (k : string) (fs : props V) : option V :=
  match fs with
  | [] => None
  | (k', v) :: r => if bool_decide (k' = k) then Some v else get_prop k r
  end.

(** [obj[k] = v]: an existing property keeps its place, a new one goes last. *)
Fixpoint set_prop {V} (k : string) (v : V) (fs : props V) : props V :=
  match fs with
  | [] => [(k, v)]
  | (k', v') :: r =>
      if bool_decide (k' = k) then (k, v) :: r else (k', v') :: set_prop k v r
  end.

(** [delete obj[k]]. *)
Fixpoint delete_prop {V} (k : string) (fs : props V) : props V :=
  match fs with
  | [] => []
  | (k', v') :: r =>
      if bool_decide (k' = k) then delete_prop k r else (k', v') :: delete_prop k r
  end.

(** [k in obj] for a key that [Object.prototype] does not define. *)
Definition has_prop {V} (k : string) (fs : props V) : bool :=
  match get_prop k fs with Some _ => true | None => false end.

(** Truthiness ([if (v)], [v && ...], [v || ...]). *)
Definition truthy (v : json) : bool :=
  match v with
  | JNull => false
  | JBool b => b
  | JNum n => negb (Z.eqb n 0)
  | JStr s => Text.nonempty s
  | JArr _ | JObj _ => true
  end.

Definition truthy_opt (o : option json) : bool :=
  match o with Some v => truthy v | None => false end.

(** [a || b]. *)
Definition js_or (a b : option json) : option json :=
  if truthy_opt a then a else b.

(** [typeof v === 'string']. *)
Definition as_string (o : option json) : option string :=
  match o with Some (JStr s) => Some s | _ => None end.

(** [v.k] on a value that is not [null]: primitives and arrays have none
    of the properties the source reads ([content], [type], [image], [data],
    [filename], [name], [mimeType], [mediaType]). *)
Definition prop (v : json) (k : string) : option json :=
  match v with
  | JObj fs => get_prop k fs
  | _ => None
  end.

Definition is_null (v : json) : bool :=
  match v with JNull => true | _ => false end.

(** The decimal digits of an integer, as [String(n)] gives them for
    integers below 10^21 in absolute value. *)
Definition render_int (n : Z) : string := NilZero.string_of_int (Z.to_int n).

(** [String(v)], as in a template literal or the argument of
    [RegExp.prototype.test]; [None] is a [TypeError].  An array joins its
    elements with commas, [null] elements rendering as the empty string.
    An object renders as [[object Object]] unless it has an own [toString]
    property, which for JSON data is not callable, and then neither
    [toString] nor [valueOf] yields a primitive. *)
Fixpoint to_string (v : json) : option string :=
  match v with
  | JNull => Some "null"
  | JBool true => Some "true"
  | JBool false => Some "false"
  | JNum n => Some (render_int n)
  | JStr s => Some s
  | JArr xs =>
      let fix elems (l : list json) : option (list string) :=
        match l with
        | [] => Some []
        | x :: r =>
            match (if is_null x then Some EmptyString else to_string x), elems r with
            | Some a, Some b => Some (a :: b)
            | _, _ => None
            end
        end in
      match elems xs with
      | Some ws => Some (Text.join "," ws)
      | None => None
      end
  | JObj fs => if has_prop "toString" fs then None else Some "[object Object]"
  end.

(** [JSON.parse(JSON.stringify(v))] on a JSON tree: a structural copy. *)
Fixpoint json_clone (v : json) : json :=
  match v with
  | JArr xs => JArr (map json_clone xs)
  | JObj fs => JObj (map (fun p => (p.1, json_clone p.2)) fs)
  | _ => v
  end.

End Js.

(** ** Object storage and the upload primitive *)
Module S3.
Import Js.

(** [new PutObjectCommand({Bucket, Key, Body, ContentType, ACL})].  The body
    is kept as the base64 text handed to [Buffer.from(_, 'base64')]. *)
Record put_command : Type := {
  put_bucket : string;
  put_key : string;
  put_body_base64 : string;
  put_content_type : json;
  put_acl : string;
}.

(** [new GetObjectCommand({Bucket, Key})]. *)
Record get_command : Type := {
  get_bucket : string;
  get_key : string;
}.

(** What surrounds the pipeline.  Every call of [uploadBase64ToS3] has an
    identity (a number); the environment answers per call: the identifier
    [crypto.randomUUID()] draws, whether [s3Client.send(putCommand)]
    resolves, and what [getSignedUrl(s3Client, getCommand, {expiresIn})]
    resolves with ([None] when it rejects). *)
Record storage : Type := {
  BUCKET_NAME : string;
  randomUUID : nat -> string;
  send_put : nat -> put_command -> bool;
  getSignedUrl : nat -> get_command -> Z -> option string;
}.

(** The object literal [mimeToExt]. *)
Definition mimeToExt : props string :=
  [ ("image/jpeg", "jpg"); ("image/png", "png"); ("image/gif", "gif");
    ("image/webp", "webp"); ("image/svg+xml", "svg"); ("video/mp4", "mp4");
    ("video/webm", "webm"); ("audio/mpeg", "mp3"); ("audio/wav", "wav");
    ("audio/ogg", "ogg"); ("application/pdf", "pdf");
    ("application/json", "json"); ("text/plain", "txt"); ("text/html", "html");
    ("text/css", "css"); ("text/javascript", "js");
    ("application/javascript", "js"); ("application/octet-stream", "bin") ].

(** [mimeToExt] is a plain object, so [mimeToExt[key]] also finds what it
    inherits from [Object.prototype]: built-in functions, and the prototype
    itself under [__proto__].  All of them are truthy; the text is how a
    template literal renders them on V8. *)
Definition native_function (name : string) : string :=
  "function " +:+ name +:+ "() { [native code] }".

Definition object_prototype_members : props string :=
  [ ("constructor", native_function "Object");
    ("__defineGetter__", native_function "__defineGetter__");
    ("__defineSetter__", native_function "__defineSetter__");
    ("hasOwnProperty", native_function "hasOwnProperty");
    ("__lookupGetter__", native_function "__lookupGetter__");
    ("__lookupSetter__", native_function "__lookupSetter__");
    ("isPrototypeOf", native_function "isPrototypeOf");
    ("propertyIsEnumerable", native_function "propertyIsEnumerable");
    ("toString", native_function "toString");
    ("valueOf", native_function "valueOf");
    ("__proto__", "[object Object]");
    ("toLocaleString", native_function "toLocaleString") ].

(** [mimeToExt[key]], rendered as text. *)
Definition mimeToExt_member (key : string) : option string :=
  match get_prop key mimeToExt with
  | Some ext => Some ext
  | None => get_prop key object_prototype_members
  end.

(** [mimeType.split('/')[1]], for a string. *)
Definition subtype_of (mimeType : string) : option string :=
  Text.split_on "/"%char mimeType !! 1.

(** [getExtensionFromMimeType]:
    [mimeToExt[mimeType] || mimeType.split('/')[1] || 'bin'].
    The declared parameter type is [string]; the callers pass whatever a
    [mimeType] property holds.  A value that is not a string is turned into
    a property key by [String(_)] and has no [split] method: [None] is the
    [TypeError]. *)
Definition getExtensionFromMimeType (mimeType : json) : option string :=
  match to_string mimeType with
  | None => None
  | Some key =>
      match mimeToExt_member key with
      | Some ext => Some ext
      | None =>
          match mimeType with
          | JStr s =>
              match subtype_of s with
              | Some sub => if Text.nonempty sub then Some sub else Some "bin"
              | None => Some "bin"
              end
          | _ => None
          end
      end
  end.

(** [parseDataUrl]: the fields [data] and [mimeType] of the result. *)
Definition parseDataUrl (dataUrl : string) : option (string * json) :=
  match Text.match_data_url dataUrl with
  | Some (mime, payload) => Some (payload, JStr mime)
  | None => None
  end.

Inductive failure : Type :=
  | InvalidInput   (* Error('Invalid base64 data URL or missing mimeType for raw base64') *)
  | TypeError      (* a value has no text rendering or no [split]; a property of [null] is read *)
  | PutRejected    (* [s3Client.send(putCommand)] rejected *)
  | SignRejected   (* [getSignedUrl] rejected *)
  | RangeError.    (* the recursion is deeper than the stack allows *)

Inductive upload_result : Type :=
  | Uploaded (url : string)
  | Failed (e : failure).

(** One call of [uploadBase64ToS3]: the command it sent, the URL request
    it made, and how its promise settled. *)
Record upload_run : Type := {
  run_put : option put_command;
  run_sign : option (get_command * Z);
  run_result : upload_result;
}.

(** Lines 112-128: the file name, from the candidate and the MIME type.
    [None] is a [TypeError]. *)
Definition final_filename (originalFilename : option json) (mimeType : json)
  : option string :=
  match originalFilename with
  | Some f =>
      if truthy f then
        match to_string f with
        | None => None
        | Some name =>
            if Text.has_extension name then Some name
            else match getExtensionFromMimeType mimeType with
                 | Some fileExtension => Some (name +:+ "." +:+ fileExtension)
                 | None => None
                 end
        end
      else
        match getExtensionFromMimeType mimeType with
        | Some fileExtension => Some ("file." +:+ fileExtension)
        | None => None
        end
  | None =>
      match getExtensionFromMimeType mimeType with
      | Some fileExtension => Some ("file." +:+ fileExtension)
      | None => None
      end
  end.

(** [expiresIn: 3600 * 24 * 7]. *)
Definition EXPIRES_IN : Z := (3600 * 24 * 7)%Z.

(** [uploadBase64ToS3(base64Data, originalFilename?, mimeType?)], as the
    call number [call] of the environment [st]. *)
Definition uploadBase64ToS3 (st : storage) (call : nat) (base64Data : string)
    (originalFilename mimeType : option json) : upload_run :=
  let parsed :=
    match parseDataUrl base64Data with
    | Some p => Some p
    | None =>
        match mimeType with
        | Some m => if truthy m then Some (base64Data, m) else None
        | None => None
        end
    end in
  match parsed with
  | None => {| run_put := None; run_sign := None; run_result := Failed InvalidInput |}
  | Some (data, mime) =>
      let uuid := randomUUID st call in
      match final_filename originalFilename mime with
      | None => {| run_put := None; run_sign := None; run_result := Failed TypeError |}
      | Some filename =>
          let fileName := "uploads/" +:+ uuid +:+ "/" +:+ filename in
          let putCommand :=
            {| put_bucket := BUCKET_NAME st; put_key := fileName;
               put_body_base64 := data; put_content_type := mime;
               put_acl := "public-read" |} in
          if send_put st call putCommand then
            let getCommand := {| get_bucket := BUCKET_NAME st; get_key := fileName |} in
            match getSignedUrl st call getCommand EXPIRES_IN with
            | Some presignedUrl =>
                {| run_put := Some putCommand;
                   run_sign := Some (getCommand, EXPIRES_IN);
                   run_result := Uploaded presignedUrl |}
            | None =>
                {| run_put := Some putCommand;
                   run_sign := Some (getCommand, EXPIRES_IN);
                   run_result := Failed SignRejected |}
            end
          else
            {| run_put := Some putCommand; run_sign := None;
               run_result := Failed PutRejected |}
      end
  end.


End S3.

(** ** The offload pipeline on JSON trees

    The functions read and return JSON trees; the calls of the upload
    primitive they make are threaded through as a history.  A call's
    number is its position in the history.  In the walk and the two scans
    the calls are numbered in the order of the program text; the
    environment answers each call on its own, so the numbering only names
    the calls. *)
Module Offload.
Import Js S3.

(** The calls of [uploadBase64ToS3] made so far. *)
Definition world : Type := list upload_run.

(** The [PutObjectCommand]s handed to [s3Client.send]. *)
Definition puts_sent (w : world) : list put_command := omap run_put w.

(** How an [async] entry point ends. *)
Inductive outcome (A : Type) : Type :=
  | Return (v : A)          (* the promise resolves *)
  | Throw (e : failure)     (* the promise rejects *)
  | Pending.                (* the promise never settles *)
Arguments Return {A} v.
Arguments Throw {A} e.
Arguments Pending {A}.

(** [await uploadBase64ToS3(...)]: the next call of the history. *)
Definition upload (st : storage) (base64Data : string)
    (filename mimeType : option json) (w : world) : upload_run * world :=
  let run := uploadBase64ToS3 st (length w) base64Data filename mimeType in
  (run, w ++ [run]).

(** [try { return await uploadBase64ToS3(...) } catch { return obj }]. *)
Definition upload_or_keep (st : storage) (s : string)
    (filename mimeType : option json) (w : world) : json * world :=
  let '(run, w') := upload st s filename mimeType w in
  (match run_result run with Uploaded url => JStr url | Failed _ => JStr s end, w').

(** [obj.startsWith('data:') && obj.includes(';base64,')]. *)
Definition is_data_url_string (s : string) : bool :=
  Text.starts_with "data:" s && Text.includes ";base64," s.

(** Line 198: the hint handed down to the value of the property [key] of
    [obj]. *)
Definition currentMimeType (fs : props json) (key : string)
    (mimeType : option json) : option json :=
  if bool_decide (key = "data") && has_prop "mimeType" fs
  then get_prop "mimeType" fs
  else mimeType.

(** [result[key] = value] on the object literal [{}] under construction:
    the key [__proto__] reaches the setter inherited from
    [Object.prototype] and creates no property. *)
Definition assign_result (key : string) (value : json) (result : props json)
  : props json :=
  if bool_decide (key = "__proto__") then result else set_prop key value result.

(** [replaceBase64InObject(obj, filename?, mimeType?)]. *)
Fixpoint replaceBase64InObject (st : storage) (obj : json)
    (filename mimeType : option json) (w : world) : json * world :=
  match obj with
  | JStr s =>
      if is_data_url_string s then upload_or_keep st s filename None w
      else if truthy_opt mimeType && Text.looks_like_base64 s
      then upload_or_keep st s filename mimeType w
      else (obj, w)
  | JArr items =>
      let fix each (l : list json) (w : world) : list json * world :=
        match l with
        | [] => ([], w)
        | item :: r =>
            let '(item', w1) := replaceBase64InObject st item filename mimeType w in
            let '(r', w2) := each r w1 in
            (item' :: r', w2)
        end in
      let '(items', w') := each items w in (JArr items', w')
  | JObj fs =>
      let fix entries (l : props json) (result : props json) (w : world)
        : props json * world :=
        match l with
        | [] => (result, w)
        | (key, value) :: r =>
            let '(value', w1) :=
              replaceBase64InObject st value filename
                (currentMimeType fs key mimeType) w in
            entries r (assign_result key value' result) w1
        end in
      let '(result, w') := entries fs [] w in (JObj result, w')
  | _ => (obj, w)
  end.

(** [processToolCallForBase64(toolCall)]: the pair of [toolName] and the
    processed [args]. *)
Definition processToolCallForBase64 (st : storage) (toolName : json) (args : json)
    (w : world) : (json * json) * world :=
  let processedArgs := json_clone args in
  let filename :=
    match processedArgs with
    | JObj fs => if has_prop "filename" fs then get_prop "filename" fs else None
    | _ => None
    end in
  let '(updatedArgs, w') := replaceBase64InObject st processedArgs filename None w in
  ((toolName, updatedArgs), w').

Definition MAX_CONCURRENT_UPLOADS : nat := 10.

(** [promises.slice(i, j)]. *)
Definition slice {A} (i j : nat) (l : list A) : list A := take (j - i) (drop i l).

(** The loop of [batchPromises] from index [i]: the batches it awaits, in
    order.  [fuel] bounds the number of iterations; [None] is a loop that
    does not end. *)
Fixpoint batch_loop {A} (fuel : nat) (promises : list A) (batchSize i : nat)
  : option (list (list A)) :=
  if i <? length promises then
    match fuel with
    | 0 => None
    | S fuel' =>
        let batch := slice i (i + batchSize) promises in
        match batch_loop fuel' promises batchSize (i + batchSize) with
        | Some rest => Some (batch :: rest)
        | None => None
        end
    end
  else Some [].

(** The batches [batchPromises(promises, batchSize)] awaits one after the
    other. *)
Definition batches_of {A} (promises : list A) (batchSize : nat)
  : option (list (list A)) :=
  batch_loop (length promises) promises batchSize 0.

(** [batchPromises(promises, batchSize)]: the results of all batches. *)
Definition batchPromises {A} (promises : list A) (batchSize : nat)
  : option (list A) :=
  match batches_of promises batchSize with
  | Some batches => Some (concat batches)
  | None => None
  end.

(** [if (uploadPromises.length > 0) await batchPromises(uploadPromises,
    MAX_CONCURRENT_UPLOADS)]. *)
Definition await_uploads {A} (uploadPromises : list A) : option (list A) :=
  if 0 <? length uploadPromises
  then batchPromises uploadPromises MAX_CONCURRENT_UPLOADS
  else Some [].

(** *** The parts of a content sequence *)

Inductive part_kind : Type := ImagePart | FilePart.

(** [part.type === 'image'], [part.type === 'file']. *)
Definition part_kind_of (part : json) : option part_kind :=
  match prop part "type" with
  | Some (JStr t) =>
      if bool_decide (t = "image") then Some ImagePart
      else if bool_decide (t = "file") then Some FilePart
      else None
  | _ => None
  end.

(** [isDataUrl] and [isBase64] of a candidate string. *)
Definition isDataUrl (data : string) : bool := Text.starts_with "data:" data.
Definition isBase64 (data : string) : bool :=
  negb (isDataUrl data) && Text.looks_like_base64 data.

(** What a continuation does to the properties of its part once the
    upload has resolved with [url]; [V] is the type of property values,
    with its truthiness and its strings. *)
Section Settle.
Context {V : Type} (vtruthy : V -> bool) (vstr : string -> V).

Definition prop_truthy (k : string) (fs : props V) : bool :=
  match get_prop k fs with Some v => vtruthy v | None => false end.

(** Lines 266-267: [delete item.data; item.url = url]. *)
Definition settle_tool_fields (url : string) (fs : props V) : props V :=
  set_prop "url" (vstr url) (delete_prop "data" fs).

(** Lines 340-342 and 369-371: [if (part.mimeType) delete part.mimeType]. *)
Definition drop_mimeType (fs : props V) : props V :=
  if prop_truthy "mimeType" fs then delete_prop "mimeType" fs else fs.

(** Lines 333-342. *)
Definition settle_image_fields (url : string) (fs : props V) : props V :=
  drop_mimeType
    (if prop_truthy "image" fs then set_prop "image" (vstr url) fs
     else if prop_truthy "data" fs
     then set_prop "url" (vstr url) (delete_prop "data" fs)
     else fs).

(** Lines 366-371. *)
Definition settle_file_fields (url : string) (fs : props V) : props V :=
  drop_mimeType (set_prop "url" (vstr url) (delete_prop "data" fs)).

Definition settle_message_fields (kind : part_kind) : string -> props V -> props V :=
  match kind with
  | ImagePart => settle_image_fields
  | FilePart => settle_file_fields
  end.

End Settle.

Definition on_fields (f : props json -> props json) (v : json) : json :=
  match v with JObj fs => JObj (f fs) | _ => v end.

(** *** Tool results *)

(** Line 236: the test for a content sequence. *)
Definition has_content_array (result : json) : bool :=
  match result with
  | JObj fs => match get_prop "content" fs with Some (JArr _) => true | _ => false end
  | _ => false
  end.

(** [clonedResult.content as unknown[]]. *)
Definition content_of (fs : props json) : list json :=
  match get_prop "content" fs with Some (JArr content) => content | _ => [] end.

Definition default_tool_mime (kind : part_kind) : string :=
  match kind with ImagePart => "image/jpeg" | FilePart => "application/octet-stream" end.

Definition default_tool_filename (kind : part_kind) : string :=
  match kind with ImagePart => "screenshot" | FilePart => "file" end.

(** An upload promise of the tool-result scan: the index of its item and
    the call of the upload primitive it awaits. *)
Record tool_promise : Type := {
  tp_index : nat;
  tp_run : upload_run;
}.

(** Lines 244-281, one turn of the loop on an item that is not [null]:
    the upload begun for it, if any. *)
Definition tool_item_upload (st : storage) (filename : option json) (item : json)
    (w : world) : option upload_run * world :=
  match part_kind_of item with
  | Some kind =>
      match as_string (prop item "data") with
      | Some data =>
          if Text.nonempty data && (isDataUrl data || isBase64 data) then
            let mimeType :=
              js_or (prop item "mimeType") (Some (JStr (default_tool_mime kind))) in
            let uploadFilename :=
              js_or (js_or (prop item "filename") filename)
                    (Some (JStr (default_tool_filename kind))) in
            let '(r, w') :=
              upload st data uploadFilename
                     (if isBase64 data then mimeType else None) w in
            (Some r, w')
          else (None, w)
      | None => (None, w)
      end
  | None => (None, w)
  end.

(** The loop of lines 243-282 from index [i]: the promises pushed, or
    [None] when [item.type] is read on [null]. *)
Fixpoint scan_tool_content (st : storage) (filename : option json) (i : nat)
    (content : list json) (w : world) : option (list tool_promise) * world :=
  match content with
  | [] => (Some [], w)
  | item :: rest =>
      if is_null item then (None, w)
      else
        let '(r, w1) := tool_item_upload st filename item w in
        let pushed :=
          match r with
          | Some run => [{| tp_index := i; tp_run := run |}]
          | None => []
          end in
        let '(more, w2) := scan_tool_content st filename (S i) rest w1 in
        (option_map (app pushed) more, w2)
  end.

(** The continuation of one promise, on the content sequence. *)
Definition settle_tool_promise (content : list json) (p : tool_promise) : list json :=
  match run_result (tp_run p) with
  | Uploaded url => alter (on_fields (settle_tool_fields JStr url)) (tp_index p) content
  | Failed _ => content
  end.

(** [processToolResultForBase64(result, filename?)]. *)
Definition processToolResultForBase64 (st : storage) (result : json)
    (filename : option json) (w : world) : outcome json * world :=
  if has_content_array result then
    match json_clone result with
    | JObj fs =>
        let content := content_of fs in
        let '(scanned, w') := scan_tool_content st filename 0 content w in
        match scanned with
        | None => (Throw TypeError, w')
        | Some uploadPromises =>
            match await_uploads uploadPromises with
            | None => (Pending, w')
            | Some settled =>
                let content' := foldl settle_tool_promise content settled in
                (Return (JObj (set_prop "content" (JArr content') fs)), w')
            end
        end
    | clonedResult => (Return clonedResult, w)
    end
  else
    let '(v, w') := replaceBase64InObject st result filename None w in
    (Return v, w').

(** *** Message lists *)

(** An upload promise of the message scan: the indices of its message and
    part, the branch that made it, the call of the upload primitive it
    awaits. *)
Record message_promise : Type := {
  mp_message : nat;
  mp_part : nat;
  mp_kind : part_kind;
  mp_run : upload_run;
}.

(** Lines 316-350: the image branch on a part that is not [null]. *)
Definition image_part_upload (st : storage) (part : json) (w : world)
  : option upload_run * world :=
  match part_kind_of part with
  | Some ImagePart =>
      let imageData := js_or (prop part "image") (prop part "data") in
      match as_string imageData with
      | Some data =>
          if Text.nonempty data && (isDataUrl data || isBase64 data) then
            let filename := js_or (prop part "filename") (Some (JStr "image")) in
            let mimeType := js_or (prop part "mimeType") (Some (JStr "image/jpeg")) in
            let '(r, w') :=
              upload st data filename (if isBase64 data then mimeType else None) w in
            (Some r, w')
          else (None, w)
      | None => (None, w)
      end
  | _ => (None, w)
  end.

(** Lines 353-378: the file branch on a part that is not [null]. *)
Definition file_part_upload (st : storage) (part : json) (w : world)
  : option upload_run * world :=
  match part_kind_of part with
  | Some FilePart =>
      match as_string (prop part "data") with
      | Some data =>
          if Text.nonempty data && (isDataUrl data || isBase64 data) then
            let filename :=
              js_or (js_or (prop part "filename") (prop part "name"))
                    (Some (JStr "file")) in
            let mimeType :=
              js_or (js_or (prop part "mimeType") (prop part "mediaType"))
                    (Some (JStr "application/octet-stream")) in
            let '(r, w') :=
              upload st data filename (if isBase64 data then mimeType else None) w in
            (Some r, w')
          else (None, w)
      | None => (None, w)
      end
  | _ => (None, w)
  end.

(** The two branches together: the upload begun for a part is that of
    the branch of its [type]. *)
Definition part_upload (st : storage) (part : json) (w : world)
  : option upload_run * world :=
  match part_kind_of part with
  | Some ImagePart => image_part_upload st part w
  | Some FilePart => file_part_upload st part w
  | None => (None, w)
  end.

Definition pushed_promise (i j : nat) (kind : part_kind) (r : option upload_run)
  : list message_promise :=
  match r with
  | Some run => [{| mp_message := i; mp_part := j; mp_kind := kind; mp_run := run |}]
  | None => []
  end.

(** The inner loop (lines 312-379) over the parts of message [i], from
    part [j]. *)
Fixpoint scan_parts (st : storage) (i j : nat) (parts : list json) (w : world)
  : option (list message_promise) * world :=
  match parts with
  | [] => (Some [], w)
  | part :: rest =>
      if is_null part then (None, w)
      else
        let '(r1, w1) := image_part_upload st part w in
        let '(r2, w2) := file_part_upload st part w1 in
        let pushed := pushed_promise i j ImagePart r1 ++ pushed_promise i j FilePart r2 in
        let '(more, w3) := scan_parts st i (S j) rest w2 in
        (option_map (app pushed) more, w3)
  end.

(** The outer loop (lines 307-381) from message [i]. *)
Fixpoint scan_messages (st : storage) (i : nat) (messages : list json) (w : world)
  : option (list message_promise) * world :=
  match messages with
  | [] => (Some [], w)
  | message :: rest =>
      if is_null message then (None, w)
      else
        let '(here, w1) :=
          match prop message "content" with
          | Some (JArr parts) => scan_parts st i 0 parts w
          | _ => (Some [], w)
          end in
        match here with
        | None => (None, w1)
        | Some pushed =>
            let '(more, w2) := scan_messages st (S i) rest w1 in
            (option_map (app pushed) more, w2)
        end
  end.

(** [clonedMessages[i].content[j]], updated by [f]. *)
Definition alter_part (f : json -> json) (i j : nat) (messages : list json)
  : list json :=
  alter (on_fields (fun fs =>
           match get_prop "content" fs with
           | Some (JArr parts) => set_prop "content" (JArr (alter f j parts)) fs
           | _ => fs
           end)) i messages.

(** The continuation of one promise, on the message list. *)
Definition settle_message_promise (messages : list json) (p : message_promise)
  : list json :=
  match run_result (mp_run p) with
  | Uploaded url =>
      alter_part (on_fields (settle_message_fields truthy JStr (mp_kind p) url))
                 (mp_message p) (mp_part p) messages
  | Failed _ => messages
  end.

(** [processMessagesForBase64(messages)]. *)
Definition processMessagesForBase64 (st : storage) (messages : list json)
    (w : world) : outcome (list json) * world :=
  let clonedMessages := map json_clone messages in
  let '(scanned, w') := scan_messages st 0 clonedMessages w in
  match scanned with
  | None => (Throw TypeError, w')
  | Some uploadPromises =>
      match await_uploads uploadPromises with
      | None => (Pending, w')
      | Some settled =>
          (Return (foldl settle_message_promise clonedMessages settled), w')
      end
  end.

(** A call of the upload primitive that fails before it sends anything. *)
Definition failed_run (run : upload_run) : Prop :=
  run_put run = None /\ exists e, run_result run = Failed e.

(** *** What becomes of a part

    The value in the place of a part once the promises have settled: the
    part as its continuation left it when its upload resolved; the part as
    it was when the upload failed or none was begun. *)
Definition after_upload (settle : string -> json -> json) (r : option upload_run)
    (part : json) : json :=
  match r with
  | Some run =>
      match run_result run with
      | Uploaded url => settle url part
      | Failed _ => part
      end
  | None => part
  end.

Definition settled_tool_item : option upload_run -> json -> json :=
  after_upload (fun url => on_fields (settle_tool_fields JStr url)).

Definition settled_message_part (kind : part_kind) : option upload_run -> json -> json :=
  after_upload (fun url => on_fields (settle_message_fields truthy JStr kind url)).

(** [item'] is what the scan and the continuations of
    [processToolResultForBase64] make of [item] in a call that starts in
    the history [w] and ends in [w']: [wj] is the history when the scan
    reaches the item, and the history after the turn of the item is part
    of [w']. *)
Definition tool_item_outcome (st : storage) (filename : option json)
    (w w' : world) (item item' : json) : Prop :=
  exists wj,
    w `prefix_of` wj
    /\ (tool_item_upload st filename item wj).2 `prefix_of` w'
    /\ item' = settled_tool_item (tool_item_upload st filename item wj).1 item.

(** The same for a part of a message: the image branch, then the file
    branch. *)
Definition message_part_outcome (st : storage) (w w' : world)
    (part part' : json) : Prop :=
  exists wj,
    w `prefix_of` wj
    /\ (file_part_upload st part (image_part_upload st part wj).2).2 `prefix_of` w'
    /\ part' = settled_message_part FilePart
                 (file_part_upload st part (image_part_upload st part wj).2).1
                 (settled_message_part ImagePart (image_part_upload st part wj).1 part).

(** A message and what the call makes of it: a message with a content
    sequence keeps its properties, the parts of the sequence apart. *)
Definition message_outcome (st : storage) (w w' : world)
    (message message' : json) : Prop :=
  match message with
  | JObj fs =>
      match get_prop "content" fs with
      | Some (JArr parts) =>
          exists parts', message' = JObj (set_prop "content" (JArr parts') fs)
            /\ Forall2 (message_part_outcome st w w') parts parts'
      | _ => message' = message
      end
  | _ => message' = message
  end.

(** The members of the sequences the scans walk are expected to be
    objects: [part.type] and [message.content] throw on [null]. *)
Definition no_null (parts : list json) : Prop :=
  Forall (fun part => is_null part = false) parts.

Definition message_without_null (message : json) : Prop :=
  is_null message = false
  /\ match prop message "content" with
     | Some (JArr parts) => no_null parts
     | _ => True
     end.

End Offload.

(** ** Scheduling: when uploads start and when promises are awaited

    An [async] function runs in the caller's turn up to its first [await]
    of a promise that has not settled.  The scans of the two typed entry
    points create each upload promise by calling an [async] arrow function
    at once (lines 253-277, 325-346, 359-375); its body calls
    [uploadBase64ToS3], whose body runs up to
    [await s3Client.send(putCommand)] (line 144).  So the command of a
    promise is with the storage client when the promise is pushed, and the
    scan has no [await]: no promise settles before the loop has ended.
    [batchPromises] receives the promises afterwards. *)
Module Schedule.
Import S3 Offload.

Inductive event : Type :=
  | Started (p : nat)       (* the command of promise [p] is handed to the storage client *)
  | Settled (p : nat)       (* promise [p] settles *)
  | BatchAwaited (b : nat). (* [await Promise.all(batch)] of batch [b] returns *)

(** The events of the scan: promise [p] is the [p]-th one pushed; its
    upload starts unless the primitive throws before it sends anything. *)
Fixpoint scan_events (p : nat) (runs : list upload_run) : list event :=
  match runs with
  | [] => []
  | run :: r =>
      match run_put run with
      | Some _ => Started p :: scan_events (S p) r
      | None => scan_events (S p) r
      end
  end.

Definition all_settled (batch settled : list nat) : bool :=
  forallb (fun p => bool_decide (p ∈ settled)) batch.

(** [await Promise.all(batch)]: the environment settles promises in the
    order [order] until every promise of the batch has settled.  The
    result holds the events, the promises settled so far, the rest of the
    order, and whether the [await] returned. *)
Fixpoint await_all (batch settled order : list nat)
  : list event * list nat * list nat * bool :=
  if all_settled batch settled then ([], settled, order, true)
  else match order with
       | [] => ([], settled, [], false)
       | p :: rest =>
           let '(evs, settled', order', ok) := await_all batch (p :: settled) rest in
           (Settled p :: evs, settled', order', ok)
       end.

(** The loop of [batchPromises] over its batches, from batch number [b]. *)
Fixpoint await_batches (b : nat) (batches : list (list nat))
    (settled order : list nat) : list event * bool :=
  match batches with
  | [] => ([], true)
  | batch :: more =>
      let '(evs, settled', order', ok) := await_all batch settled order in
      if ok then
        let '(evs', ok') := await_batches (S b) more settled' order' in
        (evs ++ BatchAwaited b :: evs', ok')
      else (evs, false)
  end.

(** The events of a typed entry point whose scan pushed the promises
    [runs], when the environment settles promises in the order [order];
    the flag tells whether the entry point got past its [await]. *)
Definition call_events (runs : list upload_run) (order : list nat)
  : list event * bool :=
  let started := scan_events 0 runs in
  if 0 <? length runs then
    match batches_of (seq 0 (length runs)) MAX_CONCURRENT_UPLOADS with
    | Some batches =>
        let '(evs, ok) := await_batches 0 batches [] order in
        (started ++ evs, ok)
    | None => (started, false)
    end
  else (started, true).

(** The uploads in flight after an event. *)
Definition step_in_flight (flying : list nat) (e : event) : list nat :=
  match e with
  | Started p => p :: flying
  | Settled p => filter (fun q => q ≠ p) flying
  | BatchAwaited _ => flying
  end.

(** The largest number of uploads in flight at any instant of a trace. *)
Fixpoint peak_from (flying : list nat) (trace : list event) : nat :=
  match trace with
  | [] => length flying
  | e :: r => max (length flying) (peak_from (step_in_flight flying e) r)
  end.

Definition peak_in_flight (trace : list event) : nat := peak_from [] trace.

(** The promises the scan of [processToolResultForBase64] pushes. *)
Definition tool_result_promises (st : storage) (result : Js.json)
    (filename : option Js.json) (w : world) : list upload_run :=
  if has_content_array result then
    match Js.json_clone result with
    | Js.JObj fs =>
        match scan_tool_content st filename 0 (content_of fs) w with
        | (Some uploadPromises, _) => map tp_run uploadPromises
        | (None, _) => []
        end
    | _ => []
    end
  else [].

(** The events of one call of [processToolResultForBase64] on a result
    with a content sequence. *)
Definition tool_result_events (st : storage) (result : Js.json)
    (filename : option Js.json) (w : world) (order : list nat)
  : list event * bool :=
  call_events (tool_result_promises st result filename w) order.

(** The promises the scan of [processMessagesForBase64] pushes, and the
    events of one call. *)
Definition messages_promises (st : storage) (messages : list Js.json)
    (w : world) : list upload_run :=
  match scan_messages st 0 (map Js.json_clone messages) w with
  | (Some uploadPromises, _) => map mp_run uploadPromises
  | (None, _) => []
  end.

Definition messages_events (st : storage) (messages : list Js.json)
    (w : world) (order : list nat) : list event * bool :=
  call_events (messages_promises st messages w) order.

(** The recursive walk has no batches.  A call of [replaceBase64InObject]
    runs in its caller's turn up to its first [await]: on a string it
    reaches the [await] of the upload it begins; on an array, [obj.map]
    calls the walk of every element before [Promise.all] is awaited
    (line 191); on an object, the walk of the first property value is
    called and then awaited (line 199).  These are the calls of the upload
    primitive begun in that first turn, numbered as in
    [replaceBase64InObject]. *)
Fixpoint walk_first_turn (st : storage) (obj : Js.json)
    (filename mimeType : option Js.json) (w : world) : list upload_run :=
  match obj with
  | Js.JStr s =>
      if is_data_url_string s then [(upload st s filename None w).1]
      else if Js.truthy_opt mimeType && Text.looks_like_base64 s
      then [(upload st s filename mimeType w).1]
      else []
  | Js.JArr items =>
      let fix each (l : list Js.json) (w : world) : list upload_run :=
        match l with
        | [] => []
        | item :: r =>
            walk_first_turn st item filename mimeType w
            ++ each r (replaceBase64InObject st item filename mimeType w).2
        end in
      each items w
  | Js.JObj fs =>
      match fs with
      | (key, value) :: _ =>
          walk_first_turn st value filename (currentMimeType fs key mimeType) w
      | [] => []
      end
  | _ => []
  end.

(** The first turn of [processToolCallForBase64]. *)
Definition tool_call_first_turn (st : storage) (args : Js.json) (w : world)
  : list upload_run :=
  let processedArgs := Js.json_clone args in
  let filename :=
    match processedArgs with
    | Js.JObj fs =>
        if Js.has_prop "filename" fs then Js.get_prop "filename" fs else None
    | _ => None
    end in
  walk_first_turn st processedArgs filename None w.

(** The events of a call of [processToolCallForBase64]: those of its
    first turn, then [later], whatever follows. *)
Definition tool_call_events (st : storage) (args : Js.json) (w : world)
    (later : list event) : list event :=
  scan_events 0 (tool_call_first_turn st args w) ++ later.

End Schedule.

(** ** The pipeline on a heap of objects

    Objects and arrays live in a heap and are referred to by location, so
    that two references may name the same object and an assignment to a
    property is seen through every reference.  A heap is the list of its
    cells; a new object takes the next location. *)
Module Heap.
Import Js S3 Offload.

Definition loc : Type := nat.

Inductive hval : Type :=
  | HNull
  | HBool (b : bool)
  | HNum (n : Z)
  | HStr (s : string)
  | HRef (l : loc).

Inductive cell : Type :=
  | CObj (fields : props hval)
  | CArr (items : list hval).

Abbreviation heap := (list cell).

Definition htruthy (v : hval) : bool :=
  match v with
  | HNull => false
  | HBool b => b
  | HNum n => negb (Z.eqb n 0)
  | HStr s => Text.nonempty s
  | HRef _ => true
  end.

(** [JSON.stringify(v)], as the tree the text denotes.  [fuel] bounds the
    depth of nesting; [None] is the [TypeError] on a cyclic structure. *)
Fixpoint read_json (fuel : nat) (h : heap) (v : hval) : option json :=
  match v with
  | HNull => Some JNull
  | HBool b => Some (JBool b)
  | HNum n => Some (JNum n)
  | HStr s => Some (JStr s)
  | HRef l =>
      match fuel with
      | 0 => None
      | S fuel' =>
          match h !! l with
          | Some (CArr items) => JArr <$> mapM (read_json fuel' h) items
          | Some (CObj fs) =>
              JObj <$> mapM (fun p => pair p.1 <$> read_json fuel' h p.2) fs
          | None => None
          end
      end
  end.

(** [JSON.parse(text)]: the tree built out of new objects; the parts of an
    object are built before the object itself. *)
Fixpoint alloc_json (t : json) (h : heap) : hval * heap :=
  match t with
  | JNull => (HNull, h)
  | JBool b => (HBool b, h)
  | JNum n => (HNum n, h)
  | JStr s => (HStr s, h)
  | JArr items =>
      let fix each (l : list json) (h : heap) : list hval * heap :=
        match l with
        | [] => ([], h)
        | x :: r =>
            let '(v, h1) := alloc_json x h in
            let '(vs, h2) := each r h1 in
            (v :: vs, h2)
        end in
      let '(vs, h') := each items h in
      (HRef (length h'), h' ++ [CArr vs])
  | JObj fs =>
      let fix each (l : props json) (h : heap) : props hval * heap :=
        match l with
        | [] => ([], h)
        | (k, x) :: r =>
            let '(v, h1) := alloc_json x h in
            let '(vs, h2) := each r h1 in
            ((k, v) :: vs, h2)
        end in
      let '(vs, h') := each fs h in
      (HRef (length h'), h' ++ [CObj vs])
  end.

(** A value as an argument of the upload primitive. *)
Definition read_arg (fuel : nat) (h : heap) (o : option hval) : option (option json) :=
  match o with
  | None => Some None
  | Some v => Some <$> read_json fuel h v
  end.

(** [try { return await uploadBase64ToS3(obj, filename, mimeType) } catch
    { return obj }] with the hint read from the heap; a hint that cannot
    be read counts as a failed upload. *)
Definition h_upload_or_keep (fuel : nat) (st : storage) (h : heap) (s : string)
    (filename : option json) (mimeType : option hval) (w : world) : hval * world :=
  match read_arg fuel h mimeType with
  | Some mime =>
      let '(v, w') := upload_or_keep st s filename mime w in
      (match v with JStr s' => HStr s' | _ => HStr s end, w')
  | None => (HStr s, w)
  end.

Definition h_truthy_opt (o : option hval) : bool :=
  match o with Some v => htruthy v | None => false end.

(** Line 198 on a heap object. *)
Definition h_currentMimeType (fs : props hval) (key : string)
    (mimeType : option hval) : option hval :=
  if bool_decide (key = "data") && has_prop "mimeType" fs
  then get_prop "mimeType" fs
  else mimeType.

Definition h_assign_result (key : string) (value : hval) (result : props hval)
  : props hval :=
  if bool_decide (key = "__proto__") then result else set_prop key value result.

(** [replaceBase64InObject] on the heap: it reads the objects it walks and
    builds its result out of new ones ([result = {}], [obj.map(...)]).
    [fuel] bounds the depth of the recursion. *)
Fixpoint h_replaceBase64InObject (fuel : nat) (st : storage) (h : heap)
    (obj : hval) (filename : option json) (mimeType : option hval) (w : world)
  : outcome hval * heap * world :=
  match obj with
  | HStr s =>
      if is_data_url_string s then
        let '(v, w') := h_upload_or_keep fuel st h s filename None w in
        (Return v, h, w')
      else if h_truthy_opt mimeType && Text.looks_like_base64 s then
        let '(v, w') := h_upload_or_keep fuel st h s filename mimeType w in
        (Return v, h, w')
      else (Return obj, h, w)
  | HRef l =>
      match fuel with
      | 0 => (Throw RangeError, h, w)
      | S fuel' =>
          match h !! l with
          | Some (CArr items) =>
              let fix each (l : list hval) (h : heap) (w : world)
                : outcome (list hval) * heap * world :=
                match l with
                | [] => (Return [], h, w)
                | item :: r =>
                    match h_replaceBase64InObject fuel' st h item filename mimeType w with
                    | (Return item', h1, w1) =>
                        match each r h1 w1 with
                        | (Return r', h2, w2) => (Return (item' :: r'), h2, w2)
                        | (Throw e, h2, w2) => (Throw e, h2, w2)
                        | (Pending, h2, w2) => (Pending, h2, w2)
                        end
                    | (Throw e, h1, w1) => (Throw e, h1, w1)
                    | (Pending, h1, w1) => (Pending, h1, w1)
                    end
                end in
              match each items h w with
              | (Return items', h', w') =>
                  (Return (HRef (length h')), h' ++ [CArr items'], w')
              | (Throw e, h', w') => (Throw e, h', w')
              | (Pending, h', w') => (Pending, h', w')
              end
          | Some (CObj fs) =>
              let fix entries (l : props hval) (result : props hval)
                  (h : heap) (w : world) : outcome (props hval) * heap * world :=
                match l with
                | [] => (Return result, h, w)
                | (key, value) :: r =>
                    match h_replaceBase64InObject fuel' st h value filename
                            (h_currentMimeType fs key mimeType) w with
                    | (Return value', h1, w1) =>
                        entries r (h_assign_result key value' result) h1 w1
                    | (Throw e, h1, w1) => (Throw e, h1, w1)
                    | (Pending, h1, w1) => (Pending, h1, w1)
                    end
                end in
              match entries fs [] h w with
              | (Return result, h', w') =>
                  (Return (HRef (length h')), h' ++ [CObj result], w')
              | (Throw e, h', w') => (Throw e, h', w')
              | (Pending, h', w') => (Pending, h', w')
              end
          | None => (Return obj, h, w)
          end
      end
  | _ => (Return obj, h, w)
  end.

(** [processToolCallForBase64(toolCall)] with [toolCall.toolName] (a
    string) and [toolCall.args] read; the result is a new object. *)
Definition h_processToolCallForBase64 (fuel : nat) (st : storage) (h : heap)
    (toolName : string) (args : hval) (w : world) : outcome hval * heap * world :=
  match read_json fuel h args with
  | None => (Throw TypeError, h, w)
  | Some t =>
      let '(processedArgs, h1) := alloc_json t h in
      let filename :=
        match processedArgs with
        | HRef l =>
            match h1 !! l with
            | Some (CObj fs) =>
                if has_prop "filename" fs then get_prop "filename" fs else None
            | _ => None
            end
        | _ => None
        end in
      match read_arg fuel h1 filename with
      | None => (Throw RangeError, h1, w)
      | Some filename' =>
          match h_replaceBase64InObject fuel st h1 processedArgs filename' None w with
          | (Return updatedArgs, h2, w') =>
              (Return (HRef (length h2)),
               h2 ++ [CObj [("toolName", HStr toolName); ("args", updatedArgs)]], w')
          | (Throw e, h2, w') => (Throw e, h2, w')
          | (Pending, h2, w') => (Pending, h2, w')
          end
      end
  end.

(** Line 236 on the heap. *)
Definition h_has_content_array (h : heap) (result : hval) : bool :=
  match result with
  | HRef l =>
      match h !! l with
      | Some (CObj fs) =>
          match get_prop "content" fs with
          | Some (HRef c) =>
              match h !! c with Some (CArr _) => true | _ => false end
          | _ => false
          end
      | _ => false
      end
  | _ => false
  end.

(** The items of the array a value refers to. *)
Definition items_of (h : heap) (v : option hval) : option (list hval) :=
  match v with
  | Some (HRef c) => match h !! c with Some (CArr items) => Some items | _ => None end
  | _ => None
  end.

(** [v.k] for a value that is not [null]. *)
Definition h_prop (h : heap) (v : hval) (k : string) : option hval :=
  match v with
  | HRef l => match h !! l with Some (CObj fs) => get_prop k fs | _ => None end
  | _ => None
  end.

(** An upload promise and the object its continuation holds on to; for a
    promise of the message scan, also the branch that made it. *)
Record h_promise (K : Type) : Type := {
  hp_target : hval;
  hp_kind : K;
  hp_run : upload_run;
}.
Arguments hp_target {K} _.
Arguments hp_kind {K} _.
Arguments hp_run {K} _.

Definition h_pushed {K} (target : hval) (kind : K) (r : option upload_run)
  : list (h_promise K) :=
  match r with
  | Some run => [{| hp_target := target; hp_kind := kind; hp_run := run |}]
  | None => []
  end.

(** The loop of lines 243-282 over the cloned content sequence.  The test
    and the arguments of the upload are those of [tool_item_upload], on
    the item as read from the heap. *)
Fixpoint h_scan_tool_content (fuel : nat) (st : storage) (filename : option json)
    (h : heap) (content : list hval) (w : world)
  : outcome (list (h_promise unit)) * world :=
  match content with
  | [] => (Return [], w)
  | item :: rest =>
      match item with
      | HNull => (Throw TypeError, w)
      | _ =>
          match read_json fuel h item with
          | None => (Throw RangeError, w)
          | Some jitem =>
              let '(r, w1) := tool_item_upload st filename jitem w in
              match h_scan_tool_content fuel st filename h rest w1 with
              | (Return more, w2) => (Return (h_pushed item () r ++ more), w2)
              | (Throw e, w2) => (Throw e, w2)
              | (Pending, w2) => (Pending, w2)
              end
          end
      end
  end.

(** [obj.f = ...] and [delete obj.f] through a reference: the cell of the
    object is replaced. *)
Definition update_fields (f : props hval -> props hval) (target : hval) (h : heap)
  : heap :=
  match target with
  | HRef l =>
      match h !! l with
      | Some (CObj fs) => <[l := CObj (f fs)]> h
      | _ => h
      end
  | _ => h
  end.

(** The continuation of a promise of the tool-result scan. *)
Definition h_settle_tool_promise (h : heap) (p : h_promise unit) : heap :=
  match run_result (hp_run p) with
  | Uploaded url => update_fields (settle_tool_fields HStr url) (hp_target p) h
  | Failed _ => h
  end.

(** [processToolResultForBase64(result, filename?)] on the heap. *)
Definition h_processToolResultForBase64 (fuel : nat) (st : storage) (h : heap)
    (result : hval) (filename : option json) (w : world)
  : outcome hval * heap * world :=
  if h_has_content_array h result then
    match read_json fuel h result with
    | None => (Throw TypeError, h, w)
    | Some t =>
        let '(clonedResult, h1) := alloc_json t h in
        let content := default [] (items_of h1 (h_prop h1 clonedResult "content")) in
        match h_scan_tool_content fuel st filename h1 content w with
        | (Return uploadPromises, w') =>
            match await_uploads uploadPromises with
            | None => (Pending, h1, w')
            | Some settled =>
                (Return clonedResult, foldl h_settle_tool_promise h1 settled, w')
            end
        | (Throw e, w') => (Throw e, h1, w')
        | (Pending, w') => (Pending, h1, w')
        end
    end
  else h_replaceBase64InObject fuel st h result filename None w.

(** The inner loop of lines 312-379 over the parts of a cloned message. *)
Fixpoint h_scan_parts (fuel : nat) (st : storage) (h : heap) (parts : list hval)
    (w : world) : outcome (list (h_promise part_kind)) * world :=
  match parts with
  | [] => (Return [], w)
  | part :: rest =>
      match part with
      | HNull => (Throw TypeError, w)
      | _ =>
          match read_json fuel h part with
          | None => (Throw RangeError, w)
          | Some jpart =>
              let '(r1, w1) := image_part_upload st jpart w in
              let '(r2, w2) := file_part_upload st jpart w1 in
              match h_scan_parts fuel st h rest w2 with
              | (Return more, w3) =>
                  (Return (h_pushed part ImagePart r1 ++ h_pushed part FilePart r2 ++ more), w3)
              | (Throw e, w3) => (Throw e, w3)
              | (Pending, w3) => (Pending, w3)
              end
          end
      end
  end.

(** The outer loop of lines 307-381 over the cloned messages. *)
Fixpoint h_scan_messages (fuel : nat) (st : storage) (h : heap)
    (messages : list hval) (w : world)
  : outcome (list (h_promise part_kind)) * world :=
  match messages with
  | [] => (Return [], w)
  | message :: rest =>
      match message with
      | HNull => (Throw TypeError, w)
      | _ =>
          let here :=
            match items_of h (h_prop h message "content") with
            | Some parts => h_scan_parts fuel st h parts w
            | None => (Return [], w)
            end in
          match here with
          | (Return pushed, w1) =>
              match h_scan_messages fuel st h rest w1 with
              | (Return more, w2) => (Return (pushed ++ more), w2)
              | (Throw e, w2) => (Throw e, w2)
              | (Pending, w2) => (Pending, w2)
              end
          | (Throw e, w1) => (Throw e, w1)
          | (Pending, w1) => (Pending, w1)
          end
      end
  end.

(** The continuation of a promise of the message scan. *)
Definition h_settle_message_promise (h : heap) (p : h_promise part_kind) : heap :=
  match run_result (hp_run p) with
  | Uploaded url =>
      update_fields (settle_message_fields htruthy HStr (hp_kind p) url) (hp_target p) h
  | Failed _ => h
  end.

(** [processMessagesForBase64(messages)] on the heap.  The parameter is
    declared an array; for another value the loop is not modelled beyond
    [null.length], and the clone is returned. *)
Definition h_processMessagesForBase64 (fuel : nat) (st : storage) (h : heap)
    (messages : hval) (w : world) : outcome hval * heap * world :=
  match read_json fuel h messages with
  | None => (Throw TypeError, h, w)
  | Some t =>
      let '(clonedMessages, h1) := alloc_json t h in
      match items_of h1 (Some clonedMessages) with
      | None =>
          match clonedMessages with
          | HNull => (Throw TypeError, h1, w)
          | _ => (Return clonedMessages, h1, w)
          end
      | Some msgs =>
          match h_scan_messages fuel st h1 msgs w with
          | (Return uploadPromises, w') =>
              match await_uploads uploadPromises with
              | None => (Pending, h1, w')
              | Some settled =>
                  (Return clonedMessages,
                   foldl h_settle_message_promise h1 settled, w')
              end
          | (Throw e, w') => (Throw e, h1, w')
          | (Pending, w') => (Pending, h1, w')
          end
      end
  end.

(** *** Old and new objects

    Relative to a heap of [n] objects: a value is new when it is a
    primitive or refers to an object created later; the objects created
    later form a closed region when they hold new values only. *)
Definition new_value (n : nat) (v : hval) : Prop :=
  match v with HRef l => n <= l | _ => True end.

Definition new_cell (n : nat) (c : cell) : Prop :=
  match c with
  | CObj fs => Forall (fun p => new_value n p.2) fs
  | CArr items => Forall (new_value n) items
  end.

Definition closed_from (n : nat) (h : heap) : Prop :=
  forall l c, n <= l -> h !! l = Some c -> new_cell n c.

(** Every object of [h] is in [h'], as it was. *)
Definition unchanged_in (h h' : heap) : Prop :=
  forall l c, h !! l = Some c -> h' !! l = Some c.

(** The value an entry point resolves with, if it does. *)
Definition returned {A} (o : outcome A) : option A :=
  match o with Return v => Some v | _ => None end.

End Heap.

(** ** The ping-aware transport wrapper *)
Module Transport.
Import Js.

(** A JSON-RPC message: an object, as the list of its properties. *)
Definition message : Type := props json.

(** What the wrapper does to its surroundings. *)
Inductive effect : Type :=
  | Sent (m : message)        (* [originalTransport.send(m)] is called *)
  | Delivered (m : message)   (* the owner's [onmessage] is called with [m] *)
  | Reported (error : string) (* the owner's [onerror] is called *)
  | ClosedSeen                (* the owner's [onclose] is called *)
  | StartCalled               (* [originalTransport.start()] is called *)
  | CloseCalled.              (* [originalTransport.close()] is called *)

(** The callback slots of the wrapper: whether the owner has set them. *)
Record wrapper : Type := {
  onmessage : bool;
  onclose : bool;
  onerror : bool;
}.

(** The underlying transport: the error with which the promise of
    [send(m)] rejects, [None] when it resolves. *)
Record transport : Type := {
  send_rejects : message -> option string;
}.

(** Lines 37-41. *)
Definition pong (id : json) : message :=
  [("jsonrpc", JStr "2.0"); ("id", id); ("result", JObj [])].

(** [handlePing(message)]: the effects of the call and of the [catch]
    handler of its send.  The handler runs when the promise of the send
    rejects, in a later turn; the order of the list says nothing about
    when (see [Inbound] for runs over several messages). *)
Definition handlePing (t : transport) (wr : wrapper) (m : message) : list effect :=
  match get_prop "id" m with
  | Some id =>
      let response := pong id in
      Sent response ::
      match send_rejects t response with
      | Some error => if onerror wr then [Reported error] else []
      | None => []
      end
  | None => []
  end.

(** Line 25: ["method" in message && message.method === "ping"]. *)
Definition is_ping (m : message) : bool :=
  match get_prop "method" m with
  | Some (JStr method) => bool_decide (method = "ping")
  | _ => false
  end.

(** The handler the constructor installs as [originalTransport.onmessage]
    (lines 23-32). *)
Definition originalTransport_onmessage (t : transport) (wr : wrapper) (m : message)
  : list effect :=
  if is_ping m then handlePing t wr m
  else if onmessage wr then [Delivered m] else [].

(** Lines 21-22. *)
Definition originalTransport_onclose (wr : wrapper) : list effect :=
  if onclose wr then [ClosedSeen] else [].

Definition originalTransport_onerror (wr : wrapper) (error : string) : list effect :=
  if onerror wr then [Reported error] else [].

(** [start()], [send(message)], [close()]. *)
Definition start : list effect := [StartCalled].
Definition send (m : message) : list effect := [Sent m].
Definition close : list effect := [CloseCalled].

(** The messages sent on the underlying transport, and those handed to
    the owner. *)
Definition sent_of (es : list effect) : list message :=
  omap (fun e => match e with Sent m => Some m | _ => None end) es.

Definition delivered_of (es : list effect) : list message :=
  omap (fun e => match e with Delivered m => Some m | _ => None end) es.

End Transport.

(** ** The words of the specification

    Definitions written after the sentences of the specification, to be
    compared with the definitions taken from the source. *)
Module SpecWords.
Import Js S3.

(** "a string embedding a MIME type and base64-encoded bytes inline, of
    the form [data:<mime>;base64,<payload>]": the MIME type and the
    payload are not empty, the MIME type ends at the first semicolon, the
    payload is on one line (it holds none of LF, CR, U+2028, U+2029). *)
Definition data_uri (s mime payload : string) : Prop :=
  s = "data:" +:+ mime +:+ ";base64," +:+ payload
  /\ mime <> "" /\ payload <> ""
  /\ Text.all_chars (Text.other_than ";"%char) mime = true
  /\ Text.one_line payload = true.

(** "the subtype portion of the MIME string": what stands between the
    first slash and the next one (or the end). *)
Definition subtype_portion (mime : string) : option string :=
  match (Text.span_until "/"%char mime).2 with
  | EmptyString => None
  | String _ after => Some (Text.span_until "/"%char after).1
  end.

(** "an extension derived from the MIME type (a static MIME to extension
    table, falling back to the subtype portion of the MIME string,
    falling back to [bin])". *)
Definition derived_extension (mime : string) : string :=
  match get_prop mime mimeToExt with
  | Some ext => ext
  | None =>
      match subtype_portion mime with
      | Some sub => if Text.nonempty sub then sub else "bin"
      | None => "bin"
      end
  end.

(** "already has a dotted extension": the name ends in a dot followed by
    one or more letters or digits. *)
Definition dotted_extension (name : string) : Prop :=
  exists stem ext, name = stem +:+ "." +:+ ext
    /\ ext <> "" /\ Text.all_chars Text.is_alnum ext = true.

(** "if a candidate filename is given and already has a dotted extension,
    keep it unchanged; if given without an extension, append an extension
    [...]; if no candidate filename is given at all, use [file.<ext>]",
    for an extension [ext].  The empty string is no candidate. *)
Definition named_with (candidate : option string) (ext name : string) : Prop :=
  match candidate with
  | Some f =>
      if Text.nonempty f then
        (dotted_extension f /\ name = f)
        \/ (~ dotted_extension f /\ name = f +:+ "." +:+ ext)
      else name = "file." +:+ ext
  | None => name = "file." +:+ ext
  end.

(** The same with "an extension derived from the MIME type". *)
Definition derived_filename (candidate : option string) (mime name : string) : Prop :=
  named_with candidate (derived_extension mime) name.

(** "its first 100 characters match the base64 alphabet ([A]-[Z],
    [a]-[z], [0]-[9], [+], [/], [=])", read as: each of them is a
    character of that alphabet. *)
Definition in_base64_alphabet (c : ascii) : bool :=
  Text.is_upper c || Text.is_lower c || Text.is_digit c
  || bool_decide (c = "+"%char) || bool_decide (c = "/"%char)
  || bool_decide (c = "="%char).

Definition alphabet_only (s : string) : bool :=
  Text.all_chars in_base64_alphabet (Text.take_chars 100 s).




End SpecWords.

(** ** Fixtures

    The surroundings the test suite of the source sets up, and variations
    of them. *)
Module Fixtures.
Import Js S3.

(** The mocks of [s3-utils.test.ts]: every command is accepted, every URL
    request answered with the same URL. *)
Definition test_storage : storage :=
  {| BUCKET_NAME := "test-bucket";
     randomUUID := fun _ => "test-uuid-1234";
     send_put := fun _ _ => true;
     getSignedUrl := fun _ _ _ => Some "https://test-presigned-url.com" |}.

(** A storage that rejects the command of the upload calls listed in
    [rejected] and answers the others with a URL that names the key. *)
Definition flaky_storage (rejected : list nat) : storage :=
  {| BUCKET_NAME := "test-bucket";
     randomUUID := fun call => "uuid-" +:+ render_int (Z.of_nat call);
     send_put := fun call _ => negb (bool_decide (call ∈ rejected));
     getSignedUrl := fun _ get _ => Some ("https://signed/" +:+ get_key get) |}.

(** [n] image items with a data URI each, as in the batching test. *)
Definition image_item (i : nat) : json :=
  JObj [("type", JStr "image");
        ("data", JStr ("data:image/png;base64,image" +:+ render_int (Z.of_nat i)));
        ("mimeType", JStr "image/png")].

Definition image_items (n : nat) : json :=
  JObj [("content", JArr (map image_item (seq 0 n)))].

(** Tool-call arguments: an array of [n] data URIs. *)
Definition data_urls (n : nat) : json :=
  JArr (map (fun i => JStr ("data:image/png;base64,image" +:+ render_int (Z.of_nat i)))
            (seq 0 n)).

(** One message with [n] such image parts. *)
Definition image_message (n : nat) : list json :=
  [JObj [("role", JStr "user"); ("content", JArr (map image_item (seq 0 n)))]].

(** The message of the test "should continue processing when individual
    uploads fail": two image parts. *)
Definition two_images : list json :=
  [JObj [("role", JStr "user");
         ("content",
          JArr [JObj [("type", JStr "image"); ("data", JStr "data:image/png;base64,fail")];
                JObj [("type", JStr "image");
                      ("data", JStr "data:image/png;base64,success")]])]].


(** The tool result of the test "should process tool result with content
    array". *)
Definition screenshot_result : props json :=
  [("content",
    JArr [JObj [("type", JStr "image"); ("data", JStr "data:image/png;base64,abc123");
                ("mimeType", JStr "image/png")];
          JObj [("type", JStr "text"); ("text", JStr "Screenshot captured")];
          JObj [("type", JStr "image"); ("data", JStr "def456");
                ("mimeType", JStr "image/jpeg")]])].

(** An image part with both an [image] and a [data] field, in a message. *)
Definition image_and_data : list json :=
  [JObj [("role", JStr "user");
         ("content",
          JArr [JObj [("type", JStr "image");
                      ("image", JStr "data:image/png;base64,AAAA");
                      ("data", JStr "data:image/png;base64,BBBB");
                      ("mimeType", JStr "image/png")]])]].

(** A storage that rejects the object whose body is the text [fail], as
    the failure tests of [s3-utils.test.ts] arrange for their first
    command, and answers the others with a URL that names the key. *)
Definition picky_storage : storage :=
  {| BUCKET_NAME := "test-bucket";
     randomUUID := fun _ => "test-uuid-1234";
     send_put := fun _ put => negb (bool_decide (put_body_base64 put = "fail"));
     getSignedUrl := fun _ get _ => Some ("https://signed/" +:+ get_key get) |}.

(** A tool result with a text item between two images, the first of
    which is refused by [picky_storage]. *)
Definition failing_result : props json :=
  [("content",
    JArr [JObj [("type", JStr "image"); ("data", JStr "data:image/png;base64,fail");
                ("mimeType", JStr "image/png")];
          JObj [("type", JStr "text"); ("text", JStr "Two screenshots")];
          JObj [("type", JStr "image");
                ("data", JStr "data:image/png;base64,success");
                ("mimeType", JStr "image/png")]])].

(** Tool-call arguments with two data URIs at different depths. *)
Definition failing_args : json :=
  JObj [("before", JStr "data:image/png;base64,fail");
        ("after", JArr [JStr "data:image/png;base64,success"; JNum 2])].


(** The same tool result as objects of a heap: the first image item at
    location 0, the text item at 1, the content array at 2, the result at
    3. *)
Definition screenshot_heap : list Heap.cell :=
  [Heap.CObj [("type", Heap.HStr "image");
              ("data", Heap.HStr "data:image/png;base64,abc123");
              ("mimeType", Heap.HStr "image/png")];
   Heap.CObj [("type", Heap.HStr "text"); ("text", Heap.HStr "Screenshot captured")];
   Heap.CArr [Heap.HRef 0; Heap.HRef 1];
   Heap.CObj [("content", Heap.HRef 2)]].

(** A tool result whose content array holds the same item object twice:
    the item at location 0, the array at 1, the result at 2. *)
Definition shared_item_heap : list Heap.cell :=
  [Heap.CObj [("type", Heap.HStr "image");
              ("data", Heap.HStr "data:image/png;base64,abc123")];
   Heap.CArr [Heap.HRef 0; Heap.HRef 0];
   Heap.CObj [("content", Heap.HRef 1)]].

(** A message list that holds the same message object twice: the part at
    location 0, its array at 1, the message at 2, the list at 3. *)
Definition shared_message_heap : list Heap.cell :=
  [Heap.CObj [("type", Heap.HStr "image");
              ("image", Heap.HStr "data:image/png;base64,AAAA");
              ("mimeType", Heap.HStr "image/png")];
   Heap.CArr [Heap.HRef 0];
   Heap.CObj [("role", Heap.HStr "user"); ("content", Heap.HRef 1)];
   Heap.CArr [Heap.HRef 2; Heap.HRef 2]].

End Fixtures.

(** ** The loops of the walk, and what a value looks like

    The two loops inside [replaceBase64InObject] as functions of their
    own, and the predicates in which the walk is described. *)
Module Walk.
Import Js S3 Offload.

(** Line 191: [obj.map(item => replaceBase64InObject(item, filename,
    mimeType))], the calls numbered one element after the other. *)
Fixpoint walk_each (st : storage) (filename mimeType : option json)
    (l : list json) (w : world) : list json * world :=
  match l with
  | [] => ([], w)
  | item :: r =>
      let '(item', w1) := replaceBase64InObject st item filename mimeType w in
      let '(r', w2) := walk_each st filename mimeType r w1 in
      (item' :: r', w2)
  end.

(** Lines 196-200: the loop over [Object.entries(obj)], [fs] being the
    properties of [obj] and [result] the object under construction. *)
Fixpoint walk_entries (st : storage) (fs : props json)
    (filename mimeType : option json) (l : props json) (result : props json)
    (w : world) : props json * world :=
  match l with
  | [] => (result, w)
  | (key, value) :: r =>
      let '(value', w1) :=
        replaceBase64InObject st value filename (currentMimeType fs key mimeType) w in
      walk_entries st fs filename mimeType r (assign_result key value' result) w1
  end.

(** The names of the properties of an object, in property order. *)
Definition keys {V} (fs : props V) : list string := map fst fs.

(** Every object of the value has distinct property names, none of them
    [__proto__]. *)
Fixpoint plain_keys (v : json) : bool :=
  match v with
  | JArr xs => forallb plain_keys xs
  | JObj fs =>
      bool_decide (NoDup (map fst fs))
      && bool_decide ("__proto__" ∉ map fst fs)
      && forallb (fun p => plain_keys p.2) fs
  | _ => true
  end.

(** Two values of the same shape: arrays of the same length, objects
    with the same property names in the same order, the same numbers,
    booleans and [null]s; where a string [s] stood, a string [s'] with
    [ok s s'] stands. *)
Fixpoint shape_with (ok : string -> string -> bool) (a b : json) : bool :=
  match a, b with
  | JNull, JNull => true
  | JBool x, JBool y => bool_decide (x = y)
  | JNum x, JNum y => bool_decide (x = y)
  | JStr s, JStr s' => ok s s'
  | JArr xs, JArr ys =>
      (fix all2 (xs ys : list json) : bool :=
         match xs, ys with
         | [], [] => true
         | x :: xs', y :: ys' => shape_with ok x y && all2 xs' ys'
         | _, _ => false
         end) xs ys
  | JObj fs, JObj gs =>
      (fix all2 (fs gs : props json) : bool :=
         match fs, gs with
         | [], [] => true
         | (k, x) :: fs', (k', y) :: gs' =>
             bool_decide (k = k') && shape_with ok x y && all2 fs' gs'
         | _, _ => false
         end) fs gs
  | _, _ => false
  end.



(** The same with a relation between the strings. *)
Fixpoint shape_rel (R : string -> string -> Prop) (a b : json) : Prop :=
  match a, b with
  | JNull, JNull => True
  | JBool x, JBool y => x = y
  | JNum x, JNum y => x = y
  | JStr s, JStr s' => R s s'
  | JArr xs, JArr ys =>
      (fix all2 (xs ys : list json) : Prop :=
         match xs, ys with
         | [], [] => True
         | x :: xs', y :: ys' => shape_rel R x y /\ all2 xs' ys'
         | _, _ => False
         end) xs ys
  | JObj fs, JObj gs =>
      (fix all2 (fs gs : props json) : Prop :=
         match fs, gs with
         | [], [] => True
         | (k, x) :: fs', (k', y) :: gs' => k = k' /\ shape_rel R x y /\ all2 fs' gs'
         | _, _ => False
         end) fs gs
  | _, _ => False
  end.

(** The object the loop of lines 196-200 builds from the property names
    and the values computed for them, assigned one after the other. *)
Definition assemble (entries : props json) : props json :=
  foldl (fun result (entry : string * json) => assign_result entry.1 entry.2 result)
        [] entries.

(** A value and what a walk makes of it, for any value: scalars stay,
    a string [s] becomes a string [s'] with [R s s'], an array becomes
    the array of what its elements become, an object the object
    assembled from its property names and what their values become. *)
Fixpoint walked (R : string -> string -> Prop) (a b : json) : Prop :=
  match a, b with
  | JNull, JNull => True
  | JBool x, JBool y => x = y
  | JNum x, JNum y => x = y
  | JStr s, JStr s' => R s s'
  | JArr xs, JArr ys =>
      (fix all2 (xs ys : list json) : Prop :=
         match xs, ys with
         | [], [] => True
         | x :: xs', y :: ys' => walked R x y /\ all2 xs' ys'
         | _, _ => False
         end) xs ys
  | JObj fs, JObj gs =>
      exists vs,
        (fix all2 (fs : props json) (vs : list json) : Prop :=
           match fs, vs with
           | [], [] => True
           | (_, x) :: fs', y :: vs' => walked R x y /\ all2 fs' vs'
           | _, _ => False
           end) fs vs
        /\ gs = assemble (zip (map fst fs) vs)
  | _, _ => False
  end.

(** What the walk with the file name [filename] makes of a string [s],
    [runs] being the calls of the walk.  For a string that begins with
    [data:] and holds [;base64,] a call is made with no MIME type: the
    string becomes the URL the call returned, and stays when the call
    failed.  Any other string stays, unless a call is made for it with
    the hint in scope, which is truthy, the string passing the base64
    test: then it becomes the URL, or stays when the call failed. *)
Definition walked_string (st : storage) (filename : option json)
    (runs : list upload_run) (s s' : string) : Prop :=
  if is_data_url_string s
  then exists run call,
         run ∈ runs
         /\ run = uploadBase64ToS3 st call s filename None
         /\ s' = match run_result run with Uploaded url => url | Failed _ => s end
  else s' = s
       \/ exists run call hint,
            run ∈ runs
            /\ truthy_opt hint = true /\ Text.looks_like_base64 s = true
            /\ run = uploadBase64ToS3 st call s filename hint
            /\ s' = match run_result run with Uploaded url => url | Failed _ => s end.


End Walk.

(** ** Candidates of the scans, and what the storage returned *)
Module Candidates.
Import Js S3 Offload.

(** Lines 247-251, 319-324, 353-358: a string the scans hand to the
    upload primitive: not empty, and either beginning with [data:] or
    passing the base64 test. *)
Definition candidate (o : option string) : bool :=
  match o with
  | Some data => Text.nonempty data && (isDataUrl data || isBase64 data)
  | None => false
  end.

(** An item of a tool result for which the scan begins an upload. *)
Definition uploadable_tool_item (item : json) : bool :=
  match part_kind_of item with
  | Some _ => candidate (as_string (prop item "data"))
  | None => false
  end.

(** A part of a message for which the scan begins an upload. *)
Definition uploadable_part (part : json) : bool :=
  match part_kind_of part with
  | Some ImagePart => candidate (as_string (js_or (prop part "image") (prop part "data")))
  | Some FilePart => candidate (as_string (prop part "data"))
  | None => false
  end.

(** The parts of all the content sequences of a message list. *)
Definition parts_of (messages : list json) : list json :=
  mjoin ((fun message =>
            match prop message "content" with
            | Some (JArr parts) => parts
            | _ => []
            end) <$> messages).

(** The calls made since the history [w]. *)
Definition calls_since (w w' : world) : list upload_run := drop (length w) w'.

(** Every call returned a URL. *)
Definition all_uploaded (runs : list upload_run) : Prop :=
  Forall (fun run => exists url, run_result run = Uploaded url) runs.

(** A URL that the scans do not take for a payload: not empty, not
    beginning with [data:], failing the base64 test. *)
Definition not_a_payload (url : string) : bool :=
  Text.nonempty url && negb (isDataUrl url) && negb (isBase64 url).

(** Every call returned a URL that is not taken for a payload. *)
Definition all_uploaded_plain (runs : list upload_run) : Prop :=
  Forall (fun run => exists url,
            run_result run = Uploaded url /\ not_a_payload url = true) runs.

(** A message that is not [null] and whose parts are neither [null] nor
    candidates. *)
Definition quiet_message (message : json) : Prop :=
  is_null message = false
  /\ match prop message "content" with
     | Some (JArr parts) =>
         Forall (fun part => is_null part = false /\ uploadable_part part = false) parts
     | _ => True
     end.

End Candidates.

(** ** Runs of the transport wrapper *)
Module Inbound.
Import Js Transport.

(** The errors handed to the owner's [onerror]. *)
Definition reported_of (es : list effect) : list string :=
  omap (fun e => match e with Reported error => Some error | _ => None end) es.

(** A transport whose sends have not settled.  The promise returned by
    [originalTransport.send] settles in a later turn, so this is the
    transport a call of the handler sees before it returns. *)
Definition unsettled : transport := {| send_rejects := fun _ => None |}.

(** What a call of the handler installed as [originalTransport.onmessage]
    does before it returns (lines 23-32 and 35-42): the response to a
    ping is handed to [send], any other message to the owner. *)
Definition in_turn (wr : wrapper) (m : message) : list effect :=
  originalTransport_onmessage unsettled wr m.

(** Whether the handler calls [send] for the message: a ping with an
    [id] (lines 25 and 36). *)
Definition sends_response (m : message) : bool :=
  is_ping m && bool_decide (is_Some (get_prop "id" m)).

(** The handler passed to [catch] on lines 42-44, run when the promise of
    a send rejects: [this.onerror?.(error)]. *)
Definition catch_rejection (wr : wrapper) (error : string) : list effect :=
  if onerror wr then [Reported error] else [].

(** The rejection a message leaves pending: [rejection n] is the error
    with which the promise of the send made for the [n]-th inbound
    message rejects, [None] when it resolves. *)
Definition new_pending (rejection : nat -> option string) (n : nat) (m : message)
  : list string :=
  if sends_response m then option_list (rejection n) else [].

(** The rejections of the sends made for [ms], numbered from [n]. *)
Fixpoint rejections (rejection : nat -> option string) (n : nat) (ms : list message)
  : list string :=
  match ms with
  | [] => []
  | m :: ms' => new_pending rejection n m ++ rejections rejection (S n) ms'
  end.

(** The runs of the wrapper over the inbound messages [ms], numbered
    from [n], with [pending] the rejections of sends already made whose
    [catch] handler has not run yet.  The underlying transport calls the
    handler once for each message it receives, in order; the [catch]
    handler of a send runs in some later turn, before or after later
    messages arrive and in any order with the handlers of other sends. *)
Inductive inbound_run (wr : wrapper) (rejection : nat -> option string)
  : nat -> list message -> list string -> list effect -> Prop :=
  | run_end (n : nat) : inbound_run wr rejection n [] [] []
  | run_message (n : nat) (m : message) (ms : list message)
      (pending : list string) (trace : list effect) :
      inbound_run wr rejection (S n) ms (pending ++ new_pending rejection n m) trace ->
      inbound_run wr rejection n (m :: ms) pending (in_turn wr m ++ trace)
  | run_rejected (n : nat) (ms : list message)
      (before : list string) (error : string) (after : list string)
      (trace : list effect) :
      inbound_run wr rejection n ms (before ++ after) trace ->
      inbound_run wr rejection n ms (before ++ error :: after)
        (catch_rejection wr error ++ trace).

(** A run to look at: two pings with a notification between them, an
    owner that has set [onmessage] and [onerror], both sends rejecting,
    and the second rejection reported first. *)
Definition listening : wrapper :=
  {| onmessage := true; onclose := false; onerror := true |}.

Definition both_reject (n : nat) : option string :=
  match n with
  | 0 => Some "first"%string
  | 2 => Some "second"%string
  | _ => None
  end.

Definition two_pings : list message :=
  [ [("jsonrpc", JStr "2.0"); ("id", JNum 1); ("method", JStr "ping")];
    [("jsonrpc", JStr "2.0"); ("method", JStr "notifications/progress")];
    [("jsonrpc", JStr "2.0"); ("id", JNum 2); ("method", JStr "ping")] ].

Definition late_reports : list effect :=
  [ Sent (pong (JNum 1));
    Delivered [("jsonrpc", JStr "2.0"); ("method", JStr "notifications/progress")];
    Sent (pong (JNum 2));
    Reported "second"; Reported "first" ].

End Inbound.

(* ===================================================================== *)
(** * Part II. Lemmas and theorems *)
(* ===================================================================== *)

Import Js S3 Offload.

(** ** The transport wrapper *)
Section TransportFacts.
Import Transport.

Lemma is_ping_spec (m : message) :
  is_ping m = true <-> get_prop "method" m = Some (JStr "ping").
Proof.
  unfold is_ping. destruct (get_prop "method" m) as [[| | |s| |]|]; try (split; discriminate).
  case_bool_decide; subst; split; intros; try done. congruence.
Qed.

(** C2. An inbound message whose method is [ping] is answered and
    swallowed: when it carries an identifier, exactly one message goes
    out on the underlying transport, the response
    [{jsonrpc: "2.0", id: <the same identifier>, result: {}}]; when it
    carries none, nothing goes out; and in neither case is the owner's
    [onmessage] called. *)
Theorem ping_answered_and_swallowed (t : transport) (wr : wrapper) (m : message) :
  get_prop "method" m = Some (JStr "ping") ->
  sent_of (originalTransport_onmessage t wr m) =
    match get_prop "id" m with
    | Some id => [ [("jsonrpc", JStr "2.0"); ("id", id); ("result", JObj [])] ]
    | None => []
    end
  /\ delivered_of (originalTransport_onmessage t wr m) = [].
Proof.
  intros Hping. apply is_ping_spec in Hping.
  unfold originalTransport_onmessage, handlePing. rewrite Hping.
  destruct (get_prop "id" m) as [id|]; [|done].
  unfold pong. destruct (send_rejects t _); [destruct (onerror wr)|]; done.
Qed.

(** Scenario C of the specification: [{jsonrpc: "2.0", id: 7, method: "ping"}]. *)
Lemma ping_answered_and_swallowed_witness :
  let t := {| send_rejects := fun _ => None |} in
  let wr := {| onmessage := true; onclose := true; onerror := true |} in
  let m := [("jsonrpc", JStr "2.0"); ("id", JNum 7); ("method", JStr "ping")] in
  sent_of (originalTransport_onmessage t wr m) =
    [ [("jsonrpc", JStr "2.0"); ("id", JNum 7); ("result", JObj [])] ]
  /\ delivered_of (originalTransport_onmessage t wr m) = [].
Proof.
  intros t wr m.
  exact (ping_answered_and_swallowed t wr m eq_refl).
Defined.

(** C8. An inbound message whose method is not exactly [ping] (no method
    at all, another method, a method that is not a string, a field named
    [ping] elsewhere) causes nothing to be sent on the underlying
    transport, and the owner's [onmessage], when the owner has set one, is
    called exactly once, with the message as it came in. *)
Theorem other_messages_pass_through (t : transport) (wr : wrapper) (m : message) :
  get_prop "method" m <> Some (JStr "ping") ->
  sent_of (originalTransport_onmessage t wr m) = []
  /\ originalTransport_onmessage t wr m = (if onmessage wr then [Delivered m] else [])
  /\ (onmessage wr = true ->
      delivered_of (originalTransport_onmessage t wr m) = [m]).
Proof.
  intros Hother.
  assert (is_ping m = false) as Hno.
  { destruct (is_ping m) eqn:E; [|done]. by apply is_ping_spec in E. }
  unfold originalTransport_onmessage. rewrite Hno.
  destruct (onmessage wr); repeat split; try done.
Qed.

(** A response without a method, and a notification with a [ping] field in
    its parameters. *)
Lemma other_messages_pass_through_witness :
  let t := {| send_rejects := fun _ => None |} in
  let wr := {| onmessage := true; onclose := false; onerror := false |} in
  let m := [("jsonrpc", JStr "2.0"); ("method", JStr "notify");
            ("params", JObj [("ping", JBool true)])] in
  sent_of (originalTransport_onmessage t wr m) = []
  /\ originalTransport_onmessage t wr m = [Delivered m]
  /\ (onmessage wr = true ->
      delivered_of (originalTransport_onmessage t wr m) = [m]).
Proof.
  intros t wr m.
  apply (other_messages_pass_through t wr m). vm_compute. discriminate.
Defined.

End TransportFacts.

(** ** Text *)
Section TextFacts.
Import Text.

Lemma append_cons (c : ascii) (s t : string) : String c s +:+ t = String c (s +:+ t).
Proof. reflexivity. Qed.

Lemma append_nil (t : string) : "" +:+ t = t.
Proof. reflexivity. Qed.

Lemma append_assoc (a b c : string) : (a +:+ b) +:+ c = a +:+ (b +:+ c).
Proof. induction a as [|x a IH]; [done|]. by rewrite !append_cons, IH. Qed.

Lemma nonempty_true (s : string) : nonempty s = true <-> s <> "".
Proof. destruct s; split; intros; done. Qed.

Lemma strip_prefix_append (p s : string) : strip_prefix p (p +:+ s) = Some s.
Proof.
  induction p as [|c p IH]; [done|].
  rewrite append_cons. simpl. by rewrite bool_decide_true.
Qed.

Lemma strip_prefix_Some (p s r : string) :
  strip_prefix p s = Some r -> s = p +:+ r.
Proof.
  revert s. induction p as [|c p IH]; intros s H; simpl in H.
  - by injection H as ->.
  - destruct s as [|d s]; [done|]. case_bool_decide; [|done]. subst d.
    rewrite append_cons. f_equal. by apply IH.
Qed.

Lemma span_until_stop (sep : ascii) (a r : string) :
  all_chars (other_than sep) a = true ->
  span_until sep (a +:+ String sep r) = (a, String sep r).
Proof.
  induction a as [|c a IH]; intros Ha.
  - simpl. by rewrite bool_decide_true.
  - simpl in Ha. apply andb_true_iff in Ha as [Hc Ha].
    rewrite append_cons. simpl. unfold other_than in Hc.
    destruct (bool_decide (c = sep)); [done|]. by rewrite IH.
Qed.

Lemma span_until_end (sep : ascii) (a : string) :
  all_chars (other_than sep) a = true -> span_until sep a = (a, "").
Proof.
  induction a as [|c a IH]; intros Ha; [done|].
  simpl in Ha. apply andb_true_iff in Ha as [Hc Ha]. simpl.
  unfold other_than in Hc. destruct (bool_decide (c = sep)); [done|]. by rewrite IH.
Qed.

Lemma span_until_spec (sep : ascii) (s a b : string) :
  span_until sep s = (a, b) ->
  s = a +:+ b /\ all_chars (other_than sep) a = true
  /\ (b = "" \/ exists r, b = String sep r).
Proof.
  revert a b. induction s as [|c s IH]; intros a b H; simpl in H.
  - injection H as <- <-. auto.
  - case_bool_decide as Hc.
    + injection H as <- <-. subst c. repeat split; eauto.
    + destruct (span_until sep s) as [a' b'] eqn:E. injection H as <- <-.
      destruct (IH a' b' eq_refl) as (-> & Ha & Hb).
      rewrite append_cons. repeat split; [|done].
      simpl. unfold other_than at 1. by rewrite bool_decide_false.
Qed.

(** The regular expression of [parseDataUrl] accepts exactly the strings
    of the form [data:<mime>;base64,<payload>]. *)
Lemma match_data_url_spec (s mime payload : string) :
  match_data_url s = Some (mime, payload) <-> SpecWords.data_uri s mime payload.
Proof.
  unfold match_data_url, SpecWords.data_uri. split.
  - destruct (strip_prefix "data:" s) as [rest|] eqn:E1; [|done].
    apply strip_prefix_Some in E1.
    destruct (span_until ";" rest) as [m after] eqn:E2.
    apply span_until_spec in E2 as (-> & Hm & _).
    destruct (strip_prefix ";base64," after) as [p|] eqn:E3; [|done].
    apply strip_prefix_Some in E3. subst after.
    destruct (nonempty m) eqn:N1; [|done].
    destruct (nonempty p) eqn:N2; [|done]. simpl.
    destruct (one_line p) eqn:A; [|done].
    intros [= <- <-]. subst s.
    repeat split; try done; by apply nonempty_true.
  - intros (-> & Hm & Hp & Hsemi & Hline).
    rewrite strip_prefix_append.
    change (";base64," +:+ payload) with (String ";" ("base64," +:+ payload)).
    rewrite (span_until_stop ";" mime _ Hsemi).
    change (String ";" ("base64," +:+ payload)) with (";base64," +:+ payload).
    rewrite strip_prefix_append.
    apply nonempty_true in Hm, Hp. by rewrite Hm, Hp, Hline.
Qed.

Lemma all_chars_append (p : ascii -> bool) (a b : string) :
  all_chars p (a +:+ b) = all_chars p a && all_chars p b.
Proof.
  induction a as [|c a IH]; [done|].
  rewrite append_cons. simpl. by rewrite IH, andb_assoc.
Qed.

(** The regular expression [/\.[a-zA-Z0-9]+$/] finds a match exactly in
    the names that end in a dot and one or more letters or digits. *)
Lemma has_extension_spec (name : string) :
  has_extension name = true <-> SpecWords.dotted_extension name.
Proof.
  unfold SpecWords.dotted_extension. split.
  - induction name as [|c name IH]; [done|]. simpl.
    intros [H|H]%orb_true_iff.
    + apply andb_true_iff in H as [[Hc Hn]%andb_true_iff Ha].
      apply bool_decide_eq_true in Hc as ->. apply nonempty_true in Hn.
      exists "", name. by rewrite append_nil.
    + destruct (IH H) as (stem & ext & -> & Hne & Ha).
      exists (String c stem), ext. by rewrite append_cons.
  - intros (stem & ext & -> & Hne & Ha).
    induction stem as [|c stem IH].
    + rewrite append_nil. change ("." +:+ ext) with (String "." ext). simpl.
      apply nonempty_true in Hne. by rewrite Hne, Ha.
    + rewrite append_cons. simpl. rewrite IH. apply orb_true_r.
Qed.

Lemma split_on_nonempty (sep : ascii) (s : string) : split_on sep s <> [].
Proof.
  destruct s as [|c s]; [done|]. simpl.
  destruct (bool_decide (c = sep)); [done|]. by destruct (split_on sep s).
Qed.

Lemma split_on_head (sep : ascii) (s : string) :
  head (split_on sep s) = Some (span_until sep s).1.
Proof.
  induction s as [|c s IH]; [done|]. simpl.
  destruct (bool_decide (c = sep)); [done|].
  destruct (span_until sep s) as [a b]. simpl in *.
  destruct (split_on sep s); simpl in *; congruence.
Qed.

(** [mimeType.split('/')[1]] is the subtype portion. *)
Lemma subtype_of_spec (mime : string) : subtype_of mime = SpecWords.subtype_portion mime.
Proof.
  unfold subtype_of, SpecWords.subtype_portion.
  induction mime as [|c mime IH]; [done|]. simpl.
  case_bool_decide as Hc.
  - simpl. pose proof (split_on_head "/" mime) as Hh.
    destruct (split_on "/" mime) as [|w ws]; simpl in *; congruence.
  - destruct (span_until "/" mime) as [a b] eqn:E. simpl in *.
    rewrite <- IH. pose proof (split_on_nonempty "/" mime).
    by destruct (split_on "/" mime).
Qed.

End TextFacts.

(** ** The upload primitive *)
Section UploadFacts.
Import Text SpecWords.

(** No member of [Object.prototype] has a slash in its name: a MIME type
    of the form [type/subtype] is never looked up in the prototype. *)
Lemma slash_not_inherited (mime : string) :
  includes "/" mime = true -> get_prop mime object_prototype_members = None.
Proof.
  intros Hs. unfold object_prototype_members. simpl.
  repeat (case_bool_decide as E; [subst mime; vm_compute in Hs; discriminate|clear E]).
  done.
Qed.

Lemma getExtension_of_string (mime : string) :
  get_prop mime object_prototype_members = None ->
  getExtensionFromMimeType (JStr mime) = Some (derived_extension mime).
Proof.
  intros Hin. unfold getExtensionFromMimeType, mimeToExt_member, derived_extension.
  simpl to_string. cbv beta iota.
  destruct (get_prop mime mimeToExt) as [ext|]; [done|].
  rewrite Hin, subtype_of_spec.
  destruct (subtype_portion mime) as [sub|]; [|done]. by destruct (nonempty sub).
Qed.

Lemma getExtension_total (mime : string) :
  exists ext, getExtensionFromMimeType (JStr mime) = Some ext.
Proof.
  unfold getExtensionFromMimeType. simpl to_string. cbv beta iota.
  destruct (mimeToExt_member mime); [eauto|].
  destruct (subtype_of mime) as [sub|]; [|eauto]. destruct (nonempty sub); eauto.
Qed.

(** A MIME type that names a member of [Object.prototype]: the lookup of
    line 88 finds the member, where the table has no entry and the string
    has no subtype portion. *)
Lemma getExtension_inherited (mime text : string) :
  get_prop mime object_prototype_members = Some text ->
  getExtensionFromMimeType (JStr mime) = Some text
  /\ derived_extension mime = "bin" /\ text <> "bin".
Proof.
  unfold object_prototype_members. simpl.
  repeat (case_bool_decide as E;
          [subst mime; intros [= <-]; by vm_compute|clear E]).
  done.
Qed.

Lemma final_filename_named (candidate : option string) (mime ext : string) :
  getExtensionFromMimeType (JStr mime) = Some ext ->
  exists name, final_filename (JStr <$> candidate) (JStr mime) = Some name
    /\ named_with candidate ext name.
Proof.
  intros Hext. unfold final_filename, named_with. rewrite Hext.
  destruct candidate as [f|]; simpl; [|eauto].
  destruct (nonempty f); [|eauto].
  destruct (has_extension f) eqn:E.
  - exists f. split; [done|]. left. split; [|done]. by apply has_extension_spec.
  - eexists. split; [done|]. right. split; [|done].
    intros Hd. apply has_extension_spec in Hd. congruence.
Qed.

Lemma final_filename_of_strings (candidate : option string) (mime : string) :
  get_prop mime object_prototype_members = None ->
  exists name, final_filename (JStr <$> candidate) (JStr mime) = Some name
    /\ derived_filename candidate mime name.
Proof.
  intros Hin. apply final_filename_named. by apply getExtension_of_string.
Qed.

(** C6. The upload primitive on a valid input (a data URI, or a string
    that is no data URI together with a MIME type that is not empty)
    hands the storage client an object under the key
    [uploads/<the identifier drawn for the call>/<filename>], where the
    file name is the candidate itself when it has a dotted extension, the
    candidate followed by a dot and an extension when it has none, and
    [file.<ext>] when no candidate is given; when the storage accepts the
    object and signs a retrieval URL for that key, asked to expire after
    7 days (604800 seconds), the call returns that URL.  On a string
    that is no data URI, without a MIME type, the call fails with the
    invalid-input error and sends nothing.

    The extension is the one derived from the MIME type (table, else
    subtype portion, else [bin]) for every MIME type except the twelve
    strings that name a member of [Object.prototype]: [mimeToExt] is a
    plain object, the lookup [mimeToExt[mimeType]] of line 88 finds the
    inherited member, and its text becomes the extension where the rule
    gives [bin].  With the raw string [QUJD], the candidate [shot] and
    the MIME type [constructor] the key ends in
    [shot.function Object() { [native code] }], not in [shot.bin]. *)
Theorem upload_key_filename_and_url (st : storage) (call : nat) (data : string)
    (candidate mimeType : option string) :
  (forall mime payload,
      data_uri data mime payload
      \/ ((forall m p, ~ data_uri data m p)
          /\ mimeType = Some mime /\ mime <> "" /\ payload = data) ->
      exists ext name,
        named_with candidate ext name
        /\ (get_prop mime object_prototype_members = None ->
            ext = derived_extension mime /\ derived_filename candidate mime name)
        /\ (forall text,
              get_prop mime object_prototype_members = Some text ->
              ext = text /\ derived_extension mime = "bin" /\ text <> "bin")
        /\ let key := "uploads/" +:+ randomUUID st call +:+ "/" +:+ name in
           let put := {| put_bucket := BUCKET_NAME st; put_key := key;
                         put_body_base64 := payload;
                         put_content_type := JStr mime;
                         put_acl := "public-read" |} in
           let get := {| get_bucket := BUCKET_NAME st; get_key := key |} in
           let run := uploadBase64ToS3 st call data (JStr <$> candidate)
                                       (JStr <$> mimeType) in
           run_put run = Some put
           /\ (send_put st call put = true ->
               run_sign run = Some (get, (7 * 24 * 3600)%Z)
               /\ forall url,
                   getSignedUrl st call get (7 * 24 * 3600)%Z = Some url ->
                   run_result run = Uploaded url))
  /\ ((forall m p, ~ data_uri data m p) ->
      mimeType = None \/ mimeType = Some "" ->
      uploadBase64ToS3 st call data (JStr <$> candidate) (JStr <$> mimeType)
      = {| run_put := None; run_sign := None; run_result := Failed InvalidInput |})
  /\ (run_put (uploadBase64ToS3 st call "QUJD" (Some (JStr "shot"))
                 (Some (JStr "constructor")))
      = Some {| put_bucket := BUCKET_NAME st;
                put_key := "uploads/" +:+ randomUUID st call
                           +:+ "/shot.function Object() { [native code] }";
                put_body_base64 := "QUJD";
                put_content_type := JStr "constructor";
                put_acl := "public-read" |}
      /\ (forall m p, ~ data_uri "QUJD" m p)
      /\ forall name, derived_filename (Some "shot") "constructor" name
                      <-> name = "shot.bin").
Proof.
  split; [|split].
  - intros mime payload Hvalid.
    destruct (getExtension_total mime) as [ext Hext].
    destruct (final_filename_named candidate mime ext Hext) as (name & Hname & Hd).
    exists ext, name. split; [done|]. split; [|split].
    { intros Hin. rewrite (getExtension_of_string _ Hin) in Hext.
      injection Hext as <-. done. }
    { intros text Hin. destruct (getExtension_inherited _ _ Hin) as (Ht & Hbin & Hne).
      rewrite Ht in Hext. injection Hext as <-. done. }
    cbv zeta.
    assert (match parseDataUrl data with
            | Some p => Some p
            | None => match JStr <$> mimeType with
                      | Some m => if truthy m then Some (data, m) else None
                      | None => None
                      end
            end = Some (payload, JStr mime)) as Hparsed.
    { unfold parseDataUrl. destruct Hvalid as [Huri|(Hno & -> & Hne & ->)].
      - apply match_data_url_spec in Huri. by rewrite Huri.
      - destruct (match_data_url data) as [[m p]|] eqn:E.
        + apply match_data_url_spec in E. by destruct (Hno m p).
        + simpl. apply nonempty_true in Hne. by rewrite Hne. }
    unfold uploadBase64ToS3. rewrite Hparsed, Hname.
    change EXPIRES_IN with (7 * 24 * 3600)%Z.
    destruct (send_put st call _) eqn:Hput; simpl.
    + destruct (getSignedUrl st call _ _) eqn:Hsign; simpl.
      * split; [done|]. intros _. split; [done|]. by intros url [= ->].
      * split; [done|]. intros _. split; [done|]. by intros url [=].
    + split; [done|]. by intros [=].
  - intros Hno Hmime. unfold uploadBase64ToS3, parseDataUrl.
    destruct (match_data_url data) as [[m p]|] eqn:E.
    + apply match_data_url_spec in E. by destruct (Hno m p).
    + by destruct Hmime as [-> | ->].
  - split; [|split].
    + unfold uploadBase64ToS3. simpl.
      by destruct (send_put st call _); [destruct (getSignedUrl st call _ _)|].
    + intros m p H. apply match_data_url_spec in H. by vm_compute in H.
    + intros name. unfold derived_filename, named_with. simpl nonempty. cbv iota.
      change (derived_extension "constructor") with "bin"%string.
      split; [|intros ->; right; split; [|done]].
      * intros [[Hd _]|[_ ->]]; [|done]. apply has_extension_spec in Hd.
        by vm_compute in Hd.
      * intros Hd. apply has_extension_spec in Hd. by vm_compute in Hd.
Qed.

(** Scenarios A and B of the specification, the rejected input of the
    test suite, and a MIME type that names an inherited member. *)
Lemma upload_key_filename_and_url_witness :
  (exists name,
      derived_filename (Some "shot.png") "image/png" name
      /\ let key := "uploads/test-uuid-1234/" +:+ name in
         let run := uploadBase64ToS3 Fixtures.test_storage 0
                      "data:image/png;base64,iVBORw0KGgo=" (Some (JStr "shot.png")) None in
         run_put run = Some {| put_bucket := "test-bucket"; put_key := key;
                               put_body_base64 := "iVBORw0KGgo=";
                               put_content_type := JStr "image/png";
                               put_acl := "public-read" |}
         /\ run_result run = Uploaded "https://test-presigned-url.com")
  /\ (exists name,
      derived_filename None "application/pdf" name
      /\ run_put (uploadBase64ToS3 Fixtures.test_storage 1 "JVBERi0" None
                    (Some (JStr "application/pdf")))
         = Some {| put_bucket := "test-bucket";
                   put_key := "uploads/test-uuid-1234/" +:+ name;
                   put_body_base64 := "JVBERi0";
                   put_content_type := JStr "application/pdf";
                   put_acl := "public-read" |})
  /\ uploadBase64ToS3 Fixtures.test_storage 2 "not-a-valid-base64-or-data-url" None None
     = {| run_put := None; run_sign := None; run_result := Failed InvalidInput |}
  /\ (exists ext name,
      named_with (Some "shot") ext name
      /\ ext = "function Object() { [native code] }"%string
      /\ derived_extension "constructor" = "bin"%string
      /\ run_put (uploadBase64ToS3 Fixtures.test_storage 3 "QUJD" (Some (JStr "shot"))
                    (Some (JStr "constructor")))
         = Some {| put_bucket := "test-bucket";
                   put_key := "uploads/test-uuid-1234/" +:+ name;
                   put_body_base64 := "QUJD";
                   put_content_type := JStr "constructor";
                   put_acl := "public-read" |})
  /\ run_put (uploadBase64ToS3 Fixtures.test_storage 3 "QUJD" (Some (JStr "shot"))
                (Some (JStr "constructor")))
     = Some {| put_bucket := "test-bucket";
               put_key := "uploads/test-uuid-1234/shot.function Object() { [native code] }";
               put_body_base64 := "QUJD";
               put_content_type := JStr "constructor";
               put_acl := "public-read" |}.
Proof.
  assert (forall s, match_data_url s = None -> forall m p, ~ data_uri s m p) as Hno.
  { intros s E m p H. apply match_data_url_spec in H. congruence. }
  split; [|split; [|split; [|split]]].
  - destruct (upload_key_filename_and_url Fixtures.test_storage 0
                "data:image/png;base64,iVBORw0KGgo=" (Some "shot.png") None) as [H _].
    destruct (H "image/png" "iVBORw0KGgo=") as (ext & name & _ & Hd & _ & Hput & Hrest).
    { left. by apply match_data_url_spec. }
    exists name. split; [by apply Hd|]. split; [exact Hput|].
    destruct (Hrest eq_refl) as [_ Hurl]. by apply Hurl.
  - destruct (upload_key_filename_and_url Fixtures.test_storage 1
                "JVBERi0" None (Some "application/pdf")) as [H _].
    destruct (H "application/pdf" "JVBERi0") as (ext & name & _ & Hd & _ & Hput & _).
    { right. split; [by apply Hno|done]. }
    exists name. split; [by apply Hd|]. exact Hput.
  - destruct (upload_key_filename_and_url Fixtures.test_storage 2
                "not-a-valid-base64-or-data-url" None None) as (_ & H & _).
    apply H; [by apply Hno|by left].
  - destruct (upload_key_filename_and_url Fixtures.test_storage 3
                "QUJD" (Some "shot") (Some "constructor")) as [H _].
    destruct (H "constructor" "QUJD") as (ext & name & Hn & _ & Hin & Hput & _).
    { right. split; [by apply Hno|done]. }
    destruct (Hin "function Object() { [native code] }"%string eq_refl)
      as (-> & Hbin & _).
    exists "function Object() { [native code] }"%string, name. split; [exact Hn|]. split; [done|]. split; [exact Hbin|]. exact Hput.
  - destruct (upload_key_filename_and_url Fixtures.test_storage 3
                "QUJD" (Some "shot") (Some "constructor")) as (_ & _ & H & _).
    exact H.
Defined.

End UploadFacts.

(** ** The raw-base64 test *)
Section HeuristicFacts.
Import Text SpecWords.

Lemma pad_not_base64_char (c : ascii) : is_pad c = true -> is_base64_char c = false.
Proof. unfold is_pad. intros ->%bool_decide_eq_true. reflexivity. Qed.

Lemma base64_rest_split (s : string) :
  base64_rest s = true ->
  exists body pad, s = body +:+ pad
    /\ all_chars is_base64_char body = true /\ all_chars is_pad pad = true.
Proof.
  induction s as [|c s IH]; intros H.
  - by exists "", "".
  - simpl in H. destruct (is_base64_char c) eqn:Ec.
    + destruct (IH H) as (body & pad & -> & Hb & Hp).
      exists (String c body), pad. repeat split; [|done]. simpl. by rewrite Ec.
    + by exists "", (String c s).
Qed.

Lemma base64_rest_pad (pad : string) : all_chars is_pad pad = true -> base64_rest pad = true.
Proof.
  destruct pad as [|c p]; [done|]. intros H. simpl.
  pose proof H as H'. simpl in H'. apply andb_true_iff in H' as [Hc _].
  by rewrite (pad_not_base64_char _ Hc).
Qed.

Lemma base64_rest_append (body pad : string) :
  all_chars is_base64_char body = true -> all_chars is_pad pad = true ->
  base64_rest (body +:+ pad) = true.
Proof.
  induction body as [|c body IH]; intros Hb Hp.
  - by apply base64_rest_pad.
  - simpl in Hb. apply andb_true_iff in Hb as [Hc Hb].
    rewrite append_cons. simpl. rewrite Hc. by apply IH.
Qed.

(** The regular expression [/^[A-Za-z0-9+/]+=*$/] accepts exactly: one or
    more characters of the class, then nothing but [=] signs. *)
Lemma matches_base64_spec (s : string) :
  matches_base64 s = true <->
  exists body pad, s = body +:+ pad /\ body <> ""
    /\ all_chars is_base64_char body = true /\ all_chars is_pad pad = true.
Proof.
  split.
  - destruct s as [|c s]; [done|]. simpl. intros [Hc Hr]%andb_true_iff.
    destruct (base64_rest_split s Hr) as (body & pad & -> & Hb & Hp).
    exists (String c body), pad. repeat split; [done| |done]. simpl. by rewrite Hc.
  - intros (body & pad & -> & Hne & Hb & Hp).
    destruct body as [|c body]; [done|]. simpl in Hb.
    apply andb_true_iff in Hb as [Hc Hb].
    rewrite append_cons. simpl. rewrite Hc. by apply base64_rest_append.
Qed.

Lemma looks_like_base64_nonempty (s : string) :
  looks_like_base64 s = true -> nonempty s = true.
Proof. by destruct s. Qed.

Lemma not_data_prefix_not_data_url (s : string) :
  starts_with "data:" s = false -> is_data_url_string s = false.
Proof. unfold is_data_url_string. by intros ->. Qed.

(** C7, as the specification words it, fails: the string [QUJD=QUJD] does
    not begin with [data:], each of its characters is of the alphabet
    [A-Z a-z 0-9 + / =], and a MIME-type hint is in scope (the sibling
    [mimeType] of the [data] field), yet the walk leaves it as it is and
    calls no upload, whatever the storage. *)
Lemma alphabet_reading_counterexample :
  starts_with "data:" "QUJD=QUJD" = false
  /\ alphabet_only "QUJD=QUJD" = true
  /\ truthy_opt (currentMimeType
                   [("data", JStr "QUJD=QUJD"); ("mimeType", JStr "image/png")]
                   "data" None) = true
  /\ (forall st w,
        processToolCallForBase64 st (JStr "tool")
          (JObj [("data", JStr "QUJD=QUJD"); ("mimeType", JStr "image/png")]) w
        = ((JStr "tool",
            JObj [("data", JStr "QUJD=QUJD"); ("mimeType", JStr "image/png")]), w)).
Proof. repeat split. Qed.

(** C7, amended.  A string that does not begin with [data:] is treated
    as raw base64, and its upload attempted with the MIME type at hand,
    exactly when its first 100 characters are one or more characters of
    [A-Z a-z 0-9 + /] followed by nothing but [=] signs, and, in the
    recursive walk, a truthy MIME-type hint is in scope; the scans of
    tool results and message lists apply the same test to the [data]
    (or [image]) string of an image or file part that is not empty, and
    need no hint: they pass the [mimeType] of the part or the default of
    its kind.  A string that fails the test is left as it is and no
    upload is called for it. *)
Theorem raw_base64_decision :
  (forall s, looks_like_base64 s = true <->
     exists body pad, take_chars 100 s = body +:+ pad /\ body <> ""
       /\ all_chars is_base64_char body = true /\ all_chars is_pad pad = true)
  /\ (forall st s filename hint w,
        starts_with "data:" s = false ->
        replaceBase64InObject st (JStr s) filename hint w =
          if truthy_opt hint && looks_like_base64 s
          then upload_or_keep st s filename hint w
          else (JStr s, w))
  /\ (forall st fallback item kind s w,
        part_kind_of item = Some kind ->
        prop item "data" = Some (JStr s) ->
        starts_with "data:" s = false ->
        tool_item_upload st fallback item w =
          if looks_like_base64 s
          then let run := uploadBase64ToS3 st (length w) s
                 (js_or (js_or (prop item "filename") fallback)
                        (Some (JStr (default_tool_filename kind))))
                 (js_or (prop item "mimeType") (Some (JStr (default_tool_mime kind)))) in
               (Some run, w ++ [run])
          else (None, w))
  /\ (forall st part s w,
        part_kind_of part = Some ImagePart ->
        js_or (prop part "image") (prop part "data") = Some (JStr s) ->
        starts_with "data:" s = false ->
        image_part_upload st part w =
          if looks_like_base64 s
          then let run := uploadBase64ToS3 st (length w) s
                 (js_or (prop part "filename") (Some (JStr "image")))
                 (js_or (prop part "mimeType") (Some (JStr "image/jpeg"))) in
               (Some run, w ++ [run])
          else (None, w))
  /\ (forall st part s w,
        part_kind_of part = Some FilePart ->
        prop part "data" = Some (JStr s) ->
        starts_with "data:" s = false ->
        file_part_upload st part w =
          if looks_like_base64 s
          then let run := uploadBase64ToS3 st (length w) s
                 (js_or (js_or (prop part "filename") (prop part "name"))
                        (Some (JStr "file")))
                 (js_or (js_or (prop part "mimeType") (prop part "mediaType"))
                        (Some (JStr "application/octet-stream"))) in
               (Some run, w ++ [run])
          else (None, w)).
Proof.
  split; [|split; [|split; [|split]]].
  - intros s. apply matches_base64_spec.
  - intros st s filename hint w Hs. simpl.
    by rewrite (not_data_prefix_not_data_url _ Hs).
  - intros st fallback item kind s w Hk Hd Hs.
    unfold tool_item_upload, isBase64, isDataUrl. rewrite Hk, Hd. cbn [as_string]. rewrite Hs. simpl.
    destruct (looks_like_base64 s) eqn:E; [|by rewrite andb_false_r].
    by rewrite (looks_like_base64_nonempty _ E).
  - intros st part s w Hk Hd Hs.
    unfold image_part_upload, isBase64, isDataUrl. rewrite Hk, Hd. cbn [as_string]. rewrite Hs. simpl.
    destruct (looks_like_base64 s) eqn:E; [|by rewrite andb_false_r].
    by rewrite (looks_like_base64_nonempty _ E).
  - intros st part s w Hk Hd Hs.
    unfold file_part_upload, isBase64, isDataUrl. rewrite Hk, Hd. cbn [as_string]. rewrite Hs. simpl.
    destruct (looks_like_base64 s) eqn:E; [|by rewrite andb_false_r].
    by rewrite (looks_like_base64_nonempty _ E).
Qed.

End HeuristicFacts.

(** ** Objects and trees *)
Section ValueFacts.

Lemma json_nested_ind (P : json -> Prop) :
  P JNull -> (forall b, P (JBool b)) -> (forall n, P (JNum n)) -> (forall s, P (JStr s)) ->
  (forall items, Forall P items -> P (JArr items)) ->
  (forall fs, Forall (fun p => P p.2) fs -> P (JObj fs)) ->
  forall v, P v.
Proof.
  intros Hnull Hbool Hnum Hstr Harr Hobj.
  fix IH 1. intros [|b|n|s|items|fs].
  - exact Hnull.
  - exact (Hbool b).
  - exact (Hnum n).
  - exact (Hstr s).
  - apply Harr. induction items as [|x items IHl]; constructor; [apply IH|exact IHl].
  - apply Hobj. induction fs as [|[k x] fs IHl]; constructor; [apply IH|exact IHl].
Qed.

(** On a JSON tree the round trip through [JSON.stringify] and
    [JSON.parse] gives back an equal tree. *)
Lemma json_clone_id (v : json) : json_clone v = v.
Proof.
  induction v as [| | | |items IH|fs IH] using json_nested_ind; try done; simpl; f_equal.
  - induction IH as [|x items Hx _ IHl]; [done|]. simpl. by rewrite Hx, IHl.
  - induction IH as [|[k x] fs Hx _ IHl]; [done|]. simpl in *. by rewrite Hx, IHl.
Qed.

Lemma map_json_clone (l : list json) : map json_clone l = l.
Proof. induction l as [|x l IH]; [done|]. simpl. by rewrite json_clone_id, IH. Qed.

Context {V : Type}.
Implicit Types (fs : props V) (k : string) (v : V).

Lemma get_set_prop_eq k v fs : get_prop k (set_prop k v fs) = Some v.
Proof.
  induction fs as [|[k' v'] fs IH]; simpl.
  - by rewrite bool_decide_true.
  - case_bool_decide; simpl.
    + by rewrite bool_decide_true.
    + by rewrite bool_decide_false.
Qed.

Lemma get_set_prop_ne k k' v fs : k <> k' -> get_prop k' (set_prop k v fs) = get_prop k' fs.
Proof.
  intros Hne. induction fs as [|[k0 v0] fs IH]; simpl.
  - by rewrite bool_decide_false.
  - case_bool_decide as E; simpl.
    + subst k0. by rewrite !bool_decide_false.
    + by rewrite IH.
Qed.

Lemma get_delete_prop_eq k fs : get_prop k (delete_prop k fs) = None.
Proof.
  induction fs as [|[k' v'] fs IH]; [done|]. simpl.
  case_bool_decide; [done|]. simpl. by rewrite bool_decide_false.
Qed.

Lemma get_delete_prop_ne k k' fs : k <> k' -> get_prop k' (delete_prop k fs) = get_prop k' fs.
Proof.
  intros Hne. induction fs as [|[k0 v0] fs IH]; [done|]. simpl.
  case_bool_decide as E; simpl.
  - subst k0. by rewrite bool_decide_false.
  - by rewrite IH.
Qed.

Lemma set_set_prop k v v' fs : set_prop k v' (set_prop k v fs) = set_prop k v' fs.
Proof.
  induction fs as [|[k0 v0] fs IH]; simpl.
  - by rewrite bool_decide_true.
  - case_bool_decide; simpl.
    + by rewrite bool_decide_true.
    + rewrite bool_decide_false by done. by rewrite IH.
Qed.

Lemma set_prop_same k v fs : get_prop k fs = Some v -> set_prop k v fs = fs.
Proof.
  induction fs as [|[k0 v0] fs IH]; [done|]. simpl.
  case_bool_decide as E.
  - intros [= ->]. by subst.
  - intros Hget. by rewrite IH.
Qed.

End ValueFacts.

(** ** Batches *)
Section BatchFacts.
Context {A : Type}.
Implicit Types (l : list A).

(** With a batch size that is not zero the loop of [batchPromises] ends;
    its batches are consecutive slices of the promises, none empty, none
    longer than the batch size, and together they are all the promises
    from index [i] on, in order. *)
Lemma batch_loop_spec l (batchSize : nat) :
  0 < batchSize ->
  forall fuel i, length l - i <= fuel ->
  exists batches, batch_loop fuel l batchSize i = Some batches
    /\ concat batches = drop i l
    /\ Forall (fun b => 0 < length b <= batchSize) batches.
Proof.
  intros Hpos. induction fuel as [|fuel IH]; intros i Hfuel.
  - exists []. simpl. destruct (Nat.ltb_spec i (length l)); [lia|].
    by rewrite drop_ge by lia.
  - simpl. destruct (Nat.ltb_spec i (length l)) as [Hlt|Hge].
    + destruct (IH (i + batchSize)) as (rest & -> & Hcat & Hall); [lia|].
      eexists. split; [done|]. unfold slice. split.
      * simpl. rewrite Hcat.
        replace (i + batchSize - i) with batchSize by lia.
        rewrite <- drop_drop. apply take_drop.
      * constructor; [|done].
        rewrite length_take, length_drop. lia.
    + exists []. by rewrite drop_ge by lia.
Qed.

Lemma batchPromises_all l (batchSize : nat) :
  0 < batchSize -> batchPromises l batchSize = Some l.
Proof.
  intros Hpos. unfold batchPromises, batches_of.
  destruct (batch_loop_spec l batchSize Hpos (length l) 0) as (bs & -> & Hcat & _); [lia|].
  by rewrite Hcat.
Qed.

(** Awaiting the upload promises gets past every one of them. *)
Lemma await_uploads_all l : await_uploads l = Some l.
Proof.
  unfold await_uploads. destruct l as [|x l]; [done|].
  apply batchPromises_all. unfold MAX_CONCURRENT_UPLOADS. lia.
Qed.

End BatchFacts.

(** ** The scans and their continuations *)
Section ScanFacts.
Context (st : storage).

(** The history only grows: a turn of a scan appends the call it begins. *)
Lemma tool_item_upload_extends (filename : option json) (item : json) (w : world) :
  w `prefix_of` (tool_item_upload st filename item w).2.
Proof.
  unfold tool_item_upload, upload.
  destruct (part_kind_of item); [|done].
  destruct (as_string _); [|done].
  destruct (_ && _); [|done]. simpl. by apply prefix_app_r.
Qed.

Lemma image_part_upload_extends (part : json) (w : world) :
  w `prefix_of` (image_part_upload st part w).2.
Proof.
  unfold image_part_upload, upload.
  destruct (part_kind_of part) as [[|]|]; try done.
  destruct (as_string _); [|done].
  destruct (_ && _); [|done]. simpl. by apply prefix_app_r.
Qed.

Lemma file_part_upload_extends (part : json) (w : world) :
  w `prefix_of` (file_part_upload st part w).2.
Proof.
  unfold file_part_upload, upload.
  destruct (part_kind_of part) as [[|]|]; try done.
  destruct (as_string _); [|done].
  destruct (_ && _); [|done]. simpl. by apply prefix_app_r.
Qed.

Lemma scan_tool_content_extends (filename : option json) (content : list json) :
  forall i (w : world), w `prefix_of` (scan_tool_content st filename i content w).2.
Proof.
  induction content as [|item rest IH]; intros i w; simpl; [done|].
  destruct (is_null item); [done|].
  pose proof (tool_item_upload_extends filename item w) as H1.
  destruct (tool_item_upload st filename item w) as [r w1].
  pose proof (IH (S i) w1) as H2.
  destruct (scan_tool_content st filename (S i) rest w1) as [more w2].
  simpl in *. by etrans.
Qed.

Lemma scan_parts_extends (parts : list json) :
  forall i j (w : world), w `prefix_of` (scan_parts st i j parts w).2.
Proof.
  induction parts as [|part rest IH]; intros i j w; simpl; [done|].
  destruct (is_null part); [done|].
  pose proof (image_part_upload_extends part w) as H1.
  destruct (image_part_upload st part w) as [r1 w1].
  pose proof (file_part_upload_extends part w1) as H2.
  destruct (file_part_upload st part w1) as [r2 w2].
  pose proof (IH i (S j) w2) as H3.
  destruct (scan_parts st i (S j) rest w2) as [more w3].
  simpl in *. etrans; [done|]. by etrans.
Qed.

Lemma scan_messages_extends (messages : list json) :
  forall i (w : world), w `prefix_of` (scan_messages st i messages w).2.
Proof.
  induction messages as [|message rest IH]; intros i w; [done|].
  destruct (scan_messages st i (message :: rest) w) as [r w'] eqn:Hscan.
  simpl in Hscan |- *.
  destruct (is_null message); [by injection Hscan as <- <-|].
  assert (w `prefix_of`
            (match prop message "content" with
             | Some (JArr parts) => scan_parts st i 0 parts w
             | _ => (Some [], w)
             end).2) as H1.
  { destruct (prop message "content") as [[| | | |parts|]|]; try done.
    apply scan_parts_extends. }
  destruct (match prop message "content" with
            | Some (JArr parts) => scan_parts st i 0 parts w
            | _ => (Some [], w)
            end) as [[pushed|] w1]; [|by injection Hscan as <- <-].
  pose proof (IH (S i) w1) as H2.
  destruct (scan_messages st (S i) rest w1) as [more w2].
  injection Hscan as <- <-. simpl in *. by etrans.
Qed.

(** An outcome relative to a history holds relative to any earlier one. *)
Lemma tool_item_outcome_earlier (filename : option json) (w0 w w' : world)
    (item item' : json) :
  w0 `prefix_of` w ->
  tool_item_outcome st filename w w' item item' ->
  tool_item_outcome st filename w0 w' item item'.
Proof.
  intros Hpre (wj & Hw & Hafter & ->). exists wj.
  split; [by etrans|]. by split.
Qed.

Lemma message_part_outcome_earlier (w0 w w' : world) (part part' : json) :
  w0 `prefix_of` w ->
  message_part_outcome st w w' part part' ->
  message_part_outcome st w0 w' part part'.
Proof.
  intros Hpre (wj & Hw & Hafter & ->). exists wj.
  split; [by etrans|]. by split.
Qed.

Lemma message_part_outcome_later (w w1 w' : world) (part part' : json) :
  w1 `prefix_of` w' ->
  message_part_outcome st w w1 part part' ->
  message_part_outcome st w w' part part'.
Proof.
  intros Hpre (wj & Hw & Hafter & ->). exists wj.
  split; [done|]. split; [by etrans|done].
Qed.

Lemma message_outcome_earlier (w0 w w' : world) (message message' : json) :
  w0 `prefix_of` w ->
  message_outcome st w w' message message' ->
  message_outcome st w0 w' message message'.
Proof.
  intros Hpre. unfold message_outcome.
  destruct message as [| | | | |fs]; try done.
  destruct (get_prop "content" fs) as [[| | | |parts|]|]; try done.
  intros (parts' & -> & Hall). exists parts'. split; [done|].
  eapply Forall2_impl; [exact Hall|].
  intros ??. by apply (message_part_outcome_earlier w0 w w').
Qed.

Lemma scan_tool_content_total (filename : option json) (content : list json) :
  Forall (fun item => is_null item = false) content ->
  forall i w, exists ps w', scan_tool_content st filename i content w = (Some ps, w').
Proof.
  induction 1 as [|item rest Hitem _ IH]; intros i w; simpl; [eauto|].
  rewrite Hitem. destruct (tool_item_upload st filename item w) as [r w1].
  destruct (IH (S i) w1) as (ps & w' & ->). simpl. eauto.
Qed.

(** The continuations of the promises of a scan, run on the content
    sequence, change each item on its own. *)
Lemma scan_tool_content_settle (filename : option json) (content : list json) :
  forall pre w ps w',
  scan_tool_content st filename (length pre) content w = (Some ps, w') ->
  exists content',
    foldl settle_tool_promise (pre ++ content) ps = pre ++ content'
    /\ Forall2 (tool_item_outcome st filename w w') content content'.
Proof.
  induction content as [|item rest IH]; intros pre w ps w' Hscan; simpl in Hscan.
  - injection Hscan as <- <-. exists []. by split.
  - destruct (is_null item); [done|].
    pose proof (tool_item_upload_extends filename item w) as Hext.
    destruct (tool_item_upload st filename item w) as [r w1] eqn:Hup.
    pose proof (scan_tool_content_extends filename rest (S (length pre)) w1) as Hext'.
    destruct (scan_tool_content st filename (S (length pre)) rest w1)
      as [[more|] w2] eqn:Hrest; [|done].
    injection Hscan as <- <-.
    set (item' := settled_tool_item r item).
    assert (foldl settle_tool_promise (pre ++ item :: rest)
              (match r with
               | Some run => [{| tp_index := length pre; tp_run := run |}]
               | None => []
               end) = (pre ++ [item']) ++ rest) as Hhere.
    { rewrite <- app_assoc. subst item'. destruct r as [run|]; [|done]. simpl.
      unfold settle_tool_promise, settled_tool_item, after_upload. simpl.
      destruct (run_result run); [|done].
      replace (length pre) with (length pre + 0) by lia. by rewrite alter_app_r. }
    rewrite foldl_app, Hhere.
    destruct (IH (pre ++ [item']) w1 more w2) as (content' & -> & Hall).
    { rewrite length_app. simpl. by rewrite Nat.add_1_r. }
    simpl in Hext, Hext'.
    exists (item' :: content'). rewrite <- app_assoc. split; [done|].
    constructor.
    + exists w. by rewrite Hup.
    + eapply Forall2_impl; [exact Hall|].
      intros ??. by apply (tool_item_outcome_earlier filename w w1 w2).
Qed.

Lemma alter_part_at (f : json -> json) (pre rest : list json) (mfs : props json)
    (pp rp : list json) (part : json) :
  get_prop "content" mfs = Some (JArr (pp ++ part :: rp)) ->
  alter_part f (length pre) (length pp) (pre ++ JObj mfs :: rest)
  = pre ++ JObj (set_prop "content" (JArr (pp ++ f part :: rp)) mfs) :: rest.
Proof.
  intros Hc. unfold alter_part.
  replace (length pre) with (length pre + 0) by lia. rewrite alter_app_r. simpl.
  rewrite Hc. replace (length pp) with (length pp + 0) by lia.
  by rewrite alter_app_r.
Qed.

Lemma settle_pushed (kind : part_kind) (r : option upload_run)
    (pre rest : list json) (mfs : props json) (pp rp : list json) (part : json) :
  get_prop "content" mfs = Some (JArr (pp ++ part :: rp)) ->
  foldl settle_message_promise (pre ++ JObj mfs :: rest)
        (pushed_promise (length pre) (length pp) kind r)
  = pre ++ JObj (set_prop "content"
                   (JArr (pp ++ settled_message_part kind r part :: rp)) mfs) :: rest.
Proof.
  intros Hc. unfold settled_message_part, after_upload.
  destruct r as [run|]; simpl.
  - unfold settle_message_promise. simpl. destruct (run_result run).
    + by apply alter_part_at.
    + by rewrite (set_prop_same _ _ _ Hc).
  - by rewrite (set_prop_same _ _ _ Hc).
Qed.

Lemma scan_parts_settle (parts : list json) :
  forall pp mfs pre rest w ps w',
  get_prop "content" mfs = Some (JArr (pp ++ parts)) ->
  scan_parts st (length pre) (length pp) parts w = (Some ps, w') ->
  exists parts',
    foldl settle_message_promise (pre ++ JObj mfs :: rest) ps
    = pre ++ JObj (set_prop "content" (JArr (pp ++ parts')) mfs) :: rest
    /\ Forall2 (message_part_outcome st w w') parts parts'.
Proof.
  induction parts as [|part rp IH]; intros pp mfs pre rest w ps w' Hc Hscan;
    simpl in Hscan.
  - injection Hscan as <- <-. exists []. split; [|done]. simpl.
    by rewrite (set_prop_same _ _ _ Hc).
  - destruct (is_null part); [done|].
    pose proof (image_part_upload_extends part w) as Hext1.
    destruct (image_part_upload st part w) as [r1 w1] eqn:H1.
    pose proof (file_part_upload_extends part w1) as Hext2.
    destruct (file_part_upload st part w1) as [r2 w2] eqn:H2.
    pose proof (scan_parts_extends rp (length pre) (S (length pp)) w2) as Hext3.
    destruct (scan_parts st (length pre) (S (length pp)) rp w2)
      as [[more|] w3] eqn:Hrest; [|done].
    simpl in Hext1, Hext2, Hext3.
    injection Hscan as <- <-.
    set (part1 := settled_message_part ImagePart r1 part).
    set (part2 := settled_message_part FilePart r2 part1).
    rewrite !foldl_app.
    rewrite (settle_pushed ImagePart r1 pre rest mfs pp rp part Hc).
    fold part1.
    rewrite (settle_pushed FilePart r2 pre rest _ pp rp part1)
      by apply get_set_prop_eq.
    fold part2. rewrite set_set_prop.
    destruct (IH (pp ++ [part2])
                 (set_prop "content" (JArr (pp ++ part2 :: rp)) mfs)
                 pre rest w2 more w3) as (parts' & -> & Hall).
    { rewrite get_set_prop_eq. by rewrite <- app_assoc. }
    { rewrite length_app. simpl. by rewrite Nat.add_1_r. }
    exists (part2 :: parts'). rewrite set_set_prop, <- app_assoc. split; [done|].
    constructor.
    + exists w. rewrite H1. simpl. by rewrite H2.
    + eapply Forall2_impl; [exact Hall|].
      intros ??. apply (message_part_outcome_earlier w w2 w3). by etrans.
Qed.

Lemma scan_parts_total (parts : list json) :
  no_null parts ->
  forall i j w, exists ps w', scan_parts st i j parts w = (Some ps, w').
Proof.
  induction 1 as [|part rest Hpart _ IH]; intros i j w; simpl; [eauto|].
  rewrite Hpart. destruct (image_part_upload st part w) as [r1 w1].
  destruct (file_part_upload st part w1) as [r2 w2].
  destruct (IH i (S j) w2) as (ps & w' & ->). simpl. eauto.
Qed.

Lemma scan_messages_total (messages : list json) :
  Forall message_without_null messages ->
  forall i w, exists ps w', scan_messages st i messages w = (Some ps, w').
Proof.
  induction 1 as [|message rest [Hm Hparts] _ IH]; intros i w; simpl; [eauto|].
  rewrite Hm.
  assert (exists pushed w1,
             match prop message "content" with
             | Some (JArr parts) => scan_parts st i 0 parts w
             | _ => (Some [], w)
             end = (Some pushed, w1)) as (pushed & w1 & ->).
  { destruct (prop message "content") as [[| | | |parts|]|]; eauto.
    by apply scan_parts_total. }
  destruct (IH (S i) w1) as (ps & w' & ->). simpl. eauto.
Qed.

(** The continuations of the promises of a message scan change each part
    on its own and nothing else. *)
Lemma scan_messages_settle (messages : list json) :
  forall pre w ps w',
  scan_messages st (length pre) messages w = (Some ps, w') ->
  exists messages',
    foldl settle_message_promise (pre ++ messages) ps = pre ++ messages'
    /\ Forall2 (message_outcome st w w') messages messages'.
Proof.
  induction messages as [|message rest IH]; intros pre w ps w' Hscan; simpl in Hscan.
  - injection Hscan as <- <-. exists []. by split.
  - destruct (is_null message) eqn:Hm; [done|].
    pose proof (scan_messages_extends [message] (length pre) w) as Hext.
    simpl in Hext. rewrite Hm in Hext. clear Hm.
    destruct (match prop message "content" with
              | Some (JArr parts) => scan_parts st (length pre) 0 parts w
              | _ => (Some [], w)
              end) as [[pushed|] w1] eqn:Hhere; [|done].
    simpl in Hext.
    pose proof (scan_messages_extends rest (S (length pre)) w1) as Hext'.
    destruct (scan_messages st (S (length pre)) rest w1) as [[more|] w2] eqn:Hrest;
      [|done].
    simpl in Hext'.
    injection Hscan as <- <-. rewrite foldl_app.
    assert (exists message',
               foldl settle_message_promise (pre ++ message :: rest) pushed
               = (pre ++ [message']) ++ rest
               /\ message_outcome st w w2 message message') as (message' & -> & Hout).
    { unfold message_outcome, prop in *.
      destruct message as [| | | |items|mfs];
        try (injection Hhere as <- <-; eexists; by rewrite <- app_assoc).
      destruct (get_prop "content" mfs) as [[| | | |parts|]|] eqn:Hc;
        try (injection Hhere as <- <-; eexists; by rewrite <- app_assoc).
      destruct (scan_parts_settle parts [] mfs pre rest w pushed w1 Hc Hhere)
        as (parts' & -> & Hall).
      eexists. rewrite <- app_assoc. split; [done|]. exists parts'.
      split; [done|]. eapply Forall2_impl; [exact Hall|].
      intros ??. by apply (message_part_outcome_later w w1 w2). }
    destruct (IH (pre ++ [message']) w1 more w2) as (messages' & -> & Hall).
    { rewrite length_app. simpl. by rewrite Nat.add_1_r. }
    exists (message' :: messages'). rewrite <- app_assoc. split; [done|].
    constructor; [done|]. eapply Forall2_impl; [exact Hall|].
    intros ??. by apply (message_outcome_earlier w w1 w2).
Qed.

End ScanFacts.

(** ** The loops of the walk *)
Section WalkLoopFacts.
Import Walk.
Context (st : storage).

(** The walk of an array is the loop over its elements. *)
Lemma walk_array (items : list json) (filename mimeType : option json) (w : world) :
  replaceBase64InObject st (JArr items) filename mimeType w
  = let '(items', w') := walk_each st filename mimeType items w in (JArr items', w').
Proof.
  set (rhs := let '(items', w') := walk_each st filename mimeType items w in
              (JArr items', w')).
  simpl.
  lazymatch goal with
  | |- context [?each items w] =>
      assert (forall l w0, each l w0 = walk_each st filename mimeType l w0) as Heach
  end.
  { induction l as [|item r IH]; intros w0; [done|]. simpl.
    destruct (replaceBase64InObject st item filename mimeType w0) as [item' w1].
    by rewrite IH. }
  by rewrite Heach.
Qed.

(** The walk of an object is the loop over its properties. *)
Lemma walk_object (fs : props json) (filename mimeType : option json) (w : world) :
  replaceBase64InObject st (JObj fs) filename mimeType w
  = let '(result, w') := walk_entries st fs filename mimeType fs [] w in
    (JObj result, w').
Proof.
  set (rhs := let '(result, w') := walk_entries st fs filename mimeType fs [] w in
              (JObj result, w')).
  simpl.
  lazymatch goal with
  | |- context [?entries fs [] w] =>
      assert (forall l result w0,
                entries l result w0 = walk_entries st fs filename mimeType l result w0)
        as Hentries
  end.
  { induction l as [|[key value] r IH]; intros result w0; [done|]. simpl.
    destruct (replaceBase64InObject st value filename _ w0) as [value' w1].
    by rewrite IH. }
  by rewrite Hentries.
Qed.

Lemma set_prop_fresh {V} (k : string) (v : V) (fs : props V) :
  k ∉ keys fs -> set_prop k v fs = fs ++ [(k, v)].
Proof.
  induction fs as [|[k' v'] fs IH]; [done|]. simpl.
  intros [Hne Hin]%not_elem_of_cons.
  rewrite bool_decide_false by done. by rewrite IH.
Qed.

Lemma assign_result_fresh (k : string) (v : json) (result : props json) :
  k <> "__proto__" -> k ∉ keys result ->
  assign_result k v result = result ++ [(k, v)].
Proof.
  intros Hp Hk. unfold assign_result. rewrite bool_decide_false by done.
  by apply set_prop_fresh.
Qed.


Lemma plain_keys_obj (fs : props json) :
  plain_keys (JObj fs) = true ->
  NoDup (keys fs) /\ ("__proto__" ∉ keys fs)
  /\ Forall (fun p => plain_keys p.2 = true) fs.
Proof.
  simpl. intros [[H1 H2]%andb_true_iff H3]%andb_true_iff.
  apply bool_decide_eq_true in H1, H2. split; [done|]. split; [done|].
  apply Forall_forall. intros p Hp. rewrite forallb_forall in H3.
  by apply H3, list_elem_of_In.
Qed.

Lemma forallb_Forall {X} (f : X -> bool) (l : list X) :
  forallb f l = true <-> Forall (fun x => f x = true) l.
Proof.
  rewrite forallb_forall, Forall_forall. split; intros H x Hx; apply H;
    by apply list_elem_of_In.
Qed.

End WalkLoopFacts.

(** ** What the walk makes of each string *)
Section WalkOutcomeFacts.
Import Walk.
Context (st : storage).

Lemma shape_rel_arr (R : string -> string -> Prop) (xs ys : list json) :
  shape_rel R (JArr xs) (JArr ys) <-> Forall2 (shape_rel R) xs ys.
Proof.
  simpl. revert ys. induction xs as [|x xs IH]; intros [|y ys]; split; try done.
  - inversion 1.
  - inversion 1.
  - intros [Hx Hr]. constructor; [done|]. by apply IH.
  - inversion 1; subst. split; [done|]. by apply IH.
Qed.

Lemma shape_rel_obj (R : string -> string -> Prop) (fs gs : props json) :
  shape_rel R (JObj fs) (JObj gs)
  <-> Forall2 (fun p q => p.1 = q.1 /\ shape_rel R p.2 q.2) fs gs.
Proof.
  simpl. revert gs. induction fs as [|[k x] fs IH]; intros [|[k' y] gs]; split; try done.
  - inversion 1.
  - inversion 1.
  - intros (Hk & Hx & Hr). constructor; [done|]. by apply IH.
  - inversion 1 as [|? ? ? ? [Hk Hx] Hr]; subst. simpl in *.
    split; [done|]. split; [done|]. by apply IH.
Qed.

Lemma shape_rel_mono (R R' : string -> string -> Prop) :
  (forall s s', R s s' -> R' s s') ->
  forall a b, shape_rel R a b -> shape_rel R' a b.
Proof.
  intros HR a.
  induction a as [|x|n|s|xs IH|fs IH] using json_nested_ind; intros b;
    destruct b as [| | |s'|ys|gs]; try done.
  - apply HR.
  - rewrite !shape_rel_arr. intros H. revert IH.
    induction H as [|x y xs ys Hxy _ IHl]; [done|].
    intros [Hx Hxs]%Forall_cons. constructor; [by apply Hx|by apply IHl].
  - rewrite !shape_rel_obj. intros H. revert IH.
    induction H as [|p q fs gs [Hk Hpq] _ IHl]; [done|].
    intros [Hp Hfs]%Forall_cons. constructor; [|by apply IHl].
    split; [done|]. by apply Hp.
Qed.

Lemma walked_string_mono (filename : option json)
    (before new after : list upload_run) (s s' : string) :
  walked_string st filename new s s' ->
  walked_string st filename (before ++ new ++ after) s s'.
Proof.
  unfold walked_string. destruct (is_data_url_string s).
  - intros (run & call & Hin & Hrun & Hs'). exists run, call.
    split; [|done]. rewrite !elem_of_app. auto.
  - intros [->|(run & call & hint & Hin & Hrest)]; [by left|right].
    exists run, call, hint. split; [|done]. rewrite !elem_of_app. auto.
Qed.

(** The walk of a string. *)
Lemma walk_string_outcome (s : string) (filename hint : option json) (w : world) :
  exists new s',
    replaceBase64InObject st (JStr s) filename hint w = (JStr s', w ++ new)
    /\ walked_string st filename new s s'.
Proof.
  unfold walked_string. simpl. unfold upload_or_keep, upload.
  destruct (is_data_url_string s).
  - set (run := uploadBase64ToS3 st (length w) s filename None).
    exists [run], (match run_result run with Uploaded url => url | Failed _ => s end).
    split; [by destruct (run_result run)|].
    exists run, (length w). split; [by left|done].
  - destruct (truthy_opt hint) eqn:Hhint; simpl.
    + destruct (Text.looks_like_base64 s) eqn:Hlooks.
      * set (run := uploadBase64ToS3 st (length w) s filename hint).
        exists [run], (match run_result run with Uploaded url => url | Failed _ => s end).
        split; [by destruct (run_result run)|]. right.
        exists run, (length w), hint. split; [by left|done].
      * exists [], s. rewrite app_nil_r. split; [done|]. by left.
    + exists [], s. rewrite app_nil_r. split; [done|]. by left.
Qed.

Lemma walk_outcome (obj : json) :
  plain_keys obj = true ->
  forall filename hint w,
  exists new obj',
    replaceBase64InObject st obj filename hint w = (obj', w ++ new)
    /\ shape_rel (walked_string st filename new) obj obj'.
Proof.
  induction obj as [|b|n|s|items IH|fs IH] using json_nested_ind;
    intros Hplain filename hint w.
  - exists [], JNull. by rewrite app_nil_r.
  - exists [], (JBool b). by rewrite app_nil_r.
  - exists [], (JNum n). by rewrite app_nil_r.
  - destruct (walk_string_outcome s filename hint w) as (new & s' & Hrun & Hok).
    by exists new, (JStr s').
  - rewrite walk_array. simpl in Hplain. apply forallb_Forall in Hplain.
    assert (forall w0, exists new items',
               walk_each st filename hint items w0 = (items', w0 ++ new)
               /\ Forall2 (shape_rel (walked_string st filename new)) items items')
      as Heach.
    { induction IH as [|item r Hitem _ IHr]; intros w0.
      - exists [], []. by rewrite app_nil_r.
      - apply Forall_cons in Hplain as [Hp1 Hp2].
        destruct (Hitem Hp1 filename hint w0) as (new1 & item' & Hrun1 & Hs1).
        destruct (IHr Hp2 (w0 ++ new1)) as (new2 & r' & Hrun2 & Hs2).
        exists (new1 ++ new2), (item' :: r'). simpl.
        rewrite Hrun1, Hrun2, app_assoc. split; [done|]. constructor.
        + eapply shape_rel_mono; [|exact Hs1]. intros s s' H.
          pose proof (walked_string_mono filename [] new1 new2 s s' H) as H'.
          by simpl in H'.
        + eapply Forall2_impl; [exact Hs2|]. intros x y H.
          eapply shape_rel_mono; [|exact H]. intros s s' H0.
          pose proof (walked_string_mono filename new1 new2 [] s s' H0) as H'.
          by rewrite app_nil_r in H'. }
    destruct (Heach w) as (new & items' & -> & Hs).
    exists new, (JArr items'). split; [done|]. by apply shape_rel_arr.
  - rewrite walk_object.
    apply plain_keys_obj in Hplain as (Hdup & Hproto & Hplain).
    assert (forall l result w0,
              NoDup (keys result ++ keys l) ->
              "__proto__" ∉ keys l ->
              Forall (fun p => plain_keys p.2 = true) l ->
              Forall (fun p => plain_keys p.2 = true ->
                        forall filename hint w, exists new obj',
                          replaceBase64InObject st p.2 filename hint w = (obj', w ++ new)
                          /\ shape_rel (walked_string st filename new) p.2 obj') l ->
              exists new l',
                walk_entries st fs filename hint l result w0 = (result ++ l', w0 ++ new)
                /\ Forall2 (fun p q => p.1 = q.1
                              /\ shape_rel (walked_string st filename new) p.2 q.2) l l')
      as Hloop.
    { induction l as [|[key value] r IHl]; intros result w0 Hnd Hpr Hpl Hall.
      - exists [], []. by rewrite !app_nil_r.
      - apply Forall_cons in Hall as [Hv Hall]. apply Forall_cons in Hpl as [Hp1 Hp2].
        simpl in Hv, Hp1, Hpr. apply not_elem_of_cons in Hpr as [Hkp Hpr].
        destruct (Hv Hp1 filename (currentMimeType fs key hint) w0)
          as (new1 & value' & Hrun1 & Hs1).
        apply NoDup_app in Hnd as (Hnd1 & Hnd2 & Hnd3). simpl in Hnd3.
        apply NoDup_cons in Hnd3 as [Hnew Hnd3].
        destruct (IHl (result ++ [(key, value')]) (w0 ++ new1))
          as (new2 & r' & Hrun2 & Hs2); [|done|done|done|].
        { unfold keys. rewrite map_app. simpl. rewrite <- app_assoc. simpl.
          apply NoDup_app. split; [done|]. split; [|by constructor].
          intros k Hk [->|Hk']%elem_of_cons.
          - apply (Hnd2 _ Hk). by left.
          - apply (Hnd2 _ Hk). by right. }
        exists (new1 ++ new2), ((key, value') :: r'). simpl.
        rewrite Hrun1, assign_result_fresh, Hrun2.
        + rewrite <- !app_assoc. split; [done|]. constructor.
          * split; [done|]. simpl. eapply shape_rel_mono; [|exact Hs1].
            intros s s' H.
            pose proof (walked_string_mono filename [] new1 new2 s s' H) as H'.
            by simpl in H'.
          * eapply Forall2_impl; [exact Hs2|]. intros p q [Hk H]. split; [done|].
            eapply shape_rel_mono; [|exact H]. intros s s' H0.
            pose proof (walked_string_mono filename new1 new2 [] s s' H0) as H'.
            by rewrite app_nil_r in H'.
        + by intros ->.
        + intros Hk. apply (Hnd2 _ Hk). by left. }
    destruct (Hloop fs [] w) as (new & fs' & -> & Hs); [done|done|done|done|].
    exists new, (JObj fs'). split; [done|]. by apply shape_rel_obj.
Qed.

Lemma walked_arr (R : string -> string -> Prop) (xs ys : list json) :
  walked R (JArr xs) (JArr ys) <-> Forall2 (walked R) xs ys.
Proof.
  simpl. revert ys. induction xs as [|x xs IH]; intros [|y ys]; split; try done.
  - inversion 1.
  - inversion 1.
  - intros [Hx Hr]. constructor; [done|]. by apply IH.
  - inversion 1; subst. split; [done|]. by apply IH.
Qed.

Lemma walked_obj (R : string -> string -> Prop) (fs gs : props json) :
  walked R (JObj fs) (JObj gs)
  <-> exists vs, Forall2 (fun p v => walked R p.2 v) fs vs
                 /\ gs = assemble (zip (map fst fs) vs).
Proof.
  simpl.
  assert (forall vs,
            (fix all2 (fs : props json) (vs : list json) : Prop :=
               match fs, vs with
               | [], [] => True
               | (_, x) :: fs', y :: vs' => walked R x y /\ all2 fs' vs'
               | _, _ => False
               end) fs vs
            <-> Forall2 (fun p v => walked R p.2 v) fs vs) as Hall.
  { induction fs as [|[k x] fs IH]; intros [|y vs]; split; try done.
    - inversion 1.
    - inversion 1.
    - intros [Hx Hr]. constructor; [done|]. by apply IH.
    - inversion 1; subst. split; [done|]. by apply IH. }
  split; intros (vs & H & ->); exists vs; (split; [by apply Hall|done]).
Qed.

Lemma walked_mono (R R' : string -> string -> Prop) :
  (forall s s', R s s' -> R' s s') ->
  forall a b, walked R a b -> walked R' a b.
Proof.
  intros HR a.
  induction a as [|x|n|s|xs IH|fs IH] using json_nested_ind; intros b;
    destruct b as [| | |s'|ys|gs]; try done.
  - apply HR.
  - rewrite !walked_arr. intros H. revert IH.
    induction H as [|x y xs ys Hxy _ IHl]; [done|].
    intros [Hx Hxs]%Forall_cons. constructor; [by apply Hx|by apply IHl].
  - rewrite !walked_obj. intros (vs & H & ->). exists vs. split; [|done].
    revert IH. induction H as [|p v fs vs Hpv _ IHl]; [done|].
    intros [Hp Hfs]%Forall_cons. constructor; [by apply Hp|by apply IHl].
Qed.

(** The walk of any value: every string of it becomes what its own call
    makes of it. *)
Lemma walk_walked (obj : json) :
  forall filename hint w,
  exists new obj',
    replaceBase64InObject st obj filename hint w = (obj', w ++ new)
    /\ walked (walked_string st filename new) obj obj'.
Proof.
  induction obj as [|b|n|s|items IH|fs IH] using json_nested_ind;
    intros filename hint w.
  - exists [], JNull. by rewrite app_nil_r.
  - exists [], (JBool b). by rewrite app_nil_r.
  - exists [], (JNum n). by rewrite app_nil_r.
  - destruct (walk_string_outcome s filename hint w) as (new & s' & Hrun & Hok).
    by exists new, (JStr s').
  - rewrite walk_array.
    assert (forall w0, exists new items',
               walk_each st filename hint items w0 = (items', w0 ++ new)
               /\ Forall2 (walked (walked_string st filename new)) items items')
      as Heach.
    { induction IH as [|item r Hitem _ IHr]; intros w0.
      - exists [], []. by rewrite app_nil_r.
      - destruct (Hitem filename hint w0) as (new1 & item' & Hrun1 & Hs1).
        destruct (IHr (w0 ++ new1)) as (new2 & r' & Hrun2 & Hs2).
        exists (new1 ++ new2), (item' :: r'). simpl.
        rewrite Hrun1, Hrun2, app_assoc. split; [done|]. constructor.
        + eapply walked_mono; [|exact Hs1]. intros s s' H.
          pose proof (walked_string_mono filename [] new1 new2 s s' H) as H'.
          by simpl in H'.
        + eapply Forall2_impl; [exact Hs2|]. intros x y H.
          eapply walked_mono; [|exact H]. intros s s' H0.
          pose proof (walked_string_mono filename new1 new2 [] s s' H0) as H'.
          by rewrite app_nil_r in H'. }
    destruct (Heach w) as (new & items' & -> & Hs).
    exists new, (JArr items'). split; [done|]. by apply walked_arr.
  - rewrite walk_object.
    assert (forall l result w0,
              Forall (fun p => forall filename hint w, exists new obj',
                        replaceBase64InObject st p.2 filename hint w = (obj', w ++ new)
                        /\ walked (walked_string st filename new) p.2 obj') l ->
              exists new vs,
                walk_entries st fs filename hint l result w0
                = (foldl (fun result (entry : string * json) =>
                            assign_result entry.1 entry.2 result)
                         result (zip (map fst l) vs),
                   w0 ++ new)
                /\ Forall2 (fun p v => walked (walked_string st filename new) p.2 v) l vs)
      as Hloop.
    { induction l as [|[key value] r IHl]; intros result w0 Hall.
      - exists [], []. by rewrite app_nil_r.
      - apply Forall_cons in Hall as [Hv Hall]. simpl in Hv.
        destruct (Hv filename (currentMimeType fs key hint) w0)
          as (new1 & value' & Hrun1 & Hs1).
        destruct (IHl (assign_result key value' result) (w0 ++ new1) Hall)
          as (new2 & vs & Hrun2 & Hs2).
        exists (new1 ++ new2), (value' :: vs). simpl.
        rewrite Hrun1, Hrun2, app_assoc. split; [done|]. constructor.
        + simpl. eapply walked_mono; [|exact Hs1]. intros s s' H.
          pose proof (walked_string_mono filename [] new1 new2 s s' H) as H'.
          by simpl in H'.
        + eapply Forall2_impl; [exact Hs2|]. intros p v H.
          eapply walked_mono; [|exact H]. intros s s' H0.
          pose proof (walked_string_mono filename new1 new2 [] s s' H0) as H'.
          by rewrite app_nil_r in H'. }
    destruct (Hloop fs [] w IH) as (new & vs & -> & Hs).
    exists new, (JObj (assemble (zip (map fst fs) vs))). split; [done|].
    apply walked_obj. by exists vs.
Qed.

End WalkOutcomeFacts.

(** ** The candidates of the scans *)
Section CandidateFacts.
Import Candidates.
Context (st : storage).

Lemma tool_item_upload_candidate (filename : option json) (item : json) (w : world) :
  if uploadable_tool_item item
  then exists run, tool_item_upload st filename item w = (Some run, w ++ [run])
  else tool_item_upload st filename item w = (None, w).
Proof.
  unfold uploadable_tool_item, tool_item_upload, candidate, upload.
  destruct (part_kind_of item); [|done].
  destruct (as_string _) as [data|]; [|done].
  destruct (Text.nonempty data && _); [|done]. eauto.
Qed.

Lemma image_part_upload_candidate (part : json) (w : world) :
  part_kind_of part = Some ImagePart ->
  if uploadable_part part
  then exists run, image_part_upload st part w = (Some run, w ++ [run])
  else image_part_upload st part w = (None, w).
Proof.
  unfold uploadable_part, image_part_upload, candidate, upload. intros ->.
  destruct (as_string _) as [data|]; [|done].
  destruct (Text.nonempty data && _); [|done]. eauto.
Qed.

Lemma file_part_upload_candidate (part : json) (w : world) :
  part_kind_of part = Some FilePart ->
  if uploadable_part part
  then exists run, file_part_upload st part w = (Some run, w ++ [run])
  else file_part_upload st part w = (None, w).
Proof.
  unfold uploadable_part, file_part_upload, candidate, upload. intros ->.
  destruct (as_string _) as [data|]; [|done].
  destruct (Text.nonempty data && _); [|done]. eauto.
Qed.

Lemma image_part_upload_other (part : json) (w : world) :
  part_kind_of part <> Some ImagePart -> image_part_upload st part w = (None, w).
Proof. unfold image_part_upload. by destruct (part_kind_of part) as [[|]|]. Qed.

Lemma file_part_upload_other (part : json) (w : world) :
  part_kind_of part <> Some FilePart -> file_part_upload st part w = (None, w).
Proof. unfold file_part_upload. by destruct (part_kind_of part) as [[|]|]. Qed.

(** One call per candidate, in the scan of a tool result. *)
Lemma scan_tool_content_calls (filename : option json) (content : list json) :
  forall i w ps w',
  scan_tool_content st filename i content w = (Some ps, w') ->
  length w' = length w
              + length (filter (fun item => uploadable_tool_item item = true) content).
Proof.
  induction content as [|item rest IH]; intros i w ps w' Hscan; simpl in Hscan.
  - injection Hscan as <- <-. simpl. lia.
  - destruct (is_null item); [done|].
    pose proof (tool_item_upload_candidate filename item w) as Hc.
    destruct (tool_item_upload st filename item w) as [r w1].
    destruct (scan_tool_content st filename (S i) rest w1) as [[more|] w2] eqn:E; [|done].
    injection Hscan as <- <-. apply IH in E. rewrite filter_cons.
    destruct (uploadable_tool_item item).
    + destruct Hc as [run [= -> ->]]. rewrite decide_True by done.
      rewrite length_app in E. simpl in *. lia.
    + injection Hc as -> ->. rewrite decide_False by done. lia.
Qed.

End CandidateFacts.

Section PartCallFacts.
Import Candidates.
Context (st : storage).

(** The two branches on one part: at most one of them begins a call,
    and only for a candidate. *)
Lemma part_uploads_candidate (part : json) (w : world) :
  if uploadable_part part
  then exists run,
         (file_part_upload st part (image_part_upload st part w).2).2 = w ++ [run]
         /\ ((image_part_upload st part w).1 = Some run
             /\ (file_part_upload st part (image_part_upload st part w).2).1 = None
             /\ part_kind_of part = Some ImagePart
             \/ (image_part_upload st part w).1 = None
                /\ (file_part_upload st part (image_part_upload st part w).2).1 = Some run
                /\ part_kind_of part = Some FilePart)
  else image_part_upload st part w = (None, w)
       /\ file_part_upload st part w = (None, w).
Proof.
  destruct (part_kind_of part) as [[|]|] eqn:Ek.
  - pose proof (image_part_upload_candidate st part w Ek) as Hi.
    assert (forall w0, file_part_upload st part w0 = (None, w0)) as Hf.
    { intros w0. apply file_part_upload_other. congruence. }
    destruct (uploadable_part part).
    + destruct Hi as [run Hi]. exists run. rewrite Hi, Hf. simpl.
      split; [done|]. by left.
    + by rewrite Hi, Hf.
  - pose proof (file_part_upload_candidate st part w Ek) as Hf.
    assert (forall w0, image_part_upload st part w0 = (None, w0)) as Hi.
    { intros w0. apply image_part_upload_other. congruence. }
    destruct (uploadable_part part).
    + destruct Hf as [run Hf]. exists run. rewrite Hi. simpl. rewrite Hf.
      split; [done|]. by right.
    + by rewrite Hi, Hf.
  - assert (uploadable_part part = false) as -> by (unfold uploadable_part; by rewrite Ek).
    split; [apply image_part_upload_other|apply file_part_upload_other]; congruence.
Qed.

Lemma scan_parts_calls (parts : list json) :
  forall i j w ps w',
  scan_parts st i j parts w = (Some ps, w') ->
  length w' = length w
              + length (filter (fun part => uploadable_part part = true) parts).
Proof.
  induction parts as [|part rest IH]; intros i j w ps w' Hscan; simpl in Hscan.
  - injection Hscan as <- <-. simpl. lia.
  - destruct (is_null part); [done|].
    pose proof (part_uploads_candidate part w) as Hc.
    destruct (image_part_upload st part w) as [r1 w1].
    destruct (file_part_upload st part w1) as [r2 w2] eqn:E2.
    destruct (scan_parts st i (S j) rest w2) as [[more|] w3] eqn:E; [|done].
    injection Hscan as <- <-. apply IH in E. rewrite filter_cons.
    destruct (uploadable_part part).
    + destruct Hc as (run & Hw & _). simpl in Hw. rewrite E2 in Hw. simpl in Hw. subst w2.
      rewrite decide_True by done. rewrite length_app in E. simpl in *. lia.
    + destruct Hc as [[= -> ->] Hf]. rewrite Hf in E2. injection E2 as <- <-.
      rewrite decide_False by done. lia.
Qed.

Lemma parts_of_cons (message : json) (messages : list json) :
  parts_of (message :: messages)
  = match prop message "content" with
    | Some (JArr parts) => parts
    | _ => []
    end ++ parts_of messages.
Proof. reflexivity. Qed.

Lemma scan_messages_calls (messages : list json) :
  forall i w ps w',
  scan_messages st i messages w = (Some ps, w') ->
  length w' = length w
              + length (filter (fun part => uploadable_part part = true)
                          (parts_of messages)).
Proof.
  induction messages as [|message rest IH]; intros i w ps w' Hscan; simpl in Hscan.
  - injection Hscan as <- <-. simpl. lia.
  - destruct (is_null message); [done|].
    rewrite parts_of_cons, filter_app, length_app.
    destruct (prop message "content") as [[| | | |parts|]|] eqn:Ec.
    all: try (destruct (scan_messages st (S i) rest w) as [[more|] w2] eqn:E; [|done];
              injection Hscan as <- <-; apply IH in E; simpl; lia).
    destruct (scan_parts st i 0 parts w) as [[pushed|] w1] eqn:E1; [|done].
    destruct (scan_messages st (S i) rest w1) as [[more|] w2] eqn:E; [|done].
    injection Hscan as <- <-. apply IH in E. apply scan_parts_calls in E1. lia.
Qed.

End PartCallFacts.

(** ** Failed uploads *)
Section DegradationFacts.
Context (st : storage).

Lemma message_part_outcome_by_kind (w w' : world) (part part' : json) :
  message_part_outcome st w w' part part' ->
  exists wj,
    w `prefix_of` wj
    /\ (part_upload st part wj).2 `prefix_of` w'
    /\ part' = settled_message_part (default ImagePart (part_kind_of part))
                 (part_upload st part wj).1 part.
Proof.
  intros (wj & Hw & Hafter & ->). exists wj. split; [done|].
  revert Hafter. unfold part_upload, image_part_upload, file_part_upload.
  destruct (part_kind_of part) as [[|]|]; simpl; try done.
  all: destruct (as_string _) as [data|]; [|done].
  all: destruct (_ && _); [|done].
  all: by destruct (upload _ _ _ _ _).
Qed.

(** Item by item: what a tool result with a content sequence becomes. *)
Lemma tool_result_item_by_item (fs : props json) (content : list json)
    (filename : option json) (w : world) :
  get_prop "content" fs = Some (JArr content) -> no_null content ->
  exists content' w',
    processToolResultForBase64 st (JObj fs) filename w
    = (Return (JObj (set_prop "content" (JArr content') fs)), w')
    /\ forall j item, content !! j = Some item ->
       exists wj,
         w `prefix_of` wj
         /\ (tool_item_upload st filename item wj).2 `prefix_of` w'
         /\ content' !! j = Some
              match (tool_item_upload st filename item wj).1 with
              | Some run =>
                  match run_result run with
                  | Uploaded url => on_fields (settle_tool_fields JStr url) item
                  | Failed _ => item
                  end
              | None => item
              end.
Proof.
  intros Hc Hnull.
  destruct (scan_tool_content_total st filename content Hnull 0 w) as (ps & w' & Hscan).
  destruct (scan_tool_content_settle st filename content [] w ps w' Hscan)
    as (content' & Hfold & Hall).
  exists content', w'. split.
  - unfold processToolResultForBase64, has_content_array, content_of.
    rewrite json_clone_id, Hc, Hscan, await_uploads_all.
    simpl in Hfold. by rewrite Hfold.
  - intros j item Hj.
    destruct (Forall2_lookup_l _ _ _ _ _ Hall Hj)
      as (item' & -> & wj & Hw & Hafter & ->).
    by exists wj.
Qed.

(** Part by part: what a message list becomes. *)
Lemma messages_part_by_part (messages : list json) (w : world) :
  Forall message_without_null messages ->
  exists messages' w',
    processMessagesForBase64 st messages w = (Return messages', w')
    /\ length messages' = length messages
    /\ forall i message parts j part,
       messages !! i = Some message ->
       prop message "content" = Some (JArr parts) ->
       parts !! j = Some part ->
       exists message' parts' wj,
         w `prefix_of` wj
         /\ (part_upload st part wj).2 `prefix_of` w'
         /\ messages' !! i = Some message'
         /\ prop message' "content" = Some (JArr parts')
         /\ parts' !! j = Some
              match (part_upload st part wj).1 with
              | Some run =>
                  match run_result run with
                  | Uploaded url =>
                      on_fields
                        (settle_message_fields truthy JStr
                           (default ImagePart (part_kind_of part)) url) part
                  | Failed _ => part
                  end
              | None => part
              end.
Proof.
  intros Hwf.
  destruct (scan_messages_total st messages Hwf 0 w) as (ps & w' & Hscan).
  destruct (scan_messages_settle st messages [] w ps w' Hscan)
    as (messages' & Hfold & Hall).
  exists messages', w'. split; [|split].
  - unfold processMessagesForBase64.
    rewrite map_json_clone, Hscan, await_uploads_all.
    simpl in Hfold. by rewrite Hfold.
  - symmetry. by eapply Forall2_length.
  - intros i message parts j part Hi Hc Hj.
    destruct (Forall2_lookup_l _ _ _ _ _ Hall Hi) as (message' & Hi' & Hout).
    unfold message_outcome in Hout. unfold prop in Hc.
    destruct message as [| | | | |mfs]; try done. rewrite Hc in Hout.
    destruct Hout as (parts' & -> & Hparts).
    destruct (Forall2_lookup_l _ _ _ _ _ Hparts Hj) as (part' & Hj' & Hpart).
    destruct (message_part_outcome_by_kind _ _ _ _ Hpart) as (wj & Hw & Hafter & ->).
    exists (JObj (set_prop "content" (JArr parts') mfs)), parts', wj.
    split; [done|]. split; [done|].
    split; [done|]. split; [apply get_set_prop_eq|]. by rewrite Hj'.
Qed.

End DegradationFacts.

(** ** Clean input *)
Section CleanFacts.
Import SpecWords Candidates.
Context (st : storage).

Lemma puts_sent_snoc (w : world) (run : upload_run) :
  run_put run = None -> puts_sent (w ++ [run]) = puts_sent w.
Proof. intros H. unfold puts_sent. rewrite omap_app. simpl. rewrite H. apply app_nil_r. Qed.













End CleanFacts.

(** ** What the continuations do to a part *)
Section SettleFacts.
Context {V : Type} (vtruthy : V -> bool) (vstr : string -> V).
Implicit Types (fs : props V) (k url : string).

Lemma settle_tool_fields_data url fs :
  get_prop "data" (settle_tool_fields vstr url fs) = None.
Proof.
  unfold settle_tool_fields. rewrite get_set_prop_ne by done.
  apply get_delete_prop_eq.
Qed.

Lemma settle_tool_fields_url url fs :
  get_prop "url" (settle_tool_fields vstr url fs) = Some (vstr url).
Proof. apply get_set_prop_eq. Qed.

Lemma settle_tool_fields_other url fs k :
  k <> "data" -> k <> "url" ->
  get_prop k (settle_tool_fields vstr url fs) = get_prop k fs.
Proof.
  intros Hd Hu. unfold settle_tool_fields.
  rewrite get_set_prop_ne by done. by rewrite get_delete_prop_ne.
Qed.

Lemma drop_mimeType_other fs k :
  k <> "mimeType" -> get_prop k (drop_mimeType vtruthy fs) = get_prop k fs.
Proof.
  intros Hk. unfold drop_mimeType. destruct (prop_truthy _ _ _); [|done].
  by rewrite get_delete_prop_ne.
Qed.

Lemma drop_mimeType_falsy fs :
  prop_truthy vtruthy "mimeType" (drop_mimeType vtruthy fs) = false.
Proof.
  unfold drop_mimeType. destruct (prop_truthy vtruthy "mimeType" fs) eqn:E; [|done].
  unfold prop_truthy. by rewrite get_delete_prop_eq.
Qed.

Lemma drop_mimeType_truthy fs :
  prop_truthy vtruthy "mimeType" fs = true ->
  get_prop "mimeType" (drop_mimeType vtruthy fs) = None.
Proof. unfold drop_mimeType. intros ->. apply get_delete_prop_eq. Qed.

Lemma prop_truthy_other fs fs' k :
  get_prop k fs' = get_prop k fs -> prop_truthy vtruthy k fs' = prop_truthy vtruthy k fs.
Proof. unfold prop_truthy. by intros ->. Qed.

(** After either continuation of the message scan no truthy [mimeType]
    is left, and one that was truthy is gone. *)
Lemma settle_message_fields_mimeType (kind : part_kind) url fs :
  prop_truthy vtruthy "mimeType" (settle_message_fields vtruthy vstr kind url fs) = false
  /\ (prop_truthy vtruthy "mimeType" fs = true ->
      get_prop "mimeType" (settle_message_fields vtruthy vstr kind url fs) = None).
Proof.
  split; [destruct kind; apply drop_mimeType_falsy|].
  intros Ht. destruct kind; simpl; unfold settle_image_fields, settle_file_fields;
    apply drop_mimeType_truthy; (erewrite prop_truthy_other; [exact Ht|]).
  - destruct (prop_truthy vtruthy "image" fs); [by rewrite get_set_prop_ne|].
    destruct (prop_truthy vtruthy "data" fs); [|done].
    rewrite get_set_prop_ne by done. by rewrite get_delete_prop_ne.
  - rewrite get_set_prop_ne by done. by rewrite get_delete_prop_ne.
Qed.

(** The image continuation on a part with a truthy [image]: the URL goes
    into [image]; [data] and [url] are as they were. *)
Lemma settle_image_fields_image url fs :
  prop_truthy vtruthy "image" fs = true ->
  get_prop "image" (settle_image_fields vtruthy vstr url fs) = Some (vstr url)
  /\ get_prop "data" (settle_image_fields vtruthy vstr url fs) = get_prop "data" fs
  /\ get_prop "url" (settle_image_fields vtruthy vstr url fs) = get_prop "url" fs.
Proof.
  intros Hi. unfold settle_image_fields. rewrite Hi.
  rewrite !drop_mimeType_other by done.
  rewrite get_set_prop_eq. by rewrite !get_set_prop_ne.
Qed.

(** The image continuation on a part without a truthy [image] and with a
    truthy [data]: [data] is deleted, the URL goes into [url], [image] is
    as it was. *)
Lemma settle_image_fields_data url fs :
  prop_truthy vtruthy "image" fs = false ->
  prop_truthy vtruthy "data" fs = true ->
  get_prop "data" (settle_image_fields vtruthy vstr url fs) = None
  /\ get_prop "url" (settle_image_fields vtruthy vstr url fs) = Some (vstr url)
  /\ get_prop "image" (settle_image_fields vtruthy vstr url fs) = get_prop "image" fs.
Proof.
  intros Hi Hd. unfold settle_image_fields. rewrite Hi, Hd.
  rewrite !drop_mimeType_other by done.
  rewrite get_set_prop_eq, !get_set_prop_ne by done.
  by rewrite get_delete_prop_eq, get_delete_prop_ne.
Qed.

(** The file continuation: [data] is deleted, the URL goes into [url]. *)
Lemma settle_file_fields_data url fs :
  get_prop "data" (settle_file_fields vtruthy vstr url fs) = None
  /\ get_prop "url" (settle_file_fields vtruthy vstr url fs) = Some (vstr url).
Proof.
  unfold settle_file_fields. rewrite !drop_mimeType_other by done.
  rewrite get_set_prop_eq, get_set_prop_ne by done.
  by rewrite get_delete_prop_eq.
Qed.

End SettleFacts.

Section PartFacts.
Context (st : storage).

Lemma part_kind_object (part : json) (kind : part_kind) :
  part_kind_of part = Some kind -> exists pfs, part = JObj pfs.
Proof. destruct part; try done. eauto. Qed.

Lemma tool_item_upload_begun (filename : option json) (item : json) (w : world)
    (run : upload_run) :
  (tool_item_upload st filename item w).1 = Some run ->
  exists ifs kind data,
    item = JObj ifs /\ part_kind_of item = Some kind
    /\ get_prop "data" ifs = Some (JStr data).
Proof.
  unfold tool_item_upload.
  destruct (part_kind_of item) as [kind|] eqn:Ek; [|done].
  destruct (part_kind_object _ _ Ek) as [ifs ->]. simpl.
  destruct (get_prop "data" ifs) as [[| | |data| |]|] eqn:Ed; try done.
  intros _. by exists ifs, kind, data.
Qed.

(** The upload the image branch begins is an upload of the string
    [part.image || part.data]. *)
Lemma image_part_upload_begun (part : json) (w : world) (run : upload_run) :
  (image_part_upload st part w).1 = Some run ->
  exists data,
    js_or (prop part "image") (prop part "data") = Some (JStr data)
    /\ Text.nonempty data = true
    /\ run = uploadBase64ToS3 st (length w) data
               (js_or (prop part "filename") (Some (JStr "image")))
               (if isBase64 data
                then js_or (prop part "mimeType") (Some (JStr "image/jpeg"))
                else None).
Proof.
  unfold image_part_upload, upload.
  destruct (part_kind_of part) as [[|]|]; try done.
  destruct (js_or _ _) as [[| | |data| |]|]; try done. simpl.
  destruct (Text.nonempty data) eqn:En; [|done]. simpl.
  destruct (_ || _); [|done]. simpl. intros [= <-]. by exists data.
Qed.

(** The three branches on a part that holds a string that is not empty:
    the call begun, when the string begins with [data:] or passes the
    base64 test, and none otherwise. *)
Lemma tool_item_upload_string (filename : option json) (item : json)
    (kind : part_kind) (payload : string) (w : world) :
  part_kind_of item = Some kind ->
  prop item "data" = Some (JStr payload) ->
  Text.nonempty payload = true ->
  tool_item_upload st filename item w
  = if isDataUrl payload || isBase64 payload
    then let run :=
           uploadBase64ToS3 st (length w) payload
             (js_or (js_or (prop item "filename") filename)
                    (Some (JStr (default_tool_filename kind))))
             (if isBase64 payload
              then js_or (prop item "mimeType") (Some (JStr (default_tool_mime kind)))
              else None) in
         (Some run, w ++ [run])
    else (None, w).
Proof.
  unfold tool_item_upload, upload. intros Hk Hd Hne. rewrite Hk, Hd. simpl.
  rewrite Hne. simpl. by destruct (_ || _).
Qed.

Lemma image_part_upload_string (part : json) (payload : string) (w : world) :
  part_kind_of part = Some ImagePart ->
  js_or (prop part "image") (prop part "data") = Some (JStr payload) ->
  Text.nonempty payload = true ->
  image_part_upload st part w
  = if isDataUrl payload || isBase64 payload
    then let run :=
           uploadBase64ToS3 st (length w) payload
             (js_or (prop part "filename") (Some (JStr "image")))
             (if isBase64 payload
              then js_or (prop part "mimeType") (Some (JStr "image/jpeg"))
              else None) in
         (Some run, w ++ [run])
    else (None, w).
Proof.
  unfold image_part_upload, upload. intros Hk Hd Hne. rewrite Hk, Hd. simpl.
  rewrite Hne. simpl. by destruct (_ || _).
Qed.

Lemma file_part_upload_string (part : json) (payload : string) (w : world) :
  part_kind_of part = Some FilePart ->
  prop part "data" = Some (JStr payload) ->
  Text.nonempty payload = true ->
  file_part_upload st part w
  = if isDataUrl payload || isBase64 payload
    then let run :=
           uploadBase64ToS3 st (length w) payload
             (js_or (js_or (prop part "filename") (prop part "name"))
                    (Some (JStr "file")))
             (if isBase64 payload
              then js_or (js_or (prop part "mimeType") (prop part "mediaType"))
                         (Some (JStr "application/octet-stream"))
              else None) in
         (Some run, w ++ [run])
    else (None, w).
Proof.
  unfold file_part_upload, upload. intros Hk Hd Hne. rewrite Hk, Hd. simpl.
  rewrite Hne. simpl. by destruct (_ || _).
Qed.

End PartFacts.

(** ** An upload that fails *)
Section FailedUploadFacts.
Import Walk Candidates.
Context (st : storage).

Lemma has_prop_get {V} (k : string) (fs : props V) :
  (if has_prop k fs then get_prop k fs else None) = get_prop k fs.
Proof.
  unfold has_prop. by destruct (get_prop k fs).
Qed.

(** C4. An upload that fails is absorbed by its own item, and the call
    returns.

    Tool results and message lists, no member of a sequence being
    [null]: for an image or file item that holds a string which is not
    empty and begins with [data:] or passes the base64 test, the upload
    [run] of that string is begun (it stands in the history [w'] of the
    whole call, right after the history [wj] the scan has reached at the
    item).  When [run] fails, whatever the reason, the output holds the
    item as it was.  When it returns a URL, the output holds the item
    without [data] and with the URL under [url] (for an image part of a
    message with a truthy [image]: with the URL under [image]), whatever
    becomes of the uploads of the other items.  An item for which no
    upload is begun is as it was.

    The recursive walk, for tool-call arguments and for tool results
    without a content sequence: the call returns; a string that begins
    with [data:] and holds [;base64,] becomes the URL its own call
    returned, or is as it was when that call failed; arrays keep their
    elements in place, and an object is assembled from its property
    names and what their values have become.  With distinct property
    names, none of them [__proto__], the result has the shape of the
    value, so every payload is in its place, kept or replaced.

    Not so under a property named [__proto__], which [JSON.parse] makes
    an own property: the assignment of line 199 reaches the setter
    inherited from [Object.prototype] and creates no property.  The
    payload under it is uploaded, and is neither left in place nor
    replaced, whether its upload fails or not. *)
Theorem failed_upload_leaves_item :
  (forall fs content filename w,
      get_prop "content" fs = Some (JArr content) -> no_null content ->
      exists content' w',
        processToolResultForBase64 st (JObj fs) filename w
        = (Return (JObj (set_prop "content" (JArr content') fs)), w')
        /\ forall j item, content !! j = Some item ->
           exists wj item',
             w `prefix_of` wj
             /\ content' !! j = Some item'
             /\ (forall kind payload,
                   part_kind_of item = Some kind ->
                   prop item "data" = Some (JStr payload) ->
                   Text.nonempty payload = true ->
                   isDataUrl payload || isBase64 payload = true ->
                   let run :=
                     uploadBase64ToS3 st (length wj) payload
                       (js_or (js_or (prop item "filename") filename)
                              (Some (JStr (default_tool_filename kind))))
                       (if isBase64 payload
                        then js_or (prop item "mimeType")
                                   (Some (JStr (default_tool_mime kind)))
                        else None) in
                   (wj ++ [run]) `prefix_of` w'
                   /\ match run_result run with
                      | Uploaded url =>
                          prop item' "data" = None
                          /\ prop item' "url" = Some (JStr url)
                          /\ forall k, k <> "data" -> k <> "url" ->
                                       prop item' k = prop item k
                      | Failed _ => item' = item
                      end)
             /\ (uploadable_tool_item item = false -> item' = item))
  /\ (forall messages w,
      Forall message_without_null messages ->
      exists messages' w',
        processMessagesForBase64 st messages w = (Return messages', w')
        /\ length messages' = length messages
        /\ forall i message parts j part,
           messages !! i = Some message ->
           prop message "content" = Some (JArr parts) ->
           parts !! j = Some part ->
           exists message' parts' wj part',
             w `prefix_of` wj
             /\ messages' !! i = Some message'
             /\ prop message' "content" = Some (JArr parts')
             /\ parts' !! j = Some part'
             /\ (forall payload,
                   part_kind_of part = Some ImagePart ->
                   js_or (prop part "image") (prop part "data") = Some (JStr payload) ->
                   Text.nonempty payload = true ->
                   isDataUrl payload || isBase64 payload = true ->
                   let run :=
                     uploadBase64ToS3 st (length wj) payload
                       (js_or (prop part "filename") (Some (JStr "image")))
                       (if isBase64 payload
                        then js_or (prop part "mimeType") (Some (JStr "image/jpeg"))
                        else None) in
                   (wj ++ [run]) `prefix_of` w'
                   /\ match run_result run with
                      | Uploaded url =>
                          if truthy_opt (prop part "image")
                          then prop part' "image" = Some (JStr url)
                          else prop part' "data" = None
                               /\ prop part' "url" = Some (JStr url)
                      | Failed _ => part' = part
                      end)
             /\ (forall payload,
                   part_kind_of part = Some FilePart ->
                   prop part "data" = Some (JStr payload) ->
                   Text.nonempty payload = true ->
                   isDataUrl payload || isBase64 payload = true ->
                   let run :=
                     uploadBase64ToS3 st (length wj) payload
                       (js_or (js_or (prop part "filename") (prop part "name"))
                              (Some (JStr "file")))
                       (if isBase64 payload
                        then js_or (js_or (prop part "mimeType") (prop part "mediaType"))
                                   (Some (JStr "application/octet-stream"))
                        else None) in
                   (wj ++ [run]) `prefix_of` w'
                   /\ match run_result run with
                      | Uploaded url =>
                          prop part' "data" = None
                          /\ prop part' "url" = Some (JStr url)
                      | Failed _ => part' = part
                      end)
             /\ (uploadable_part part = false -> part' = part))
  /\ (forall toolName args w,
      exists new args',
        processToolCallForBase64 st toolName args w = ((toolName, args'), w ++ new)
        /\ walked (walked_string st (prop args "filename") new) args args'
        /\ (plain_keys args = true ->
            shape_rel (walked_string st (prop args "filename") new) args args'))
  /\ (forall result filename w,
      has_content_array result = false ->
      exists new result',
        processToolResultForBase64 st result filename w = (Return result', w ++ new)
        /\ walked (walked_string st filename new) result result'
        /\ (plain_keys result = true ->
            shape_rel (walked_string st filename new) result result'))
  /\ (forall toolName payload note w,
      is_data_url_string payload = true ->
      processToolCallForBase64 st toolName
        (JObj [("__proto__", JStr payload); ("note", JStr note)]) w
      = ((toolName,
          JObj [("note",
                 (replaceBase64InObject st (JStr note) None None
                    (w ++ [uploadBase64ToS3 st (length w) payload None None])).1)]),
         (replaceBase64InObject st (JStr note) None None
            (w ++ [uploadBase64ToS3 st (length w) payload None None])).2)).
Proof.
  split; [|split; [|split; [|split]]].
  - intros fs content filename w Hc Hnull.
    destruct (tool_result_item_by_item st fs content filename w Hc Hnull)
      as (content' & w' & Hrun & Hitems).
    exists content', w'. split; [done|]. intros j item Hj.
    destruct (Hitems j item Hj) as (wj & Hw & Hafter & Hj').
    eexists wj, _. split; [done|]. split; [exact Hj'|]. split.
    + intros kind payload Hk Hd Hne Htest.
      rewrite (tool_item_upload_string st filename item kind payload wj Hk Hd Hne),
        Htest in Hafter |- *.
      cbv zeta. split; [exact Hafter|]. simpl.
      destruct (run_result _) as [url|e]; [|reflexivity].
      destruct (part_kind_object _ _ Hk) as [ifs ->]. simpl.
      rewrite settle_tool_fields_data, settle_tool_fields_url.
      split; [done|]. split; [done|]. intros k Hkd Hku.
      by apply settle_tool_fields_other.
    + intros Hno. pose proof (tool_item_upload_candidate st filename item wj) as Hcand.
      rewrite Hno in Hcand. by rewrite Hcand.
  - intros messages w Hwf.
    destruct (messages_part_by_part st messages w Hwf)
      as (messages' & w' & Hrun & Hlen & Hparts).
    exists messages', w'. split; [done|]. split; [done|].
    intros i message parts j part Hi Hc Hj.
    destruct (Hparts i message parts j part Hi Hc Hj)
      as (message' & parts' & wj & Hw & Hafter & Hi' & Hc' & Hj').
    eexists message', parts', wj, _.
    split; [done|]. split; [done|]. split; [done|]. split; [exact Hj'|].
    split; [|split].
    + intros payload Hk Hor Hne Htest. unfold part_upload in Hafter |- *.
      rewrite Hk in Hafter |- *.
      rewrite (image_part_upload_string st part payload wj Hk Hor Hne),
        Htest in Hafter |- *.
      cbv zeta. split; [exact Hafter|]. simpl.
      destruct (run_result _) as [url|e]; [|reflexivity].
      destruct (part_kind_object _ _ Hk) as [pfs ->]. simpl.
      destruct (truthy_opt (get_prop "image" pfs)) eqn:Himage.
      * apply (settle_image_fields_image truthy JStr url pfs Himage).
      * assert (prop_truthy truthy "data" pfs = true) as Hdata.
        { unfold js_or in Hor. simpl in Hor. rewrite Himage in Hor.
          unfold prop_truthy. by rewrite Hor. }
        destruct (settle_image_fields_data truthy JStr url pfs Himage Hdata)
          as (H1 & H2 & _).
        by split.
    + intros payload Hk Hd Hne Htest. unfold part_upload in Hafter |- *.
      rewrite Hk in Hafter |- *.
      rewrite (file_part_upload_string st part payload wj Hk Hd Hne),
        Htest in Hafter |- *.
      cbv zeta. split; [exact Hafter|]. simpl.
      destruct (run_result _) as [url|e]; [|reflexivity].
      destruct (part_kind_object _ _ Hk) as [pfs ->]. simpl.
      apply (settle_file_fields_data truthy JStr).
    + intros Hno. unfold part_upload.
      destruct (part_kind_of part) as [[|]|] eqn:Hk; [| |done].
      * pose proof (image_part_upload_candidate st part wj Hk) as Hcand.
        rewrite Hno in Hcand. by rewrite Hcand.
      * pose proof (file_part_upload_candidate st part wj Hk) as Hcand.
        rewrite Hno in Hcand. by rewrite Hcand.
  - intros toolName args w.
    unfold processToolCallForBase64. rewrite json_clone_id.
    assert (match args with
            | JObj fs => if has_prop "filename" fs then get_prop "filename" fs else None
            | _ => None
            end = prop args "filename") as ->.
    { destruct args; try done. apply has_prop_get. }
    destruct (walk_walked st args (prop args "filename") None w)
      as (new & args' & Hcall & Hwalked).
    rewrite Hcall. exists new, args'. split; [done|]. split; [done|].
    intros Hplain.
    destruct (walk_outcome st args Hplain (prop args "filename") None w)
      as (new2 & args2 & Hcall2 & Hshape).
    rewrite Hcall in Hcall2. injection Hcall2 as -> ->%app_inv_head. done.
  - intros result filename w Hno. unfold processToolResultForBase64.
    rewrite Hno.
    destruct (walk_walked st result filename None w)
      as (new & result' & Hcall & Hwalked).
    rewrite Hcall. exists new, result'. split; [done|]. split; [done|].
    intros Hplain.
    destruct (walk_outcome st result Hplain filename None w)
      as (new2 & result2 & Hcall2 & Hshape).
    rewrite Hcall in Hcall2. injection Hcall2 as -> ->%app_inv_head. done.
  - intros toolName payload note w Hdata.
    unfold processToolCallForBase64. rewrite json_clone_id, walk_object.
    cbn [walk_entries has_prop get_prop]. unfold currentMimeType. simpl bool_decide.
    cbn [andb].
    change (has_prop "filename" [("__proto__", JStr payload); ("note", JStr note)])
      with false.
    cbv iota.
    change (replaceBase64InObject st (JStr payload) None None w)
      with (if is_data_url_string payload then upload_or_keep st payload None None w
            else if truthy_opt None && Text.looks_like_base64 payload
                 then upload_or_keep st payload None None w
                 else (JStr payload, w)).
    rewrite Hdata. unfold upload_or_keep at 1, upload at 1. cbv zeta. cbv beta iota.
    unfold assign_result at 2. rewrite bool_decide_true by done.
    destruct (replaceBase64InObject st (JStr note) None None _) as [v w1].
    reflexivity.
Qed.

End FailedUploadFacts.

(** ** The [mimeType] of a substituted part, and the precedence of [image] *)
Section SubstitutionFacts.
Context (st : storage).

(** C9. In a tool result, an image or file item whose upload returned a
    URL comes out without its [data] field and with a [url] field holding
    the URL; its [mimeType] field, like every other field, is as it was.
    In a message list the substituted part has no truthy [mimeType] left:
    a [mimeType] that was truthy has been deleted.  The upload of an item
    is the call begun in the history [wj] the scan has reached at the
    item, between the history [w] the call starts in and the history
    [w'] it ends in.  No member of the sequences is [null]. *)
Theorem tool_result_keeps_mimeType :
  (forall fs content filename w,
      get_prop "content" fs = Some (JArr content) -> no_null content ->
      exists content' w',
        processToolResultForBase64 st (JObj fs) filename w
        = (Return (JObj (set_prop "content" (JArr content') fs)), w')
        /\ forall j item, content !! j = Some item ->
           exists wj item',
             w `prefix_of` wj
             /\ (tool_item_upload st filename item wj).2 `prefix_of` w'
             /\ content' !! j = Some item'
             /\ forall run url,
                (tool_item_upload st filename item wj).1 = Some run ->
                run_result run = Uploaded url ->
                prop item' "data" = None
                /\ prop item' "url" = Some (JStr url)
                /\ prop item' "mimeType" = prop item "mimeType"
                /\ forall k, k <> "data" -> k <> "url" -> prop item' k = prop item k)
  /\ (forall messages w,
      Forall message_without_null messages ->
      exists messages' w',
        processMessagesForBase64 st messages w = (Return messages', w')
        /\ forall i message parts j part,
           messages !! i = Some message ->
           prop message "content" = Some (JArr parts) ->
           parts !! j = Some part ->
           exists message' parts' wj part',
             w `prefix_of` wj
             /\ (part_upload st part wj).2 `prefix_of` w'
             /\ messages' !! i = Some message'
             /\ prop message' "content" = Some (JArr parts')
             /\ parts' !! j = Some part'
             /\ forall run url,
                (part_upload st part wj).1 = Some run ->
                run_result run = Uploaded url ->
                truthy_opt (prop part' "mimeType") = false
                /\ (truthy_opt (prop part "mimeType") = true ->
                    prop part' "mimeType" = None)).
Proof.
  split.
  - intros fs content filename w Hc Hnull.
    destruct (tool_result_item_by_item st fs content filename w Hc Hnull)
      as (content' & w' & Hrun & Hitems).
    exists content', w'. split; [done|]. intros j item Hj.
    destruct (Hitems j item Hj) as (wj & Hw & Hafter & Hj').
    eexists wj, _. split; [done|]. split; [done|].
    split; [exact Hj'|]. intros run url Hbegun Hok.
    destruct (tool_item_upload_begun st _ _ _ _ Hbegun) as (ifs & kind & data & -> & _ & _).
    rewrite Hbegun, Hok. simpl.
    rewrite settle_tool_fields_data, settle_tool_fields_url.
    repeat split; try done.
    + by apply settle_tool_fields_other.
    + intros k Hd Hu. by apply settle_tool_fields_other.
  - intros messages w Hwf.
    destruct (messages_part_by_part st messages w Hwf)
      as (messages' & w' & Hrun & _ & Hparts).
    exists messages', w'. split; [done|]. intros i message parts j part Hi Hc Hj.
    destruct (Hparts i message parts j part Hi Hc Hj)
      as (message' & parts' & wj & Hw & Hafter & Hi' & Hc' & Hj').
    eexists message', parts', wj, _.
    split; [done|]. split; [done|].
    split; [done|]. split; [done|]. split; [exact Hj'|].
    intros run url Hbegun Hok. rewrite Hbegun, Hok.
    unfold part_upload in Hbegun.
    destruct (part_kind_of part) as [kind|] eqn:Ek; [|done].
    destruct (part_kind_object _ _ Ek) as [pfs ->]. simpl.
    apply (settle_message_fields_mimeType truthy JStr).
Qed.

(** C10. In a message list, an image part whose [image] field holds a
    string that is not empty: when the string begins with [data:] or
    passes the base64 test, an upload of that string is begun (the call
    [run], which stands in the history [w'] of the whole call right
    after the history [wj] the scan has reached at the part); when the
    call returns a URL the URL replaces the value of [image], when it
    fails the part is as it was; and whatever happens, [data] and [url]
    are as they were.  An image part without a truthy [image] whose
    [data] holds such a string: the upload begun is an upload of the
    string held by [data], and when it returns a URL, [data] is deleted,
    [url] holds the URL and [image] is as it was.  In both cases a
    string that neither begins with [data:] nor passes the test leaves
    the part as it was.  Any upload begun by the image branch is one of
    these two.  No member of the sequences is [null]. *)
Theorem image_field_takes_precedence (messages : list json) (w : world) :
  Forall message_without_null messages ->
  exists messages' w',
    processMessagesForBase64 st messages w = (Return messages', w')
    /\ forall i message parts j part,
       messages !! i = Some message ->
       prop message "content" = Some (JArr parts) ->
       parts !! j = Some part ->
       part_kind_of part = Some ImagePart ->
       exists message' parts' wj part',
         w `prefix_of` wj
         /\ (image_part_upload st part wj).2 `prefix_of` w'
         /\ messages' !! i = Some message'
         /\ prop message' "content" = Some (JArr parts')
         /\ parts' !! j = Some part'
         /\ (forall payload,
               prop part "image" = Some (JStr payload) ->
               Text.nonempty payload = true ->
               if isDataUrl payload || isBase64 payload
               then
                 let run :=
                   uploadBase64ToS3 st (length wj) payload
                     (js_or (prop part "filename") (Some (JStr "image")))
                     (if isBase64 payload
                      then js_or (prop part "mimeType") (Some (JStr "image/jpeg"))
                      else None) in
                 (image_part_upload st part wj).1 = Some run
                 /\ (wj ++ [run]) `prefix_of` w'
                 /\ match run_result run with
                    | Uploaded url =>
                        prop part' "image" = Some (JStr url)
                        /\ prop part' "data" = prop part "data"
                        /\ prop part' "url" = prop part "url"
                    | Failed _ => part' = part
                    end
               else part' = part)
         /\ (truthy_opt (prop part "image") = false ->
             forall payload,
               prop part "data" = Some (JStr payload) ->
               Text.nonempty payload = true ->
               if isDataUrl payload || isBase64 payload
               then
                 let run :=
                   uploadBase64ToS3 st (length wj) payload
                     (js_or (prop part "filename") (Some (JStr "image")))
                     (if isBase64 payload
                      then js_or (prop part "mimeType") (Some (JStr "image/jpeg"))
                      else None) in
                 (image_part_upload st part wj).1 = Some run
                 /\ (wj ++ [run]) `prefix_of` w'
                 /\ match run_result run with
                    | Uploaded url =>
                        prop part' "data" = None
                        /\ prop part' "url" = Some (JStr url)
                        /\ prop part' "image" = prop part "image"
                    | Failed _ => part' = part
                    end
               else part' = part)
         /\ (truthy_opt (prop part "image") = true ->
             prop part' "data" = prop part "data"
             /\ prop part' "url" = prop part "url"
             /\ forall run, (image_part_upload st part wj).1 = Some run ->
                exists payload,
                  prop part "image" = Some (JStr payload)
                  /\ run = uploadBase64ToS3 st (length wj) payload
                             (js_or (prop part "filename") (Some (JStr "image")))
                             (if isBase64 payload
                              then js_or (prop part "mimeType") (Some (JStr "image/jpeg"))
                              else None)
                  /\ forall url, run_result run = Uploaded url ->
                     prop part' "image" = Some (JStr url))
         /\ (truthy_opt (prop part "image") = false ->
             forall run, (image_part_upload st part wj).1 = Some run ->
             exists payload,
               prop part "data" = Some (JStr payload)
               /\ run = uploadBase64ToS3 st (length wj) payload
                          (js_or (prop part "filename") (Some (JStr "image")))
                          (if isBase64 payload
                           then js_or (prop part "mimeType") (Some (JStr "image/jpeg"))
                           else None)
               /\ forall url, run_result run = Uploaded url ->
                  prop part' "data" = None
                  /\ prop part' "url" = Some (JStr url)
                  /\ prop part' "image" = prop part "image").
Proof.
  intros Hwf.
  destruct (messages_part_by_part st messages w Hwf)
    as (messages' & w' & Hrun & _ & Hparts).
  exists messages', w'. split; [done|].
  intros i message parts j part Hi Hc Hj Hk.
  destruct (Hparts i message parts j part Hi Hc Hj)
    as (message' & parts' & wj & Hw & Hafter & Hi' & Hc' & Hj').
  unfold part_upload in Hafter, Hj'. rewrite Hk in Hafter, Hj'. simpl in Hj'.
  eexists message', parts', wj, _.
  split; [done|]. split; [done|].
  split; [done|]. split; [done|]. split; [exact Hj'|].
  destruct (part_kind_object _ _ Hk) as [pfs ->].
  split; [|split; [|split]].
  - intros payload Himage Hne.
    assert (truthy_opt (prop (JObj pfs) "image") = true) as Htruthy.
    { by rewrite Himage. }
    assert (js_or (prop (JObj pfs) "image") (prop (JObj pfs) "data")
            = Some (JStr payload)) as Hor.
    { unfold js_or. by rewrite Htruthy. }
    rewrite (image_part_upload_string st _ payload wj Hk Hor Hne) in Hafter |- *.
    destruct (isDataUrl payload || isBase64 payload); [|reflexivity].
    cbv zeta. split; [reflexivity|]. split; [exact Hafter|]. simpl.
    destruct (run_result _) as [url|e]; [|reflexivity].
    apply (settle_image_fields_image truthy JStr url pfs Htruthy).
  - intros Himage payload Hdata Hne.
    assert (js_or (prop (JObj pfs) "image") (prop (JObj pfs) "data")
            = Some (JStr payload)) as Hor.
    { unfold js_or. by rewrite Himage. }
    rewrite (image_part_upload_string st _ payload wj Hk Hor Hne) in Hafter |- *.
    destruct (isDataUrl payload || isBase64 payload); [|reflexivity].
    cbv zeta. split; [reflexivity|]. split; [exact Hafter|]. simpl.
    destruct (run_result _) as [url|e]; [|reflexivity].
    apply (settle_image_fields_data truthy JStr url pfs Himage).
    simpl in Hdata. unfold prop_truthy. by rewrite Hdata.
  - intros Himage.
    destruct (image_part_upload st (JObj pfs) wj).1 as [run|] eqn:Hbegun; [|done].
    destruct (image_part_upload_begun st _ _ _ Hbegun) as (payload & Hv & _ & Hrun').
    unfold js_or in Hv. rewrite Himage in Hv.
    destruct (run_result run) as [url|e] eqn:Hres; simpl.
    + destruct (settle_image_fields_image truthy JStr url pfs Himage) as (Hi1 & Hd1 & Hu1).
      split; [exact Hd1|]. split; [exact Hu1|].
      intros run0 [= <-]. exists payload. split; [done|]. split; [done|].
      intros url0 Hres0. rewrite Hres in Hres0. by injection Hres0 as <-.
    + split; [done|]. split; [done|].
      intros run0 [= <-]. exists payload. split; [done|]. split; [done|].
      intros url0 Hres0. by rewrite Hres in Hres0.
  - intros Himage run Hbegun. rewrite Hbegun.
    destruct (image_part_upload_begun st _ _ _ Hbegun) as (payload & Hv & Hne & Hrun').
    unfold js_or in Hv. rewrite Himage in Hv.
    exists payload. split; [done|]. split; [done|]. intros url ->. simpl.
    apply (settle_image_fields_data truthy JStr); [done|].
    simpl in Hv. unfold prop_truthy. by rewrite Hv.
Qed.

End SubstitutionFacts.

(** ** The caller's objects *)
Section HeapFacts.
Import Heap.
Context (st : storage).

Lemma unchanged_in_refl (h : heap) : unchanged_in h h.
Proof. by intros l c. Qed.

Lemma unchanged_in_trans (h1 h2 h3 : heap) :
  unchanged_in h1 h2 -> unchanged_in h2 h3 -> unchanged_in h1 h3.
Proof. intros H12 H23 l c Hl. by apply H23, H12. Qed.

Lemma unchanged_in_app (h d : heap) : unchanged_in h (h ++ d).
Proof. intros l c Hl. by apply lookup_app_l_Some. Qed.

Lemma unchanged_in_length (h h' : heap) : unchanged_in h h' -> length h <= length h'.
Proof.
  intros Hu. destruct h as [|c h] using rev_ind; [simpl; lia|].
  assert ((h ++ [c]) !! length h = Some c) as Hl.
  { rewrite lookup_app_r by done. by rewrite Nat.sub_diag. }
  apply Hu, lookup_lt_Some in Hl. rewrite length_app. simpl. lia.
Qed.

Lemma new_value_mono (n m : nat) (v : hval) : n <= m -> new_value m v -> new_value n v.
Proof. destruct v; simpl; lia. Qed.

Lemma closed_from_snoc (n : nat) (h : heap) (c : cell) :
  closed_from n h -> new_cell n c -> closed_from n (h ++ [c]).
Proof.
  intros Hcl Hc l c' Hn Hl.
  apply lookup_app_Some in Hl as [Hl|[Hlen Hl]]; [by eapply Hcl|].
  destruct (l - length h) as [|k]; simpl in Hl; [|done]. by injection Hl as <-.
Qed.

(** [JSON.parse] leaves the objects there are alone and builds a closed
    region of new ones. *)
Lemma alloc_json_new (t : json) :
  forall h v h' n,
  alloc_json t h = (v, h') -> n <= length h -> closed_from n h ->
  unchanged_in h h' /\ new_value n v /\ closed_from n h'.
Proof.
  induction t as [|b|z|s|items IH|fs IH] using json_nested_ind;
    intros h v h' n Halloc Hn Hcl; simpl in Halloc;
    try (injection Halloc as <- <-; split; [apply unchanged_in_refl|by split]).
  - match type of Halloc with
    | (let '(vs, h') := ?each _ _ in _) = _ =>
        assert (forall h0 vs h1, each items h0 = (vs, h1) ->
                  n <= length h0 -> closed_from n h0 ->
                  unchanged_in h0 h1 /\ Forall (new_value n) vs /\ closed_from n h1)
          as Heach;
        [|destruct (each items h) as [vs h1] eqn:E]
    end.
    { clear Halloc. induction IH as [|x items Hx _ IHl]; intros h0 vs h1 E Hn0 Hcl0.
      - injection E as <- <-. repeat split; [apply unchanged_in_refl|done..].
      - destruct (alloc_json x h0) as [v0 h2] eqn:E0.
        destruct (Hx _ _ _ _ E0 Hn0 Hcl0) as (Hu0 & Hv0 & Hc0).
        match type of E with
        | (let '(vs, h') := ?e in _) = _ => destruct e as [vs' h3] eqn:E1
        end.
        injection E as <- <-.
        destruct (IHl _ _ _ E1) as (Hu1 & Hv1 & Hc1);
          [apply unchanged_in_length in Hu0; lia|done|].
        repeat split; [by eapply unchanged_in_trans|by constructor|done]. }
    injection Halloc as <- <-.
    destruct (Heach _ _ _ E Hn Hcl) as (Hu & Hvs & Hc).
    repeat split.
    + eapply unchanged_in_trans; [done|apply unchanged_in_app].
    + simpl. apply unchanged_in_length in Hu. lia.
    + by apply closed_from_snoc.
  - match type of Halloc with
    | (let '(vs, h') := ?each _ _ in _) = _ =>
        assert (forall h0 vs h1, each fs h0 = (vs, h1) ->
                  n <= length h0 -> closed_from n h0 ->
                  unchanged_in h0 h1 /\ Forall (fun p => new_value n p.2) vs
                  /\ closed_from n h1)
          as Heach;
        [|destruct (each fs h) as [vs h1] eqn:E]
    end.
    { clear Halloc. induction IH as [|[k x] fs Hx _ IHl]; intros h0 vs h1 E Hn0 Hcl0.
      - injection E as <- <-. repeat split; [apply unchanged_in_refl|done..].
      - simpl in Hx. destruct (alloc_json x h0) as [v0 h2] eqn:E0.
        destruct (Hx _ _ _ _ E0 Hn0 Hcl0) as (Hu0 & Hv0 & Hc0).
        match type of E with
        | (let '(vs, h') := ?e in _) = _ => destruct e as [vs' h3] eqn:E1
        end.
        injection E as <- <-.
        destruct (IHl _ _ _ E1) as (Hu1 & Hv1 & Hc1);
          [apply unchanged_in_length in Hu0; lia|done|].
        repeat split; [by eapply unchanged_in_trans|by constructor|done]. }
    injection Halloc as <- <-.
    destruct (Heach _ _ _ E Hn Hcl) as (Hu & Hvs & Hc).
    repeat split.
    + eapply unchanged_in_trans; [done|apply unchanged_in_app].
    + simpl. apply unchanged_in_length in Hu. lia.
    + by apply closed_from_snoc.
Qed.

Lemma Forall_set_prop {V} (P : string * V -> Prop) (k : string) (v : V) (fs : props V) :
  P (k, v) -> Forall P fs -> Forall P (set_prop k v fs).
Proof.
  intros Hv. induction 1 as [|[k' v'] r Hkv Hr IH]; simpl.
  - by constructor.
  - destruct (bool_decide (k' = k)); by constructor.
Qed.

Lemma Forall_delete_prop {V} (P : string * V -> Prop) (k : string) (fs : props V) :
  Forall P fs -> Forall P (delete_prop k fs).
Proof.
  induction 1 as [|[k' v'] r Hkv _ IH]; simpl; [done|].
  destruct (bool_decide (k' = k)); [done|]. by constructor.
Qed.

Lemma new_cell_assign (n : nat) (key : string) (value : hval) (result : props hval) :
  new_value n value -> new_cell n (CObj result) ->
  new_cell n (CObj (h_assign_result key value result)).
Proof.
  unfold h_assign_result. destruct (bool_decide _); [done|]. simpl.
  intros Hv Hr. by apply Forall_set_prop.
Qed.

Lemma h_upload_or_keep_new (fuel : nat) (h : heap) (s : string)
    (filename : option json) (mimeType : option hval) (w : world) (n : nat) :
  new_value n (h_upload_or_keep fuel st h s filename mimeType w).1.
Proof.
  unfold h_upload_or_keep. destruct (read_arg _ _ _); [|done].
  destruct (upload_or_keep _ _ _ _ _) as [[] ?]; done.
Qed.

Lemma h_walk_string (fuel : nat) (h : heap) (s : string) (filename : option json)
    (mimeType : option hval) (w : world) (out : outcome hval) (h' : heap) (w' : world) :
  h_replaceBase64InObject fuel st h (HStr s) filename mimeType w = (out, h', w') ->
  h' = h /\ exists v, out = Return v /\ forall n, new_value n v.
Proof.
  destruct fuel; cbn [h_replaceBase64InObject].
  all: destruct (is_data_url_string s).
  all: try (destruct (h_upload_or_keep _ st h s filename None w) as [v w1] eqn:E;
            intros [= <- <- <-]; split; [done|]; exists v; split; [done|]; intros n;
            change v with (v, w1).1; rewrite <- E; apply h_upload_or_keep_new).
  all: destruct (_ && _).
  all: try (destruct (h_upload_or_keep _ st h s filename mimeType w) as [v w1] eqn:E;
            intros [= <- <- <-]; split; [done|]; exists v; split; [done|]; intros n;
            change v with (v, w1).1; rewrite <- E; apply h_upload_or_keep_new).
  all: intros [= <- <- <-]; split; [done|]; by exists (HStr s).
Qed.

(** The walk leaves the objects there are alone; what it returns is new. *)
Lemma h_replaceBase64InObject_new (fuel : nat) :
  forall h obj filename mimeType w out h' w' n,
  h_replaceBase64InObject fuel st h obj filename mimeType w = (out, h', w') ->
  n <= length h -> closed_from n h ->
  unchanged_in h h' /\ closed_from n h'
  /\ forall v, out = Return v -> new_value n v.
Proof.
  induction fuel as [|fuel IH]; intros h obj filename mimeType w out h' w' n Hrun Hn Hcl.
  - destruct obj as [| | |s|l].
    4: { apply h_walk_string in Hrun as (-> & v & -> & Hv).
         split; [apply unchanged_in_refl|split; [done|]].
         by intros v' [= <-]. }
    all: simpl in Hrun; injection Hrun as <- <- <-;
      (split; [apply unchanged_in_refl|split; [done|]]); by intros v [= <-].
  - destruct obj as [| | |s|l].
    4: { apply h_walk_string in Hrun as (-> & v & -> & Hv).
         split; [apply unchanged_in_refl|split; [done|]].
         by intros v' [= <-]. }
    1-3: simpl in Hrun; injection Hrun as <- <- <-;
      (split; [apply unchanged_in_refl|split; [done|]]); by intros v [= <-].
    simpl in Hrun. destruct (h !! l) as [[fs|items]|] eqn:El.
    + lazymatch type of Hrun with
      | context [?entries fs [] h w] =>
          assert (forall l0 result h0 w0 o h1 w1,
                    entries l0 result h0 w0 = (o, h1, w1) ->
                    n <= length h0 -> closed_from n h0 -> new_cell n (CObj result) ->
                    unchanged_in h0 h1 /\ closed_from n h1
                    /\ forall r, o = Return r -> new_cell n (CObj r)) as Hentries;
          [|destruct (entries fs [] h w) as [[o h1] w1] eqn:E]
      end.
      { clear Hrun. induction l0 as [|[key value] r IHl];
          intros result h0 w0 o h1 w1 E Hn0 Hcl0 Hres; simpl in E.
        - injection E as <- <- <-.
          split; [apply unchanged_in_refl|split; [done|]]. by intros r1 [= <-].
        - destruct (h_replaceBase64InObject fuel st h0 value filename
                      (h_currentMimeType fs key mimeType) w0) as [[o0 h2] w2] eqn:E0.
          destruct (IH _ _ _ _ _ _ _ _ n E0 Hn0 Hcl0) as (Hu0 & Hc0 & Hv0).
          destruct o0 as [value'|e|].
          + destruct (IHl _ _ _ _ _ _ E) as (Hu1 & Hc1 & Hr1).
            { apply unchanged_in_length in Hu0. lia. }
            { done. }
            { apply new_cell_assign; [by apply Hv0|done]. }
            split; [by eapply unchanged_in_trans|by split].
          + injection E as <- <- <-. split; [done|split; [done|]]. by intros r1 [=].
          + injection E as <- <- <-. split; [done|split; [done|]]. by intros r1 [=]. }
      destruct (Hentries _ _ _ _ _ _ _ E Hn Hcl) as (Hu & Hc & Hr); [by constructor|].
      destruct o as [result|e|]; injection Hrun as <- <- <-.
      * split; [eapply unchanged_in_trans; [done|apply unchanged_in_app]|].
        split; [apply closed_from_snoc; [done|by apply Hr]|].
        intros v [= <-]. simpl. apply unchanged_in_length in Hu. lia.
      * split; [done|split; [done|]]. by intros v [=].
      * split; [done|split; [done|]]. by intros v [=].
    + lazymatch type of Hrun with
      | context [?each items h w] =>
          assert (forall l0 h0 w0 o h1 w1,
                    each l0 h0 w0 = (o, h1, w1) ->
                    n <= length h0 -> closed_from n h0 ->
                    unchanged_in h0 h1 /\ closed_from n h1
                    /\ forall r, o = Return r -> new_cell n (CArr r)) as Heach;
          [|destruct (each items h w) as [[o h1] w1] eqn:E]
      end.
      { clear Hrun. induction l0 as [|item r IHl];
          intros h0 w0 o h1 w1 E Hn0 Hcl0; simpl in E.
        - injection E as <- <- <-.
          split; [apply unchanged_in_refl|split; [done|]].
          intros r1 [= <-]. constructor.
        - destruct (h_replaceBase64InObject fuel st h0 item filename mimeType w0)
            as [[o0 h2] w2] eqn:E0.
          destruct (IH _ _ _ _ _ _ _ _ n E0 Hn0 Hcl0) as (Hu0 & Hc0 & Hv0).
          destruct o0 as [item'|e|].
          + lazymatch type of E with
            | context [?call r h2 w2] => destruct (call r h2 w2) as [[o1 h3] w3] eqn:E1
            end.
            destruct (IHl _ _ _ _ _ E1) as (Hu1 & Hc1 & Hr1).
            { apply unchanged_in_length in Hu0. lia. }
            { done. }
            destruct o1 as [r'|e|]; injection E as <- <- <-.
            * split; [by eapply unchanged_in_trans|split; [done|]].
              intros r1 [= <-]. constructor; [by apply Hv0|by apply Hr1].
            * split; [by eapply unchanged_in_trans|split; [done|]]. by intros r1 [=].
            * split; [by eapply unchanged_in_trans|split; [done|]]. by intros r1 [=].
          + injection E as <- <- <-. split; [done|split; [done|]]. by intros r1 [=].
          + injection E as <- <- <-. split; [done|split; [done|]]. by intros r1 [=]. }
      destruct (Heach _ _ _ _ _ _ E Hn Hcl) as (Hu & Hc & Hr).
      destruct o as [result|e|]; injection Hrun as <- <- <-.
      * split; [eapply unchanged_in_trans; [done|apply unchanged_in_app]|].
        split; [apply closed_from_snoc; [done|by apply Hr]|].
        intros v [= <-]. simpl. apply unchanged_in_length in Hu. lia.
      * split; [done|split; [done|]]. by intros v [=].
      * split; [done|split; [done|]]. by intros v [=].
    + injection Hrun as <- <- <-.
      split; [apply unchanged_in_refl|split; [done|]].
      intros v [= <-]. simpl. apply lookup_ge_None in El. lia.
Qed.

Lemma get_prop_Forall {V} (P : V -> Prop) (k : string) (fs : props V) (v : V) :
  Forall (fun p => P p.2) fs -> get_prop k fs = Some v -> P v.
Proof.
  induction 1 as [|[k' v'] r Hkv _ IH]; simpl; [done|].
  destruct (bool_decide (k' = k)); [by intros [= <-]|done].
Qed.

(** The items of an array reached through a property of a new object are
    new. *)
Lemma items_of_new (n : nat) (h : heap) (v : hval) (k : string) (items : list hval) :
  closed_from n h -> new_value n v ->
  items_of h (h_prop h v k) = Some items -> Forall (new_value n) items.
Proof.
  intros Hcl Hv. unfold items_of, h_prop.
  destruct v as [| | | |l]; try done. simpl in Hv.
  destruct (h !! l) as [[fs|]|] eqn:El; try done.
  destruct (get_prop k fs) as [[| | | |c]|] eqn:Ek; try done.
  destruct (h !! c) as [[|items']|] eqn:Ec; try done. intros [= <-].
  pose proof (Hcl l _ Hv El) as Hfs. simpl in Hfs.
  pose proof (get_prop_Forall (new_value n) k fs _ Hfs Ek) as Hc. simpl in Hc.
  by apply (Hcl c _ Hc Ec).
Qed.

Lemma h_pushed_target {K} (target : hval) (kind : K) (r : option upload_run)
    (P : hval -> Prop) :
  P target -> Forall (fun p => P (hp_target p)) (h_pushed target kind r).
Proof. intros Ht. destruct r; simpl; by repeat constructor. Qed.

Lemma h_scan_tool_content_new (fuel : nat) (filename : option json) (h : heap)
    (n : nat) (content : list hval) :
  Forall (new_value n) content ->
  forall w ps w', h_scan_tool_content fuel st filename h content w = (Return ps, w') ->
  Forall (fun p => new_value n (hp_target p)) ps.
Proof.
  induction 1 as [|item rest Hitem _ IH]; intros w ps w' Hscan; simpl in Hscan.
  - by injection Hscan as <- <-.
  - assert (match read_json fuel h item with
            | Some jitem =>
                let '(r, w1) := tool_item_upload st filename jitem w in
                match h_scan_tool_content fuel st filename h rest w1 with
                | (Return more, w2) => (Return (h_pushed item () r ++ more), w2)
                | (Throw e, w2) => (Throw e, w2)
                | (Pending, w2) => (Pending, w2)
                end
            | None => (Throw RangeError, w)
            end = (Return ps, w')) as Hscan'
      by (destruct item; [discriminate Hscan|exact Hscan..]).
    clear Hscan. destruct (read_json fuel h item) as [jitem|]; [|done].
    destruct (tool_item_upload st filename jitem w) as [r w1].
    destruct (h_scan_tool_content fuel st filename h rest w1) as [[more| |] w2] eqn:E;
      try done.
    injection Hscan' as <- <-. apply Forall_app. split; [by apply h_pushed_target|].
    by eapply IH.
Qed.

Lemma h_scan_parts_new (fuel : nat) (h : heap) (n : nat) (parts : list hval) :
  Forall (new_value n) parts ->
  forall w ps w', h_scan_parts fuel st h parts w = (Return ps, w') ->
  Forall (fun p => new_value n (hp_target p)) ps.
Proof.
  induction 1 as [|part rest Hpart _ IH]; intros w ps w' Hscan; simpl in Hscan.
  - by injection Hscan as <- <-.
  - assert (match read_json fuel h part with
            | Some jpart =>
                let '(r1, w1) := image_part_upload st jpart w in
                let '(r2, w2) := file_part_upload st jpart w1 in
                match h_scan_parts fuel st h rest w2 with
                | (Return more, w3) =>
                    (Return (h_pushed part ImagePart r1
                             ++ h_pushed part FilePart r2 ++ more), w3)
                | (Throw e, w3) => (Throw e, w3)
                | (Pending, w3) => (Pending, w3)
                end
            | None => (Throw RangeError, w)
            end = (Return ps, w')) as Hscan'
      by (destruct part; [discriminate Hscan|exact Hscan..]).
    clear Hscan. destruct (read_json fuel h part) as [jpart|]; [|done].
    destruct (image_part_upload st jpart w) as [r1 w1].
    destruct (file_part_upload st jpart w1) as [r2 w2].
    destruct (h_scan_parts fuel st h rest w2) as [[more| |] w3] eqn:E; try done.
    injection Hscan' as <- <-.
    repeat (apply Forall_app; split); try by apply h_pushed_target.
    by eapply IH.
Qed.

Lemma h_scan_messages_new (fuel : nat) (h : heap) (n : nat) (messages : list hval) :
  closed_from n h -> Forall (new_value n) messages ->
  forall w ps w', h_scan_messages fuel st h messages w = (Return ps, w') ->
  Forall (fun p => new_value n (hp_target p)) ps.
Proof.
  intros Hcl. induction 1 as [|message rest Hm _ IH]; intros w ps w' Hscan;
    simpl in Hscan.
  - by injection Hscan as <- <-.
  - assert (match
              match items_of h (h_prop h message "content") with
              | Some parts => h_scan_parts fuel st h parts w
              | None => (Return [], w)
              end
            with
            | (Return pushed, w1) =>
                match h_scan_messages fuel st h rest w1 with
                | (Return more, w2) => (Return (pushed ++ more), w2)
                | (Throw e, w2) => (Throw e, w2)
                | (Pending, w2) => (Pending, w2)
                end
            | (Throw e, w1) => (Throw e, w1)
            | (Pending, w1) => (Pending, w1)
            end = (Return ps, w')) as Hscan'
      by (destruct message; [discriminate Hscan|exact Hscan..]).
    clear Hscan.
    destruct (items_of h (h_prop h message "content")) as [parts|] eqn:Eparts.
    + destruct (h_scan_parts fuel st h parts w) as [[pushed| |] w1] eqn:E1; try done.
      destruct (h_scan_messages fuel st h rest w1) as [[more| |] w2] eqn:E2; try done.
      injection Hscan' as <- <-. apply Forall_app. split; [|by eapply IH].
      eapply h_scan_parts_new; [|done]. by eapply items_of_new.
    + destruct (h_scan_messages fuel st h rest w) as [[more| |] w2] eqn:E2; try done.
      injection Hscan' as <- <-. by eapply IH.
Qed.

(** An assignment through a new reference changes no object of the first
    [n], and keeps the region of new objects closed when the new
    properties hold new values. *)
Lemma update_fields_new (n : nat) (f : props hval -> props hval) (target : hval)
    (h : heap) :
  new_value n target -> closed_from n h ->
  (forall fs, new_cell n (CObj fs) -> new_cell n (CObj (f fs))) ->
  (forall l, l < n -> update_fields f target h !! l = h !! l)
  /\ closed_from n (update_fields f target h).
Proof.
  intros Ht Hcl Hf. unfold update_fields.
  destruct target as [| | | |t]; try done. simpl in Ht.
  destruct (h !! t) as [[fs|]|] eqn:Et; try done. split.
  - intros l Hl. apply list_lookup_insert_ne. lia.
  - intros l c Hn Hl. cbv beta iota in Hl. destruct (decide (t = l)) as [->|Hne].
    + rewrite list_lookup_insert_eq in Hl by (by eapply lookup_lt_Some).
      injection Hl as <-. apply Hf. by apply (Hcl l).
    + rewrite list_lookup_insert_ne in Hl by done. by apply (Hcl l).
Qed.

Lemma settle_tool_fields_new (n : nat) (url : string) (fs : props hval) :
  new_cell n (CObj fs) -> new_cell n (CObj (settle_tool_fields HStr url fs)).
Proof. intros H. apply Forall_set_prop; [done|]. by apply Forall_delete_prop. Qed.

Lemma settle_message_fields_new (n : nat) (kind : part_kind) (url : string)
    (fs : props hval) :
  new_cell n (CObj fs) ->
  new_cell n (CObj (settle_message_fields htruthy HStr kind url fs)).
Proof.
  intros H. simpl in *.
  assert (forall fs', Forall (fun p => new_value n p.2) fs' ->
            Forall (fun p => new_value n p.2) (drop_mimeType htruthy fs')) as Hdrop.
  { intros fs' H'. unfold drop_mimeType. destruct (prop_truthy _ _ _); [|done].
    by apply Forall_delete_prop. }
  destruct kind; simpl; unfold settle_image_fields, settle_file_fields; apply Hdrop.
  - destruct (prop_truthy _ _ _); [by apply Forall_set_prop|].
    destruct (prop_truthy _ _ _); [|done].
    apply Forall_set_prop; [done|]. by apply Forall_delete_prop.
  - apply Forall_set_prop; [done|]. by apply Forall_delete_prop.
Qed.

Lemma foldl_settle_new {K} (n : nat) (settle : heap -> h_promise K -> heap)
    (ps : list (h_promise K)) :
  (forall h p, new_value n (hp_target p) -> closed_from n h ->
     (forall l, l < n -> settle h p !! l = h !! l) /\ closed_from n (settle h p)) ->
  Forall (fun p => new_value n (hp_target p)) ps ->
  forall h, closed_from n h ->
  (forall l, l < n -> foldl settle h ps !! l = h !! l)
  /\ closed_from n (foldl settle h ps).
Proof.
  intros Hsettle. induction 1 as [|p ps Hp _ IH]; intros h Hcl; simpl; [done|].
  destruct (Hsettle h p Hp Hcl) as [Hsame Hcl'].
  destruct (IH _ Hcl') as [Hsame' Hcl'']. split; [|done].
  intros l Hl. by rewrite Hsame', Hsame.
Qed.

Lemma h_settle_tool_promise_new (n : nat) (h : heap) (p : h_promise unit) :
  new_value n (hp_target p) -> closed_from n h ->
  (forall l, l < n -> h_settle_tool_promise h p !! l = h !! l)
  /\ closed_from n (h_settle_tool_promise h p).
Proof.
  intros Hp Hcl. unfold h_settle_tool_promise.
  destruct (run_result (hp_run p)); [|done].
  apply update_fields_new; [done..|]. apply settle_tool_fields_new.
Qed.

Lemma h_settle_message_promise_new (n : nat) (h : heap) (p : h_promise part_kind) :
  new_value n (hp_target p) -> closed_from n h ->
  (forall l, l < n -> h_settle_message_promise h p !! l = h !! l)
  /\ closed_from n (h_settle_message_promise h p).
Proof.
  intros Hp Hcl. unfold h_settle_message_promise.
  destruct (run_result (hp_run p)); [|done].
  apply update_fields_new; [done..|]. apply settle_message_fields_new.
Qed.

Lemma closed_from_length (h : heap) : closed_from (length h) h.
Proof. intros l c Hl Hc. apply lookup_lt_Some in Hc. lia. Qed.

Lemma unchanged_in_below (h h1 h2 : heap) :
  unchanged_in h h1 -> (forall l, l < length h -> h2 !! l = h1 !! l) ->
  unchanged_in h h2.
Proof.
  intros Hu Hsame l c Hl. rewrite Hsame by (by eapply lookup_lt_Some). by apply Hu.
Qed.

Lemma items_of_value_new (n : nat) (h : heap) (v : hval) (items : list hval) :
  closed_from n h -> new_value n v ->
  items_of h (Some v) = Some items -> Forall (new_value n) items.
Proof.
  intros Hcl Hv. unfold items_of. destruct v as [| | | |c]; try done.
  destruct (h !! c) as [[|items']|] eqn:Ec; try done. intros [= <-].
  by apply (Hcl c _ Hv Ec).
Qed.

(** C3. The three entry points leave the caller's objects as they are.
    Run on a heap [h], whatever the storage does and whether the call
    returns or throws, every object of [h] is in the final heap as it
    was; and when the call returns, its value is a primitive or a
    reference to an object created by the call, and the objects created
    by the call refer to none of the objects of [h]: the substitutions
    are made in a copy.  This holds of the message list, of the
    arguments of a tool call, and of a tool result, with or without a
    content sequence. *)
Theorem caller_graph_unchanged (fuel : nat) (h : heap) (w : world) :
  (forall messages,
      let '(out, h', _) := h_processMessagesForBase64 fuel st h messages w in
      (forall l c, h !! l = Some c -> h' !! l = Some c)
      /\ forall v, returned out = Some v ->
         new_value (length h) v /\ closed_from (length h) h')
  /\ (forall toolName args,
      let '(out, h', _) := h_processToolCallForBase64 fuel st h toolName args w in
      (forall l c, h !! l = Some c -> h' !! l = Some c)
      /\ forall v, returned out = Some v ->
         new_value (length h) v /\ closed_from (length h) h')
  /\ (forall result filename,
      let '(out, h', _) := h_processToolResultForBase64 fuel st h result filename w in
      (forall l c, h !! l = Some c -> h' !! l = Some c)
      /\ forall v, returned out = Some v ->
         new_value (length h) v /\ closed_from (length h) h').
Proof.
  pose proof (closed_from_length h) as Hcl0.
  split; [|split].
  - intros messages. unfold h_processMessagesForBase64.
    destruct (read_json fuel h messages) as [t|]; [|by split].
    destruct (alloc_json t h) as [cloned h1] eqn:Ealloc.
    destruct (alloc_json_new t h cloned h1 (length h) Ealloc) as (Hu & Hv & Hcl);
      [lia|done|].
    destruct (items_of h1 (Some cloned)) as [msgs|] eqn:Emsgs.
    + pose proof (items_of_value_new _ _ _ _ Hcl Hv Emsgs) as Hmsgs.
      destruct (h_scan_messages fuel st h1 msgs w) as [[ps|e|] w'] eqn:Escan;
        [|by split..].
      rewrite await_uploads_all.
      pose proof (h_scan_messages_new fuel h1 _ msgs Hcl Hmsgs w ps w' Escan) as Hps.
      destruct (foldl_settle_new (length h) h_settle_message_promise ps
                  (h_settle_message_promise_new (length h)) Hps h1 Hcl)
        as [Hsame Hcl'].
      split; [by eapply unchanged_in_below|]. by intros v [= <-].
    + destruct cloned; (split; [done|]); try done; by intros v [= <-].
  - intros toolName args. unfold h_processToolCallForBase64.
    destruct (read_json fuel h args) as [t|]; [|by split].
    destruct (alloc_json t h) as [processedArgs h1] eqn:Ealloc.
    destruct (alloc_json_new t h processedArgs h1 (length h) Ealloc) as (Hu & Hv & Hcl);
      [lia|done|].
    destruct (read_arg fuel h1 _) as [filename'|]; [|by split].
    destruct (h_replaceBase64InObject fuel st h1 processedArgs filename' None w)
      as [[out h2] w'] eqn:Ewalk.
    destruct (h_replaceBase64InObject_new fuel _ _ _ _ _ _ _ _ (length h) Ewalk)
      as (Hu2 & Hcl2 & Hout); [by apply unchanged_in_length|done|].
    pose proof (unchanged_in_trans _ _ _ Hu Hu2) as Hu'.
    destruct out as [updatedArgs|e|]; [|by split..].
    split; [eapply unchanged_in_trans; [done|apply unchanged_in_app]|].
    intros v [= <-]. split.
    + simpl. by apply unchanged_in_length.
    + apply closed_from_snoc; [done|]. repeat constructor. by apply Hout.
  - intros result filename. unfold h_processToolResultForBase64.
    destruct (h_has_content_array h result).
    + destruct (read_json fuel h result) as [t|]; [|by split].
      destruct (alloc_json t h) as [cloned h1] eqn:Ealloc.
      destruct (alloc_json_new t h cloned h1 (length h) Ealloc) as (Hu & Hv & Hcl);
        [lia|done|].
      assert (Forall (new_value (length h))
                (default [] (items_of h1 (h_prop h1 cloned "content")))) as Hitems.
      { destruct (items_of h1 (h_prop h1 cloned "content")) as [items|] eqn:E; [|done].
        by eapply items_of_new. }
      destruct (h_scan_tool_content fuel st filename h1 _ w) as [[ps|e|] w'] eqn:Escan;
        [|by split..].
      rewrite await_uploads_all.
      pose proof (h_scan_tool_content_new fuel filename h1 _ _ Hitems w ps w' Escan)
        as Hps.
      destruct (foldl_settle_new (length h) h_settle_tool_promise ps
                  (h_settle_tool_promise_new (length h)) Hps h1 Hcl)
        as [Hsame Hcl'].
      split; [by eapply unchanged_in_below|]. by intros v [= <-].
    + destruct (h_replaceBase64InObject fuel st h result filename None w)
        as [[out h'] w'] eqn:Ewalk.
      destruct (h_replaceBase64InObject_new fuel _ _ _ _ _ _ _ _ (length h) Ewalk)
        as (Hu & Hcl & Hout); [lia|done|].
      split; [done|]. intros v Hv. destruct out; try done.
      injection Hv as <-. split; [by apply Hout|done].
Qed.

End HeapFacts.

(** ** Uploads in flight *)
Section ScheduleFacts.
Import Schedule.

Lemma peak_from_ge (flying : list nat) (trace : list event) :
  length flying <= peak_from flying trace.
Proof. destruct trace; simpl; lia. Qed.

(** Every command the scan hands to the storage client is in flight when
    the scan ends, whatever follows. *)
Lemma peak_from_scan_events (runs : list upload_run) :
  forall p flying rest,
  length flying + length (omap run_put runs)
  <= peak_from flying (scan_events p runs ++ rest).
Proof.
  induction runs as [|run runs IH]; intros p flying rest.
  - pose proof (peak_from_ge flying rest). simpl. lia.
  - assert (omap run_put (run :: runs)
            = match run_put run with
              | Some c => c :: omap run_put runs
              | None => omap run_put runs
              end) as -> by done.
    cbn [scan_events]. destruct (run_put run).
    + pose proof (IH (S p) (p :: flying) rest) as Hrec.
      cbn [app peak_from step_in_flight length] in *. lia.
    + apply IH.
Qed.

Lemma call_events_peak (runs : list upload_run) (order : list nat) :
  length (omap run_put runs) <= peak_in_flight (call_events runs order).1.
Proof.
  unfold call_events, peak_in_flight.
  pose proof (peak_from_scan_events runs 0 []) as Hpeak. simpl in Hpeak.
  destruct (0 <? length runs).
  - destruct (batches_of _ _) as [batches|].
    + destruct (await_batches 0 batches [] order) as [evs ok]. apply Hpeak.
    + simpl. specialize (Hpeak []). by rewrite app_nil_r in Hpeak.
  - simpl. specialize (Hpeak []). by rewrite app_nil_r in Hpeak.
Qed.

(** C1, on the code: the batches bound what is awaited, not what is in
    flight.  In a call of [processToolResultForBase64] or of
    [processMessagesForBase64] every command handed to the storage client
    during the scan is in flight at once, in whatever order the
    environment settles the promises; in a call of
    [processToolCallForBase64], which has no batches, so is every command
    sent in the first turn of the walk.  On the fifteen image items of
    the batching test, on a message of fifteen image parts and on
    arguments that are an array of fifteen data URIs the peak is at
    least 15, above [MAX_CONCURRENT_UPLOADS].  With the promises settling
    in order the call on the tool result starts its fifteen uploads, then
    awaits two batches, of ten and of five promises, and returns; the
    peak is 15. *)
Theorem uploads_in_flight_exceed_batch_size :
  (forall st result filename w order,
      length (omap run_put (tool_result_promises st result filename w))
      <= peak_in_flight (tool_result_events st result filename w order).1)
  /\ (forall st messages w order,
      length (omap run_put (messages_promises st messages w))
      <= peak_in_flight (messages_events st messages w order).1)
  /\ (forall st args w later,
      length (omap run_put (tool_call_first_turn st args w))
      <= peak_in_flight (tool_call_events st args w later))
  /\ (forall order later,
      MAX_CONCURRENT_UPLOADS < 15
      /\ 15 <= peak_in_flight
                 (tool_result_events Fixtures.test_storage (Fixtures.image_items 15)
                    None [] order).1
      /\ 15 <= peak_in_flight
                 (messages_events Fixtures.test_storage (Fixtures.image_message 15)
                    [] order).1
      /\ 15 <= peak_in_flight
                 (tool_call_events Fixtures.test_storage (Fixtures.data_urls 15)
                    [] later))
  /\ tool_result_events Fixtures.test_storage (Fixtures.image_items 15) None []
       (seq 0 15)
     = (map Started (seq 0 15)
        ++ map Settled (seq 0 10) ++ [BatchAwaited 0]
        ++ map Settled (seq 10 5) ++ [BatchAwaited 1], true)
  /\ peak_in_flight
       (tool_result_events Fixtures.test_storage (Fixtures.image_items 15) None []
          (seq 0 15)).1 = 15.
Proof.
  split; [|split; [|split; [|split; [|split]]]].
  - intros st result filename w order. apply call_events_peak.
  - intros st messages w order. apply call_events_peak.
  - intros st args w later. apply (peak_from_scan_events _ 0 []).
  - intros order later. split; [unfold MAX_CONCURRENT_UPLOADS; lia|].
    split; [|split].
    + etrans; [|apply call_events_peak]. by vm_compute.
    + etrans; [|apply call_events_peak]. by vm_compute.
    + etrans; [|apply (peak_from_scan_events _ 0 [])]. by vm_compute.
  - by vm_compute.
  - by vm_compute.
Qed.

End ScheduleFacts.

(** ** Scenarios *)
Section Scenarios.
Import Fixtures SpecWords.

(** Scenario A of the specification. *)
Example scenario_A :
  uploadBase64ToS3 test_storage 0 "data:image/png;base64,iVBORw0KGgo="
    (Some (JStr "shot.png")) None
  = {| run_put := Some {| put_bucket := "test-bucket";
                          put_key := "uploads/test-uuid-1234/shot.png";
                          put_body_base64 := "iVBORw0KGgo=";
                          put_content_type := JStr "image/png";
                          put_acl := "public-read" |};
       run_sign := Some ({| get_bucket := "test-bucket";
                            get_key := "uploads/test-uuid-1234/shot.png" |}, 604800%Z);
       run_result := Uploaded "https://test-presigned-url.com" |}.
Proof. reflexivity. Qed.

(** Scenario B of the specification. *)
Example scenario_B :
  option_map put_key
    (run_put (uploadBase64ToS3 test_storage 0 "JVBERi0" None
                (Some (JStr "application/pdf"))))
  = Some "uploads/test-uuid-1234/file.pdf".
Proof. reflexivity. Qed.

(** The extensions of the test "should map common MIME types to correct
    extensions", and some names with and without an extension. *)
Example extensions :
  map (fun mime => getExtensionFromMimeType (JStr mime))
      ["image/jpeg"; "video/mp4"; "unknown/type"; "application/octet-stream";
       "image/"; "plain"]
  = [Some "jpg"; Some "mp4"; Some "type"; Some "bin"; Some "bin"; Some "bin"]
  /\ map Text.has_extension ["shot.png"; "archive.tar.gz"; "screenshot"; "v1.2-beta"; "a."]
     = [true; true; false; false; false].
Proof. by split. Qed.

(** The test "should process tool result with content array". *)
Example tool_result_processed :
  (processToolResultForBase64 test_storage (JObj screenshot_result)
     (Some (JStr "screenshot")) []).1
  = Return (JObj
      [("content",
        JArr [JObj [("type", JStr "image"); ("mimeType", JStr "image/png");
                    ("url", JStr "https://test-presigned-url.com")];
              JObj [("type", JStr "text"); ("text", JStr "Screenshot captured")];
              JObj [("type", JStr "image"); ("mimeType", JStr "image/jpeg");
                    ("url", JStr "https://test-presigned-url.com")]])]).
Proof. reflexivity. Qed.

(** The test "should continue processing when individual uploads fail":
    the first command is rejected, the second accepted. *)
Example one_upload_fails :
  (processMessagesForBase64 (flaky_storage [0]) two_images []).1
  = Return
      [JObj [("role", JStr "user");
             ("content",
              JArr [JObj [("type", JStr "image");
                          ("data", JStr "data:image/png;base64,fail")];
                    JObj [("type", JStr "image");
                          ("url", JStr "https://signed/uploads/uuid-1/image.png")]])]].
Proof. reflexivity. Qed.

(** An image part with both fields: [image] is uploaded and replaced,
    [data] stays, [mimeType] goes. *)
Example image_and_data_processed :
  (processMessagesForBase64 test_storage image_and_data []).1
  = Return
      [JObj [("role", JStr "user");
             ("content",
              JArr [JObj [("type", JStr "image");
                          ("image", JStr "https://test-presigned-url.com");
                          ("data", JStr "data:image/png;base64,BBBB")]])]]
  /\ map put_body_base64
       (puts_sent (processMessagesForBase64 test_storage image_and_data []).2)
     = ["AAAA"].
Proof. by split. Qed.

(** A member [null] makes the scans throw. *)
Example null_part_throws :
  (processMessagesForBase64 test_storage [JNull] []).1 = Throw TypeError
  /\ (processToolResultForBase64 test_storage (JObj [("content", JArr [JNull])])
        None []).1 = Throw TypeError.
Proof. by split. Qed.

(** The heap run of the same tool result gives the same tree, in new
    objects; the four objects of the caller are as they were. *)
Example heap_tool_result_processed :
  let '(out, h', _) :=
    Heap.h_processToolResultForBase64 10 test_storage screenshot_heap
      (Heap.HRef 3) (Some (JStr "screenshot")) [] in
  out = Return (Heap.HRef 7)
  /\ take 4 h' = screenshot_heap
  /\ Heap.read_json 10 h' (Heap.HRef 7)
     = Some (JObj
         [("content",
           JArr [JObj [("type", JStr "image"); ("mimeType", JStr "image/png");
                       ("url", JStr "https://test-presigned-url.com")];
                 JObj [("type", JStr "text"); ("text", JStr "Screenshot captured")]])]).
Proof. by repeat split. Qed.

(** Shared objects.  A content array that holds one item object twice:
    the clone holds two objects, each gets its upload and its URL, the
    caller's three objects are as they were, and the graph returned reads
    as the tree the run on trees returns. *)
Example heap_shared_item_processed :
  let st := flaky_storage [] in
  let '(out, h', w') :=
    Heap.h_processToolResultForBase64 10 st shared_item_heap (Heap.HRef 2) None [] in
  take 3 h' = shared_item_heap
  /\ out = Return (Heap.HRef 6)
  /\ h' !! 5 = Some (Heap.CArr [Heap.HRef 3; Heap.HRef 4])
  /\ (t ← Heap.read_json 10 shared_item_heap (Heap.HRef 2);
      Some (processToolResultForBase64 st t None []))
     = (t' ← Heap.read_json 10 h' (Heap.HRef 6); Some (Return t', w')).
Proof. by repeat split. Qed.

(** The same for a message list that holds one message object twice. *)
Example heap_shared_message_processed :
  let '(out, h', w') :=
    Heap.h_processMessagesForBase64 10 test_storage shared_message_heap
      (Heap.HRef 3) [] in
  take 4 h' = shared_message_heap
  /\ out = Return (Heap.HRef 10)
  /\ h' !! 10 = Some (Heap.CArr [Heap.HRef 6; Heap.HRef 9])
  /\ (t ← Heap.read_json 10 shared_message_heap (Heap.HRef 3);
      match t with
      | JArr messages => Some (processMessagesForBase64 test_storage messages [])
      | _ => None
      end)
     = (t' ← Heap.read_json 10 h' (Heap.HRef 10);
        match t' with
        | JArr messages' => Some (Return messages', w')
        | _ => None
        end).
Proof. by repeat split. Qed.

End Scenarios.

(** ** The theorems at concrete inputs *)
Section Witnesses.
Import Fixtures SpecWords.

Ltac no_nulls := repeat (first [done | constructor | split]; simpl).

Lemma two_images_without_null : Forall message_without_null two_images.
Proof. no_nulls. Qed.

Lemma image_and_data_without_null : Forall message_without_null image_and_data.
Proof. no_nulls. Qed.





Lemma failing_result_content :
  get_prop "content" failing_result
  = Some (JArr [JObj [("type", JStr "image");
                      ("data", JStr "data:image/png;base64,fail");
                      ("mimeType", JStr "image/png")];
                JObj [("type", JStr "text"); ("text", JStr "Two screenshots")];
                JObj [("type", JStr "image");
                      ("data", JStr "data:image/png;base64,success");
                      ("mimeType", JStr "image/png")]]).
Proof. reflexivity. Qed.

(** One upload refused among several: in a tool result, in a message and
    in tool-call arguments the refused payload stays and the other one
    is replaced by its URL. *)
Lemma failed_upload_leaves_item_witness :
  (exists content' w' third,
      processToolResultForBase64 picky_storage (JObj failing_result) None []
      = (Return (JObj (set_prop "content" (JArr content') failing_result)), w')
      /\ content' !! 0 = Some (JObj [("type", JStr "image");
                                     ("data", JStr "data:image/png;base64,fail");
                                     ("mimeType", JStr "image/png")])
      /\ content' !! 1 = Some (JObj [("type", JStr "text");
                                     ("text", JStr "Two screenshots")])
      /\ content' !! 2 = Some third
      /\ prop third "data" = None
      /\ prop third "url"
         = Some (JStr "https://signed/uploads/test-uuid-1234/screenshot.png")
      /\ prop third "mimeType" = Some (JStr "image/png"))
  /\ (exists messages' w' message' parts' second,
      processMessagesForBase64 picky_storage two_images [] = (Return messages', w')
      /\ messages' !! 0 = Some message'
      /\ prop message' "content" = Some (JArr parts')
      /\ parts' !! 0 = Some (JObj [("type", JStr "image");
                                   ("data", JStr "data:image/png;base64,fail")])
      /\ parts' !! 1 = Some second
      /\ prop second "data" = None
      /\ prop second "url" = Some (JStr "https://signed/uploads/test-uuid-1234/image.png"))
  /\ (exists new,
      processToolCallForBase64 picky_storage (JStr "upload") failing_args []
      = ((JStr "upload",
          JObj [("before", JStr "data:image/png;base64,fail");
                ("after", JArr [JStr "https://signed/uploads/test-uuid-1234/file.png";
                                JNum 2])]),
         new)
      /\ Walk.shape_rel (Walk.walked_string picky_storage None new) failing_args
           (JObj [("before", JStr "data:image/png;base64,fail");
                  ("after", JArr [JStr "https://signed/uploads/test-uuid-1234/file.png";
                                  JNum 2])]))
  /\ processToolCallForBase64 picky_storage (JStr "upload")
       (JObj [("__proto__", JStr "data:image/png;base64,fail");
              ("note", JStr "kept")]) []
     = ((JStr "upload", JObj [("note", JStr "kept")]),
        [uploadBase64ToS3 picky_storage 0 "data:image/png;base64,fail" None None]).
Proof.
  destruct (failed_upload_leaves_item picky_storage)
    as (Htool & Hmsgs & Hwalk & _ & Hproto).
  split; [|split; [|split]].
  - destruct (Htool failing_result _ None [] failing_result_content)
      as (content' & w' & Hrun & Hitems).
    { no_nulls. }
    destruct (Hitems 0 _ eq_refl) as (wj0 & first & _ & Hfirst & Hup0 & _).
    destruct (Hup0 ImagePart "data:image/png;base64,fail"%string
                eq_refl eq_refl eq_refl eq_refl) as [_ Hsame].
    destruct (Hitems 1 _ eq_refl) as (wj1 & text & _ & Htext & _ & Hno).
    destruct (Hitems 2 _ eq_refl) as (wj2 & third & _ & Hthird & Hup2 & _).
    destruct (Hup2 ImagePart "data:image/png;base64,success"%string
                eq_refl eq_refl eq_refl eq_refl) as (_ & Hdata & Hurl & Hother).
    exists content', w', third.
    split; [exact Hrun|]. split; [by rewrite Hfirst, Hsame|].
    split; [by rewrite Htext, (Hno eq_refl)|]. split; [exact Hthird|].
    split; [exact Hdata|]. split; [exact Hurl|]. by apply Hother.
  - destruct (Hmsgs two_images [] two_images_without_null)
      as (messages' & w' & Hrun & _ & Hparts).
    destruct (Hparts 0 _ _ 0 _ eq_refl eq_refl eq_refl)
      as (message' & parts' & wj0 & first & _ & Hi & Hc & Hfirst & Hup0 & _).
    destruct (Hup0 "data:image/png;base64,fail"%string eq_refl eq_refl eq_refl eq_refl)
      as [_ Hsame].
    destruct (Hparts 0 _ _ 1 _ eq_refl eq_refl eq_refl)
      as (message2 & parts2 & wj1 & second & _ & Hi2 & Hc2 & Hsecond & Hup1 & _).
    destruct (Hup1 "data:image/png;base64,success"%string eq_refl eq_refl eq_refl eq_refl)
      as (_ & Hdata & Hurl).
    rewrite Hi in Hi2. injection Hi2 as <-.
    rewrite Hc in Hc2. injection Hc2 as <-.
    exists messages', w', message', parts', second.
    split; [exact Hrun|]. split; [exact Hi|]. split; [exact Hc|].
    split; [by rewrite Hfirst, Hsame|]. split; [exact Hsecond|].
    split; [exact Hdata|exact Hurl].
  - destruct (Hwalk (JStr "upload") failing_args [])
      as (new & args' & Hcall & _ & Hshape).
    exists new.
    assert (args' = JObj [("before", JStr "data:image/png;base64,fail");
                          ("after",
                           JArr [JStr "https://signed/uploads/test-uuid-1234/file.png";
                                 JNum 2])]) as <-; [|by split; [|apply Hshape]].
    by injection Hcall as <- _.
  - exact (Hproto (JStr "upload") "data:image/png;base64,fail"%string "kept"%string []
             eq_refl).
Defined.






Lemma raw_base64_decision_witness :
  replaceBase64InObject test_storage (JStr "QUJD") None (Some (JStr "image/png")) []
  = upload_or_keep test_storage "QUJD" None (Some (JStr "image/png")) []
  /\ replaceBase64InObject test_storage (JStr "QUJD") None None [] = (JStr "QUJD", [])
  /\ (tool_item_upload test_storage None
        (JObj [("type", JStr "image"); ("data", JStr "def456")]) []).2
     = [uploadBase64ToS3 test_storage 0 "def456" (Some (JStr "screenshot"))
          (Some (JStr "image/jpeg"))].
Proof.
  destruct raw_base64_decision as (_ & Hwalk & Htool & _).
  split; [|split].
  - exact (Hwalk test_storage "QUJD" None (Some (JStr "image/png")) [] eq_refl).
  - exact (Hwalk test_storage "QUJD" None None [] eq_refl).
  - exact (f_equal snd
             (Htool test_storage None
                (JObj [("type", JStr "image"); ("data", JStr "def456")])
                ImagePart "def456" [] eq_refl eq_refl eq_refl)).
Defined.

(** The first item of the tool result of the test suite, and the image
    part of a message that has a [mimeType]. *)
Lemma tool_result_keeps_mimeType_witness :
  (exists content' w' item',
      processToolResultForBase64 test_storage (JObj screenshot_result) None []
      = (Return (JObj (set_prop "content" (JArr content') screenshot_result)), w')
      /\ content' !! 0 = Some item'
      /\ prop item' "data" = None
      /\ prop item' "url" = Some (JStr "https://test-presigned-url.com")
      /\ prop item' "mimeType" = Some (JStr "image/png")
      /\ prop item' "type" = Some (JStr "image"))
  /\ (exists messages' w' message' parts' part',
      processMessagesForBase64 test_storage image_and_data [] = (Return messages', w')
      /\ messages' !! 0 = Some message'
      /\ prop message' "content" = Some (JArr parts')
      /\ parts' !! 0 = Some part'
      /\ truthy_opt (prop part' "mimeType") = false
      /\ prop part' "mimeType" = None).
Proof.
  destruct (tool_result_keeps_mimeType test_storage) as (Htool & Hmsgs). split.
  - destruct (Htool screenshot_result _ None [] eq_refl) as (content' & w' & Hrun & Hitems).
    { no_nulls. }
    destruct (Hitems 0 _ eq_refl) as (wj & item' & _ & _ & Hitem & Hsub).
    destruct (Hsub (uploadBase64ToS3 test_storage (length wj)
                      "data:image/png;base64,abc123"
                      (Some (JStr "screenshot")) None)
                   "https://test-presigned-url.com" eq_refl eq_refl)
      as (Hdata & Hurl & Hmime & Hother).
    exists content', w', item'. split; [exact Hrun|]. split; [exact Hitem|].
    split; [exact Hdata|]. split; [exact Hurl|]. split; [exact Hmime|].
    by apply Hother.
  - destruct (Hmsgs image_and_data [] image_and_data_without_null)
      as (messages' & w' & Hrun & Hparts).
    destruct (Hparts 0 _ _ 0 _ eq_refl eq_refl eq_refl)
      as (message' & parts' & wj & part' & _ & _ & Hi & Hc & Hj & Hsub).
    destruct (Hsub (uploadBase64ToS3 test_storage (length wj)
                      "data:image/png;base64,AAAA" (Some (JStr "image")) None)
                   "https://test-presigned-url.com" eq_refl eq_refl)
      as (Hfalsy & Hgone).
    exists messages', w', message', parts', part'.
    split; [exact Hrun|]. split; [exact Hi|]. split; [exact Hc|]. split; [exact Hj|].
    split; [exact Hfalsy|]. by apply Hgone.
Defined.

(** An image part with both fields: the upload is of the string held by
    [image], the URL replaces it, [data] stays and no [url] is added. *)
Lemma image_field_takes_precedence_witness :
  exists messages' w' message' parts' wj part',
    processMessagesForBase64 test_storage image_and_data [] = (Return messages', w')
    /\ messages' !! 0 = Some message'
    /\ prop message' "content" = Some (JArr parts')
    /\ parts' !! 0 = Some part'
    /\ (wj ++ [uploadBase64ToS3 test_storage 0 "data:image/png;base64,AAAA"
                 (Some (JStr "image")) None]) `prefix_of` w'
    /\ put_body_base64
         <$> run_put (uploadBase64ToS3 test_storage 0 "data:image/png;base64,AAAA"
                        (Some (JStr "image")) None)
       = Some "AAAA"%string
    /\ prop part' "image" = Some (JStr "https://test-presigned-url.com")
    /\ prop part' "data" = Some (JStr "data:image/png;base64,BBBB")
    /\ prop part' "url" = None.
Proof.
  destruct (image_field_takes_precedence test_storage image_and_data []
              image_and_data_without_null) as (messages' & w' & Hrun & Hparts).
  destruct (Hparts 0 _ _ 0 _ eq_refl eq_refl eq_refl eq_refl)
    as (message' & parts' & wj & part' & _ & _ & Hi & Hc & Hj & Himage & _).
  destruct (Himage "data:image/png;base64,AAAA"%string eq_refl eq_refl)
    as (_ & Hcall & Himg & Hdata & Hurl).
  exists messages', w', message', parts', wj, part'.
  split; [exact Hrun|]. split; [exact Hi|]. split; [exact Hc|]. split; [exact Hj|].
  split; [exact Hcall|]. split; [reflexivity|].
  split; [exact Himg|]. split; [exact Hdata|]. exact Hurl.
Defined.

Lemma caller_graph_unchanged_witness :
  let '(out, h', _) :=
    Heap.h_processToolResultForBase64 10 test_storage screenshot_heap
      (Heap.HRef 3) None [] in
  (forall l c, screenshot_heap !! l = Some c -> h' !! l = Some c)
  /\ forall v, Heap.returned out = Some v ->
     Heap.new_value 4 v /\ Heap.closed_from 4 h'.
Proof.
  exact (proj2 (proj2 (caller_graph_unchanged test_storage 10 screenshot_heap []))
           (Heap.HRef 3) None).
Defined.

End Witnesses.

(* ===================================================================== *)
(** * Part III. Further properties of the same code *)
(* ===================================================================== *)

(** ** The wrapper on a sequence of inbound messages *)
Section InboundFacts.
Import Transport Inbound.

Lemma sent_of_app (es es' : list effect) : sent_of (es ++ es') = sent_of es ++ sent_of es'.
Proof. apply omap_app. Qed.

Lemma delivered_of_app (es es' : list effect) :
  delivered_of (es ++ es') = delivered_of es ++ delivered_of es'.
Proof. apply omap_app. Qed.

Lemma reported_of_app (es es' : list effect) :
  reported_of (es ++ es') = reported_of es ++ reported_of es'.
Proof. apply omap_app. Qed.

(** What one inbound message contributes before its handler returns. *)
Lemma one_inbound (wr : wrapper) (m : message) :
  delivered_of (in_turn wr m) = (if onmessage wr && negb (is_ping m) then [m] else [])
  /\ sent_of (in_turn wr m)
     = (if is_ping m
        then match get_prop "id" m with Some id => [pong id] | None => [] end
        else [])
  /\ reported_of (in_turn wr m) = [].
Proof.
  unfold in_turn, originalTransport_onmessage, handlePing.
  destruct (is_ping m).
  - rewrite andb_false_r. by destruct (get_prop "id" m).
  - rewrite andb_true_r. by destruct (onmessage wr).
Qed.

(** What the [catch] handler of a rejected send contributes. *)
Lemma one_rejection (wr : wrapper) (error : string) :
  delivered_of (catch_rejection wr error) = []
  /\ sent_of (catch_rejection wr error) = []
  /\ reported_of (catch_rejection wr error) = (if onerror wr then [error] else []).
Proof. unfold catch_rejection. by destruct (onerror wr). Qed.

Lemma inbound_run_facts (wr : wrapper) (rejection : nat -> option string)
    (n : nat) (ms : list message) (pending : list string) (trace : list effect) :
  inbound_run wr rejection n ms pending trace ->
  delivered_of trace
  = (if onmessage wr then filter (fun m => is_ping m = false) ms else [])
  /\ sent_of trace
     = pong <$> omap (get_prop "id") (filter (fun m => is_ping m = true) ms)
  /\ reported_of trace
     ≡ₚ (if onerror wr then pending ++ rejections rejection n ms else []).
Proof.
  induction 1 as [n|n m ms pending trace _ (IHd & IHs & IHr)
                 |n ms before error after trace _ (IHd & IHs & IHr)].
  - by destruct (onmessage wr), (onerror wr).
  - destruct (one_inbound wr m) as (Hd & Hs & Hr).
    rewrite delivered_of_app, sent_of_app, reported_of_app, IHd, IHs, Hd, Hs, Hr.
    rewrite !filter_cons. split; [|split].
    + destruct (is_ping m) eqn:Hp; simpl.
      * by rewrite andb_false_r.
      * rewrite andb_true_r. by destruct (onmessage wr).
    + destruct (is_ping m) eqn:Hp; simpl; [|done]. by destruct (get_prop "id" m).
    + rewrite IHr. destruct (onerror wr); [|done]. simpl. by rewrite (assoc_L (++)).
  - destruct (one_rejection wr error) as (Hd & Hs & Hr).
    rewrite delivered_of_app, sent_of_app, reported_of_app, IHd, IHs, Hd, Hs, Hr.
    split; [done|]. split; [done|].
    rewrite IHr. destruct (onerror wr); [|done]. simpl.
    rewrite <- !(assoc_L (++)). simpl. by rewrite Permutation_middle.
Qed.

(** Whatever is pending, the wrapper can go on to the end. *)
Lemma inbound_run_exists (wr : wrapper) (rejection : nat -> option string)
    (ms : list message) (n : nat) (pending : list string) :
  exists trace, inbound_run wr rejection n ms pending trace.
Proof.
  revert n pending. induction ms as [|m ms IH]; intros n pending.
  - induction pending as [|error pending [trace Htrace]].
    + exists []. constructor.
    + exists (catch_rejection wr error ++ trace).
      by apply (run_rejected wr rejection n [] [] error pending).
  - destruct (IH (S n) (pending ++ new_pending rejection n m)) as [trace Htrace].
    exists (in_turn wr m ++ trace). by constructor.
Qed.

(** X15. Over any sequence of inbound messages the wrapper is a filter
    that keeps the order.  In every run, whenever the rejections of the
    sends are reported: the owner's [onmessage], when set, gets exactly
    the messages that are not pings, in the order they came; the
    underlying transport is sent exactly one response per ping that has
    an [id], in the order of the pings, whether or not the owner has set
    any callback; and the owner's [onerror], when set, gets the
    rejections of those sends, each one once, in some order.  There is
    such a run for every sequence. *)
Theorem inbound_sequence_filtered (wr : wrapper) (rejection : nat -> option string)
    (ms : list message) :
  (exists trace, inbound_run wr rejection 0 ms [] trace)
  /\ (forall trace,
      inbound_run wr rejection 0 ms [] trace ->
      delivered_of trace
      = (if onmessage wr then filter (fun m => is_ping m = false) ms else [])
      /\ sent_of trace
         = pong <$> omap (get_prop "id") (filter (fun m => is_ping m = true) ms)
      /\ reported_of trace
         ≡ₚ (if onerror wr then rejections rejection 0 ms else [])).
Proof.
  split; [apply inbound_run_exists|].
  intros trace Hrun. exact (inbound_run_facts wr rejection 0 ms [] trace Hrun).
Qed.

End InboundFacts.

Lemma inbound_sequence_filtered_witness :
  Inbound.inbound_run Inbound.listening Inbound.both_reject 0 Inbound.two_pings []
    Inbound.late_reports
  /\ Transport.delivered_of Inbound.late_reports
     = [ [("jsonrpc", Js.JStr "2.0"); ("method", Js.JStr "notifications/progress")] ]
  /\ Transport.sent_of Inbound.late_reports
     = [Transport.pong (Js.JNum 1); Transport.pong (Js.JNum 2)]
  /\ Inbound.reported_of Inbound.late_reports ≡ₚ ["first"; "second"]%string.
Proof.
  assert (Inbound.inbound_run Inbound.listening Inbound.both_reject 0
            Inbound.two_pings [] Inbound.late_reports) as Hrun.
  { change Inbound.late_reports
      with (Inbound.in_turn Inbound.listening
              [("jsonrpc", Js.JStr "2.0"); ("id", Js.JNum 1); ("method", Js.JStr "ping")]
            ++ Inbound.in_turn Inbound.listening
                 [("jsonrpc", Js.JStr "2.0"); ("method", Js.JStr "notifications/progress")]
            ++ Inbound.in_turn Inbound.listening
                 [("jsonrpc", Js.JStr "2.0"); ("id", Js.JNum 2); ("method", Js.JStr "ping")]
            ++ Inbound.catch_rejection Inbound.listening "second"
            ++ Inbound.catch_rejection Inbound.listening "first" ++ []).
    apply (Inbound.run_message _ _ 0 _ _ []).
    apply (Inbound.run_message _ _ 1 _ _ ["first"%string]).
    apply (Inbound.run_message _ _ 2 _ _ ["first"%string]).
    apply (Inbound.run_rejected _ _ 3 [] ["first"%string] "second" []).
    apply (Inbound.run_rejected _ _ 3 [] [] "first" []).
    constructor. }
  split; [exact Hrun|].
  exact (proj2 (inbound_sequence_filtered Inbound.listening Inbound.both_reject
                  Inbound.two_pings) Inbound.late_reports Hrun).
Defined.

(** ** Data URIs *)
Section DataUrlFacts.
Import Text.

Lemma starts_with_spec (p s : string) :
  starts_with p s = true <-> exists r, s = p +:+ r.
Proof.
  revert s. induction p as [|a p IH]; intros s.
  - split; [by exists s|done].
  - destruct s as [|b s]; simpl.
    + split; [done|]. by intros [r [=]].
    + rewrite andb_true_iff, bool_decide_eq_true, IH. split.
      * intros [-> [r ->]]. by exists r.
      * intros [r [= -> ->]]. eauto.
Qed.

(** The colon of [data:] is no character of the base64 test. *)
Lemma data_prefix_not_base64 (s : string) :
  starts_with "data:" s = true -> looks_like_base64 s = false.
Proof. intros [r ->]%starts_with_spec. reflexivity. Qed.

Lemma data_prefix_nonempty (s : string) : starts_with "data:" s = true -> nonempty s = true.
Proof. by destruct s. Qed.

(** What [one_line] refuses: the characters LF and CR and the two
    separators U+2028 and U+2029, wherever they stand. *)
Lemma one_line_spec (s : string) :
  one_line s = true
  <-> all_chars (fun c => negb (is_line_terminator c)) s = true
      /\ includes line_separator s = false
      /\ includes paragraph_separator s = false.
Proof.
  induction s as [|c s IH]; [done|].
  change (one_line (String c s))
    with (negb (is_line_terminator c)
          && negb (starts_with line_separator (String c s))
          && negb (starts_with paragraph_separator (String c s))
          && one_line s).
  change (includes line_separator (String c s))
    with (starts_with line_separator (String c s) || includes line_separator s).
  change (includes paragraph_separator (String c s))
    with (starts_with paragraph_separator (String c s)
          || includes paragraph_separator s).
  change (all_chars (fun c => negb (is_line_terminator c)) (String c s))
    with (negb (is_line_terminator c)
          && all_chars (fun c => negb (is_line_terminator c)) s).
  rewrite !andb_true_iff, !orb_false_iff, !negb_true_iff, IH. tauto.
Qed.

(** X1. [parseDataUrl] and the assembling of a data URI are inverse to
    each other.  A MIME type that is not empty and holds no semicolon,
    and a payload that is not empty and holds no line terminator (LF, CR,
    U+2028, U+2029), put together as [data:<mime>;base64,<payload>], are
    found again as they were; a string [parseDataUrl] accepts is the
    string assembled from the MIME type and the payload it returns, which
    are of that kind; and a string assembled with a payload that holds a
    line terminator is not parsed.  The payload itself may hold
    semicolons and the text [;base64,]: the MIME type ends at the first
    semicolon. *)
Theorem parseDataUrl_inverse :
  (forall mime payload,
      mime <> "" -> payload <> "" ->
      all_chars (other_than ";"%char) mime = true ->
      one_line payload = true ->
      parseDataUrl ("data:" +:+ mime +:+ ";base64," +:+ payload)
      = Some (payload, JStr mime))
  /\ (forall s payload mimeType,
      parseDataUrl s = Some (payload, mimeType) ->
      exists mime,
        mimeType = JStr mime
        /\ s = "data:" +:+ mime +:+ ";base64," +:+ payload
        /\ mime <> "" /\ payload <> ""
        /\ all_chars (other_than ";"%char) mime = true
        /\ one_line payload = true)
  /\ (forall payload,
      one_line payload = true
      <-> all_chars (fun c => negb (is_line_terminator c)) payload = true
          /\ includes line_separator payload = false
          /\ includes paragraph_separator payload = false)
  /\ (forall mime payload,
      all_chars (other_than ";"%char) mime = true ->
      one_line payload = false ->
      parseDataUrl ("data:" +:+ mime +:+ ";base64," +:+ payload) = None).
Proof.
  split; [|split; [|split]].
  - intros mime payload Hm Hp Hsemi Hline. unfold parseDataUrl.
    assert (match_data_url ("data:" +:+ mime +:+ ";base64," +:+ payload)
            = Some (mime, payload)) as ->; [|done].
    by apply match_data_url_spec.
  - intros s payload mimeType. unfold parseDataUrl.
    destruct (match_data_url s) as [[mime p]|] eqn:E; [|done].
    intros [= <- <-]. apply match_data_url_spec in E as (-> & Hm & Hp & Hsemi & Hline).
    by exists mime.
  - apply one_line_spec.
  - intros mime payload Hsemi Hline. unfold parseDataUrl, match_data_url.
    rewrite strip_prefix_append.
    change (";base64," +:+ payload) with (String ";" ("base64," +:+ payload)).
    rewrite (span_until_stop ";" mime _ Hsemi).
    change (String ";" ("base64," +:+ payload)) with (";base64," +:+ payload).
    rewrite strip_prefix_append, Hline.
    by rewrite andb_false_r.
Qed.

Lemma parseDataUrl_inverse_witness :
  parseDataUrl "data:image/png;base64,AAAA;base64,BBBB"
  = Some ("AAAA;base64,BBBB", JStr "image/png")
  /\ (exists mime,
       JStr "image/png" = JStr mime
       /\ "data:image/png;base64,iVBORw0KGgo="
          = "data:" +:+ mime +:+ ";base64," +:+ "iVBORw0KGgo=")
  /\ parseDataUrl ("data:" +:+ "image/png" +:+ ";base64,"
                   +:+ ("AA" +:+ line_separator +:+ "AA")) = None.
Proof.
  destruct parseDataUrl_inverse as (Hbuild & Hparse & _ & Hrefuse).
  split; [|split].
  - apply (Hbuild "image/png" "AAAA;base64,BBBB"); done.
  - destruct (Hparse "data:image/png;base64,iVBORw0KGgo=" "iVBORw0KGgo="
                (JStr "image/png") eq_refl) as (mime & Hm & Hs & _).
    by exists mime.
  - apply (Hrefuse "image/png" ("AA" +:+ line_separator +:+ "AA")); reflexivity.
Defined.

(** A call of the upload primitive that fails with the invalid-input
    error. *)
Lemma invalid_input_run (st : storage) (call : nat) (s : string)
    (filename : option json) :
  parseDataUrl s = None ->
  uploadBase64ToS3 st call s filename None
  = {| run_put := None; run_sign := None; run_result := Failed InvalidInput |}.
Proof. unfold uploadBase64ToS3. by intros ->. Qed.

(** X2. A string that begins with [data:] but is no data URI for
    [parseDataUrl] (a parameter such as [;charset=utf-8] before
    [;base64,], no [;base64,] at all, an empty payload) is never stored.
    The walk returns it as it is and sends no command, whatever hint is
    in scope.  The scans do begin an upload call for an image or file
    item that holds it, but pass no MIME type along, even when the item
    has one: the call fails with the invalid-input error before anything
    is sent, and the item is left as it is. *)
Theorem malformed_data_string_never_stored (st : storage) (s : string) :
  starts_with "data:" s = true ->
  parseDataUrl s = None ->
  (forall filename hint w,
      (replaceBase64InObject st (JStr s) filename hint w).1 = JStr s
      /\ puts_sent (replaceBase64InObject st (JStr s) filename hint w).2 = puts_sent w)
  /\ (forall fallback item kind w,
      part_kind_of item = Some kind ->
      prop item "data" = Some (JStr s) ->
      exists run,
        tool_item_upload st fallback item w = (Some run, w ++ [run])
        /\ run_put run = None /\ run_result run = Failed InvalidInput
        /\ settled_tool_item (Some run) item = item)
  /\ (forall part w,
      part_kind_of part = Some ImagePart ->
      js_or (prop part "image") (prop part "data") = Some (JStr s) ->
      exists run,
        image_part_upload st part w = (Some run, w ++ [run])
        /\ run_put run = None /\ run_result run = Failed InvalidInput
        /\ settled_message_part ImagePart (Some run) part = part)
  /\ (forall part w,
      part_kind_of part = Some FilePart ->
      prop part "data" = Some (JStr s) ->
      exists run,
        file_part_upload st part w = (Some run, w ++ [run])
        /\ run_put run = None /\ run_result run = Failed InvalidInput
        /\ settled_message_part FilePart (Some run) part = part).
Proof.
  intros Hdata Hbad.
  pose proof (data_prefix_not_base64 s Hdata) as Hb64.
  pose proof (data_prefix_nonempty s Hdata) as Hne.
  split; [|split; [|split]].
  - intros filename hint w. simpl. unfold upload_or_keep, upload.
    destruct (is_data_url_string s).
    + rewrite (invalid_input_run _ _ _ _ Hbad). simpl. split; [done|].
      unfold puts_sent. by rewrite omap_app, app_nil_r.
    + by rewrite Hb64, andb_false_r.
  - intros fallback item kind w Hk Hd.
    unfold tool_item_upload, upload, isBase64, isDataUrl.
    rewrite Hk, Hd. cbn [as_string]. rewrite Hne, Hdata. simpl.
    rewrite (invalid_input_run _ _ _ _ Hbad). eexists. by repeat split.
  - intros part w Hk Hd.
    unfold image_part_upload, upload, isBase64, isDataUrl.
    rewrite Hk, Hd. cbn [as_string]. rewrite Hne, Hdata. simpl.
    rewrite (invalid_input_run _ _ _ _ Hbad). eexists. by repeat split.
  - intros part w Hk Hd.
    unfold file_part_upload, upload, isBase64, isDataUrl.
    rewrite Hk, Hd. cbn [as_string]. rewrite Hne, Hdata. simpl.
    rewrite (invalid_input_run _ _ _ _ Hbad). eexists. by repeat split.
Qed.

(** A data URI with a [charset] parameter, in the walk and in an image
    item that has a [mimeType]. *)
Lemma malformed_data_string_never_stored_witness :
  let s := "data:image/png;charset=utf-8;base64,AAAA" in
  let item := JObj [("type", JStr "image"); ("data", JStr s);
                    ("mimeType", JStr "image/png")] in
  (replaceBase64InObject Fixtures.test_storage (JStr s) None
     (Some (JStr "image/png")) []).1 = JStr s
  /\ exists run,
       tool_item_upload Fixtures.test_storage None item [] = (Some run, [] ++ [run])
       /\ run_put run = None /\ run_result run = Failed InvalidInput
       /\ settled_tool_item (Some run) item = item.
Proof.
  intros s item.
  destruct (malformed_data_string_never_stored Fixtures.test_storage s eq_refl eq_refl)
    as (Hwalk & Htool & _).
  split.
  - exact (proj1 (Hwalk None (Some (JStr "image/png")) [])).
  - exact (Htool None item ImagePart [] eq_refl eq_refl).
Defined.

End DataUrlFacts.

(** ** The upload primitive: what is stored, under which key *)
Section UploadProtocolFacts.
Import Text.

(** The command of a call, when it sends one. *)
Lemma upload_put_shape (st : storage) (call : nat) (data : string)
    (filename mimeType : option json) (put : put_command) :
  run_put (uploadBase64ToS3 st call data filename mimeType) = Some put ->
  put_bucket put = BUCKET_NAME st /\ put_acl put = "public-read"
  /\ exists name, put_key put = "uploads/" +:+ randomUUID st call +:+ "/" +:+ name.
Proof.
  unfold uploadBase64ToS3.
  destruct (match parseDataUrl data with Some p => Some p | None => _ end)
    as [[payload mime]|]; [|done].
  destruct (final_filename filename mime) as [name|]; [|done].
  destruct (send_put st call _); [destruct (getSignedUrl st call _ _)|];
    intros [= <-]; simpl; eauto.
Qed.

(** X3. A URL is returned only for an object this very call has stored.
    When a call of the upload primitive returns a URL, it has sent one
    command, the storage has accepted it, and the URL is what the
    storage signed for the bucket and key of that command, with an
    expiry of 604800 seconds; a signature is only ever asked for after
    the command was accepted, and for its bucket and key; every command
    goes to the configured bucket, is readable by the public, and has a
    key of the form [uploads/<identifier of the call>/<name>]; and a call
    that sends no command fails with the invalid-input error or a type
    error, asking for no signature.  This holds for arguments of any
    JSON type. *)
Theorem url_only_for_stored_object (st : storage) (call : nat) (data : string)
    (filename mimeType : option json) :
  let run := uploadBase64ToS3 st call data filename mimeType in
  (forall url, run_result run = Uploaded url ->
     exists put,
       let get := {| get_bucket := put_bucket put; get_key := put_key put |} in
       run_put run = Some put
       /\ send_put st call put = true
       /\ run_sign run = Some (get, 604800%Z)
       /\ getSignedUrl st call get 604800%Z = Some url)
  /\ (forall get expiry, run_sign run = Some (get, expiry) ->
      exists put,
        run_put run = Some put /\ send_put st call put = true
        /\ get_bucket get = put_bucket put /\ get_key get = put_key put
        /\ expiry = 604800%Z)
  /\ (forall put, run_put run = Some put ->
      put_bucket put = BUCKET_NAME st /\ put_acl put = "public-read"
      /\ exists name, put_key put = "uploads/" +:+ randomUUID st call +:+ "/" +:+ name)
  /\ (run_put run = None ->
      run_sign run = None
      /\ (run_result run = Failed InvalidInput \/ run_result run = Failed TypeError)).
Proof.
  cbv zeta. split; [|split; [|split]].
  3: { intros put. apply upload_put_shape. }
  all: unfold uploadBase64ToS3.
  all: destruct (match parseDataUrl data with Some p => Some p | None => _ end)
         as [[payload mime]|]; simpl.
  all: try destruct (final_filename filename mime) as [name|]; simpl.
  all: try (destruct (send_put st call _) eqn:Hput;
            [destruct (getSignedUrl st call _ _) eqn:Hsign|]; simpl).
  all: try done.
  all: try (intros url [= <-]; eexists; by repeat split).
  all: try (intros g e [= <- <-]; eexists; by repeat split).
  all: try (intros _; split; [done|]; by auto).
Qed.

Lemma no_slash_cons (c : ascii) (u : string) :
  includes "/" (String c u) = false -> c <> "/"%char /\ includes "/" u = false.
Proof.
  simpl. intros [H1 H2]%orb_false_iff. split; [|done].
  intros ->. by rewrite bool_decide_true in H1.
Qed.

Lemma append_cancel_l (p a b : string) : p +:+ a = p +:+ b -> a = b.
Proof.
  induction p as [|c p IH]; [done|]. rewrite !append_cons. intros [= H]. by apply IH.
Qed.

(** A name without a slash, followed by a slash, can be read back. *)
Lemma slash_terminated_inj (u1 u2 n1 n2 : string) :
  includes "/" u1 = false -> includes "/" u2 = false ->
  u1 +:+ "/" +:+ n1 = u2 +:+ "/" +:+ n2 -> u1 = u2.
Proof.
  revert u2. induction u1 as [|c u1 IH]; intros [|d u2] H1 H2 Heq.
  - done.
  - apply no_slash_cons in H2 as [Hd _]. rewrite append_cons in Heq.
    injection Heq as Hc _. by subst.
  - apply no_slash_cons in H1 as [Hc _]. rewrite append_cons in Heq.
    injection Heq as Hd _. by subst.
  - apply no_slash_cons in H1 as [_ H1]. apply no_slash_cons in H2 as [_ H2].
    rewrite !append_cons in Heq. injection Heq as -> Heq. f_equal. by apply IH.
Qed.

(** X4. No two calls store under the same key.  When the identifiers
    drawn for two calls of the upload primitive differ and hold no slash
    (as the identifiers of [crypto.randomUUID] do), the keys of their
    commands differ, whatever the file names, even equal ones or ones
    that hold slashes. *)
Theorem keys_never_collide (st : storage) (call1 call2 : nat)
    (data1 data2 : string) (filename1 filename2 mimeType1 mimeType2 : option json)
    (put1 put2 : put_command) :
  includes "/" (randomUUID st call1) = false ->
  includes "/" (randomUUID st call2) = false ->
  randomUUID st call1 <> randomUUID st call2 ->
  run_put (uploadBase64ToS3 st call1 data1 filename1 mimeType1) = Some put1 ->
  run_put (uploadBase64ToS3 st call2 data2 filename2 mimeType2) = Some put2 ->
  put_key put1 <> put_key put2.
Proof.
  intros Hs1 Hs2 Hne Hp1 Hp2 Heq.
  apply upload_put_shape in Hp1 as (_ & _ & n1 & Hk1).
  apply upload_put_shape in Hp2 as (_ & _ & n2 & Hk2).
  rewrite Hk1, Hk2 in Heq. apply Hne.
  apply (slash_terminated_inj _ _ n1 n2 Hs1 Hs2).
  by apply (append_cancel_l "uploads/").
Qed.

(** Two uploads of the same data under the same file name. *)
Lemma keys_never_collide_witness :
  let st := Fixtures.flaky_storage [] in
  exists put1 put2,
    run_put (uploadBase64ToS3 st 0 "data:image/png;base64,AAAA"
               (Some (JStr "shot.png")) None) = Some put1
    /\ run_put (uploadBase64ToS3 st 1 "data:image/png;base64,AAAA"
                  (Some (JStr "shot.png")) None) = Some put2
    /\ put_key put1 <> put_key put2.
Proof.
  intros st. eexists _, _. split; [reflexivity|]. split; [reflexivity|].
  apply (keys_never_collide st 0 1 "data:image/png;base64,AAAA"
           "data:image/png;base64,AAAA" (Some (JStr "shot.png"))
           (Some (JStr "shot.png")) None None);
    [reflexivity|reflexivity|by vm_compute|reflexivity|reflexivity].
Defined.

(** The extensions of the table are made of letters and digits. *)
Lemma table_extensions_alnum (mime ext : string) :
  get_prop mime mimeToExt = Some ext ->
  ext <> "" /\ all_chars is_alnum ext = true.
Proof.
  unfold mimeToExt. simpl.
  repeat (case_bool_decide; [by intros [= <-]|]). done.
Qed.

Lemma getExtension_of_table (mime ext : string) :
  get_prop mime mimeToExt = Some ext ->
  getExtensionFromMimeType (JStr mime) = Some ext.
Proof.
  intros H. unfold getExtensionFromMimeType, mimeToExt_member. simpl to_string.
  cbv beta iota. by rewrite H.
Qed.

Lemma has_extension_nonempty (name : string) :
  has_extension name = true -> nonempty name = true.
Proof. by destruct name. Qed.

(** X5. For the MIME types of the table, the file name of the stored
    object always ends in a dot and letters or digits, whatever the
    candidate (none, the empty string, a name with or without an
    extension); and such a name is final: handed back as the candidate,
    it is kept as it is, whatever accompanies it as MIME type, a value
    that is no string included. *)
Theorem derived_name_has_extension (candidate : option string) (mime ext : string) :
  get_prop mime mimeToExt = Some ext ->
  exists name,
    final_filename (JStr <$> candidate) (JStr mime) = Some name
    /\ has_extension name = true
    /\ forall other, final_filename (Some (JStr name)) other = Some name.
Proof.
  intros Htable.
  destruct (table_extensions_alnum _ _ Htable) as [Hne Halnum].
  assert (forall stem, has_extension (stem +:+ "." +:+ ext) = true) as Hext.
  { intros stem. apply has_extension_spec. by exists stem, ext. }
  assert (forall name, has_extension name = true ->
            forall other, final_filename (Some (JStr name)) other = Some name) as Hfinal.
  { intros name Hn other. unfold final_filename. simpl.
    by rewrite (has_extension_nonempty _ Hn), Hn. }
  unfold final_filename. rewrite (getExtension_of_table _ _ Htable).
  destruct candidate as [f|]; simpl.
  - destruct (nonempty f).
    + destruct (has_extension f) eqn:Hf.
      * exists f. split; [done|]. split; [done|]. by apply Hfinal.
      * exists (f +:+ "." +:+ ext). split; [done|]. split; [apply Hext|].
        apply Hfinal, Hext.
    + exists ("file." +:+ ext). split; [done|]. split; [apply (Hext "file")|].
      apply Hfinal, (Hext "file").
  - exists ("file." +:+ ext). split; [done|]. split; [apply (Hext "file")|].
    apply Hfinal, (Hext "file").
Qed.

Lemma derived_name_has_extension_witness :
  exists name,
    final_filename (JStr <$> Some "screenshot") (JStr "image/svg+xml") = Some name
    /\ has_extension name = true
    /\ forall other, final_filename (Some (JStr name)) other = Some name.
Proof. exact (derived_name_has_extension (Some "screenshot") "image/svg+xml" "svg" eq_refl). Defined.

End UploadProtocolFacts.

(** ** The batches of [batchPromises] *)
Section BatchShapeFacts.
Context {A : Type}.
Implicit Types (l : list A).

Lemma batch_loop_nth l (batchSize : nat) :
  0 < batchSize ->
  forall fuel i batches,
  batch_loop fuel l batchSize i = Some batches ->
  (forall k batch, batches !! k = Some batch ->
     batch = take batchSize (drop (i + k * batchSize) l)
     /\ i + k * batchSize < length l)
  /\ length l <= i + length batches * batchSize
  /\ (i < length l -> i + length batches * batchSize < length l + batchSize).
Proof.
  intros Hpos. induction fuel as [|fuel IH]; intros i batches; simpl.
  - destruct (Nat.ltb_spec i (length l)); [done|]. intros [= <-]. simpl.
    split; [done|]. lia.
  - destruct (Nat.ltb_spec i (length l)) as [Hlt|Hge].
    + destruct (batch_loop fuel l batchSize (i + batchSize)) as [rest|] eqn:E; [|done].
      intros [= <-]. destruct (IH _ _ E) as (Hnth & Hlo & Hhi).
      split; [|simpl; split; [lia|]].
      * intros [|k] batch Hk; simpl in Hk.
        -- injection Hk as <-. unfold slice.
           rewrite Nat.add_sub'. simpl. by rewrite Nat.add_0_r.
        -- destruct (Hnth k batch Hk) as [-> Hin]. simpl.
           replace (i + (batchSize + k * batchSize))
             with (i + batchSize + k * batchSize) by lia.
           done.
      * intros _. destruct (Nat.lt_ge_cases (i + batchSize) (length l)) as [Hm|Hm].
        -- specialize (Hhi Hm). lia.
        -- destruct fuel; simpl in E.
           ++ destruct (Nat.ltb_spec (i + batchSize) (length l)); [lia|].
              injection E as <-. simpl. lia.
           ++ destruct (Nat.ltb_spec (i + batchSize) (length l)); [lia|].
              injection E as <-. simpl. lia.
    + intros [= <-]. simpl. split; [done|]. lia.
Qed.

(** X6. With a batch size that is not zero, [batchPromises] cuts the
    promises into consecutive batches and returns the results of all of
    them in the order of the promises: batch [k] is the [batchSize]
    promises from index [k * batchSize] on (fewer at the end, never
    none), the batches put together are the promises, and their number
    is the least [n] with [n * batchSize] no less than the number of
    promises. *)
Theorem batches_partition l (batchSize : nat) :
  0 < batchSize ->
  exists batches,
    batches_of l batchSize = Some batches
    /\ batchPromises l batchSize = Some l
    /\ concat batches = l
    /\ (forall k batch, batches !! k = Some batch ->
          batch = take batchSize (drop (k * batchSize) l)
          /\ 0 < length batch <= batchSize)
    /\ length l <= length batches * batchSize < length l + batchSize.
Proof.
  intros Hpos.
  destruct (batch_loop_spec l batchSize Hpos (length l) 0) as (bs & Hbs & Hcat & Hall);
    [lia|].
  destruct (batch_loop_nth l batchSize Hpos _ _ _ Hbs) as (Hnth & Hlo & Hhi).
  exists bs. split; [done|]. split; [by apply batchPromises_all|].
  split; [done|]. split.
  - intros k batch Hk. destruct (Hnth k batch Hk) as [-> _]. split; [done|].
    rewrite Forall_lookup in Hall. exact (Hall k _ Hk).
  - split; [lia|]. destruct l as [|x l'].
    + destruct bs as [|b bs]; [simpl; lia|].
      destruct (Hnth 0 b eq_refl) as [_ Hin]. simpl in Hin. lia.
    + simpl in Hhi |- *. lia.
Qed.

(** X7. With a batch size of zero the loop of [batchPromises] never
    ends on promises that are not all behind it (the index does not
    move): no number of iterations gives a result; on an empty array the
    loop is not entered and the result is empty. *)
Theorem batch_size_zero_never_ends l (i : nat) :
  i < length l ->
  (forall fuel, batch_loop fuel l 0 i = None)
  /\ batchPromises l 0 = None
  /\ batchPromises (@nil A) 0 = Some [].
Proof.
  intros Hlt.
  assert (forall fuel, batch_loop fuel l 0 i = None) as Hloop.
  { induction fuel as [|fuel IH]; simpl;
      destruct (Nat.ltb_spec i (length l)); try lia; [done|].
    by rewrite Nat.add_0_r, IH. }
  split; [done|]. split; [|done].
  unfold batchPromises, batches_of.
  assert (forall fuel, batch_loop fuel l 0 0 = None) as H0.
  { induction fuel as [|fuel IH]; simpl;
      destruct (Nat.ltb_spec 0 (length l)); try lia; [done|].
    by rewrite IH. }
  by rewrite H0.
Qed.

End BatchShapeFacts.

Lemma batches_partition_witness :
  exists batches,
    batches_of (seq 0 25) 10 = Some batches
    /\ batchPromises (seq 0 25) 10 = Some (seq 0 25)
    /\ concat batches = seq 0 25
    /\ (forall k batch, batches !! k = Some batch ->
          batch = take 10 (drop (k * 10) (seq 0 25)) /\ 0 < length batch <= 10)
    /\ length (seq 0 25) <= length batches * 10 < length (seq 0 25) + 10.
Proof. apply (batches_partition (seq 0 25) 10). lia. Defined.

Lemma batch_size_zero_never_ends_witness :
  (forall fuel, batch_loop fuel [true; false] 0 1 = None)
  /\ batchPromises [true; false] 0 = None
  /\ batchPromises (@nil bool) 0 = Some [].
Proof. apply (batch_size_zero_never_ends [true; false] 1). simpl. lia. Defined.

(** ** Awaiting the batches *)
Section AwaitFacts.
Import Schedule.

Lemma all_settled_spec (batch settled : list nat) :
  all_settled batch settled = true <-> forall p, p ∈ batch -> p ∈ settled.
Proof.
  unfold all_settled. rewrite forallb_forall. split.
  - intros H p Hp. apply list_elem_of_In in Hp.
    exact (bool_decide_eq_true_1 _ (H p Hp)).
  - intros H p Hp. apply list_elem_of_In in Hp.
    exact (bool_decide_eq_true_2 _ (H p Hp)).
Qed.

(** [await Promise.all(batch)] consumes the settling order up to the
    point where the batch is complete, or all of it. *)
Lemma await_all_spec (batch : list nat) :
  forall order settled evs settled' order' ok,
  await_all batch settled order = (evs, settled', order', ok) ->
  exists consumed,
    order = consumed ++ order' /\ evs = Settled <$> consumed
    /\ settled' = rev consumed ++ settled
    /\ all_settled batch settled' = ok
    /\ (ok = false -> order' = []).
Proof.
  induction order as [|p order IH]; intros settled evs settled' order' ok; simpl.
  - destruct (all_settled batch settled) eqn:E; intros [= <- <- <- <-];
      by exists [].
  - destruct (all_settled batch settled) eqn:E.
    + intros [= <- <- <- <-]. by exists [].
    + destruct (await_all batch (p :: settled) order) as [[[evs0 s0] o0] ok0] eqn:E0.
      intros [= <- <- <- <-].
      destruct (IH _ _ _ _ _ E0) as (consumed & -> & -> & -> & Hok & Hrest).
      exists (p :: consumed). simpl. rewrite <- app_assoc. by repeat split.
Qed.

Lemma settled_or_pending (consumed order' settled : list nat) (p : nat) :
  p ∈ rev consumed ++ settled \/ p ∈ order' <-> p ∈ settled \/ p ∈ consumed ++ order'.
Proof. rewrite !elem_of_app, list_elem_of_In, <- in_rev, <- list_elem_of_In. tauto. Qed.

(** The loop gets past all its batches exactly when every promise of
    every batch has settled already or settles at some point. *)
Lemma await_batches_returns (batches : list (list nat)) :
  forall b settled order,
  (await_batches b batches settled order).2 = true
  <-> forall batch p, batch ∈ batches -> p ∈ batch -> p ∈ settled \/ p ∈ order.
Proof.
  induction batches as [|batch more IH]; intros b settled order; simpl.
  - split; [|done]. intros _ batch p Hb. by apply elem_of_nil in Hb.
  - destruct (await_all batch settled order) as [[[evs s'] o'] ok] eqn:E.
    destruct (await_all_spec _ _ _ _ _ _ _ E) as (consumed & -> & -> & -> & Hok & Hrest).
    destruct ok.
    + specialize (IH (S b) (rev consumed ++ settled) o').
      destruct (await_batches (S b) more (rev consumed ++ settled) o') as [evs' ok'].
      simpl in *. rewrite IH.
      pose proof (proj1 (all_settled_spec _ _) Hok) as Hall. split.
      * intros H batch' p [->|Hb]%elem_of_cons Hp.
        -- apply settled_or_pending. left. by apply Hall.
        -- apply settled_or_pending. by apply (H batch').
      * intros H batch' p Hb Hp. apply settled_or_pending.
        apply (H batch'); [by right|done].
    + simpl. split; [done|]. intros H. rewrite (Hrest eq_refl) in *.
      assert (all_settled batch (rev consumed ++ settled) = true) as Hall; [|congruence].
      apply all_settled_spec. intros p Hp.
      destruct (H batch p) as [Hs|Hc]; [by left|done| |].
      * apply elem_of_app. by right.
      * rewrite app_nil_r in Hc. apply elem_of_app. left.
        by rewrite list_elem_of_In, <- in_rev, <- list_elem_of_In.
Qed.

Lemma not_batch_awaited_settled (consumed : list nat) (pre post : list event) (k : nat) :
  Settled <$> consumed = pre ++ BatchAwaited k :: post -> False.
Proof.
  intros H.
  assert (BatchAwaited k ∈ Settled <$> consumed) as Hin.
  { rewrite H. apply elem_of_app. right. by left. }
  apply list_elem_of_fmap in Hin as (p & [=] & _).
Qed.

(** When the [await] of a batch returns, every promise of the batch has
    settled. *)
Lemma await_batches_order (batches : list (list nat)) :
  forall b settled order pre k post,
  (await_batches b batches settled order).1 = pre ++ BatchAwaited k :: post ->
  exists batch,
    b <= k /\ batches !! (k - b) = Some batch
    /\ forall p, p ∈ batch -> p ∈ settled \/ Settled p ∈ pre.
Proof.
  induction batches as [|batch more IH]; intros b settled order pre k post; simpl.
  - by destruct pre.
  - destruct (await_all batch settled order) as [[[evs s'] o'] ok] eqn:E.
    destruct (await_all_spec _ _ _ _ _ _ _ E) as (consumed & -> & -> & -> & Hok & Hrest).
    destruct ok; simpl.
    2: { intros H. by apply not_batch_awaited_settled in H. }
    specialize (IH (S b) (rev consumed ++ settled) o').
    destruct (await_batches (S b) more (rev consumed ++ settled) o') as [evs' ok'].
    simpl in *. intros H.
    pose proof (proj1 (all_settled_spec _ _) Hok) as Hall.
    apply app_eq_app in H as [mid [[H1 H2]|[H1 H2]]].
    + destruct mid as [|e mid].
      * rewrite app_nil_r in H1. simpl in H2. injection H2 as <- <-. subst pre.
        exists batch. rewrite Nat.sub_diag. split; [done|]. split; [done|].
        intros p Hp. pose proof (Hall p Hp) as Hin.
        apply elem_of_app in Hin as [Hc|Hs]; [|by left]. right.
        apply list_elem_of_fmap. exists p. split; [done|].
        by rewrite list_elem_of_In, in_rev, <- list_elem_of_In.
      * simpl in H2. injection H2 as <- H2.
        by apply not_batch_awaited_settled in H1.
    + destruct mid as [|e mid].
      * rewrite app_nil_r in H1. simpl in H2. injection H2 as <- <-. subst pre.
        exists batch. rewrite Nat.sub_diag. split; [done|]. split; [done|].
        intros p Hp. pose proof (Hall p Hp) as Hin.
        apply elem_of_app in Hin as [Hc|Hs]; [|by left]. right.
        apply list_elem_of_fmap. exists p. split; [done|].
        by rewrite list_elem_of_In, in_rev, <- list_elem_of_In.
      * simpl in H2. injection H2 as <- H2. subst pre.
        destruct (IH mid k post H2) as (batch' & Hle & Hk & Hin).
        exists batch'. split; [lia|]. split.
        -- replace (k - b) with (S (k - S b)) by lia. done.
        -- intros p Hp. destruct (Hin p Hp) as [Hs|Hs].
           ++ apply elem_of_app in Hs as [Hc|Hs]; [|by left]. right.
              apply elem_of_app. left. apply list_elem_of_fmap. exists p.
              split; [done|]. by rewrite list_elem_of_In, in_rev, <- list_elem_of_In.
           ++ right. apply elem_of_app. right. by right.
Qed.

End AwaitFacts.

Section AwaitCallFacts.
Import Schedule.

Lemma scan_events_started (runs : list upload_run) :
  forall p e, e ∈ scan_events p runs -> exists q, e = Started q.
Proof.
  induction runs as [|run runs IH]; intros p e; simpl.
  - by intros ?%elem_of_nil.
  - destruct (run_put run); [|by apply IH].
    intros [->|H]%elem_of_cons; [eauto|by eapply IH].
Qed.

Lemma not_batch_awaited_started (runs : list upload_run) (p k : nat)
    (pre post : list event) :
  scan_events p runs = pre ++ BatchAwaited k :: post -> False.
Proof.
  intros H.
  destruct (scan_events_started runs p (BatchAwaited k)) as [q [=]].
  rewrite H. apply elem_of_app. right. by left.
Qed.

(** X8. A call of [processToolResultForBase64] or of
    [processMessagesForBase64] gets past the [await] of its uploads
    exactly when every one of its upload promises settles; and whenever
    the [await] of batch [k] returns, every promise of that batch (those
    numbered from [10 k] up to, but not including, [10 (k + 1)]) has
    settled before.  So the value the call returns has seen all its
    continuations run: no upload is still pending when the call
    resolves, and a single promise that never settles keeps the call
    from ever resolving. *)
Theorem call_returns_after_all_settled (runs : list upload_run) (order : list nat) :
  ((call_events runs order).2 = true <-> forall p, p < length runs -> p ∈ order)
  /\ forall pre k post,
     (call_events runs order).1 = pre ++ BatchAwaited k :: post ->
     forall p, k * MAX_CONCURRENT_UPLOADS <= p < length runs ->
               p < (k + 1) * MAX_CONCURRENT_UPLOADS ->
               Settled p ∈ pre.
Proof.
  unfold call_events. destruct (Nat.ltb_spec 0 (length runs)) as [Hpos|Hzero].
  - destruct (batches_partition (seq 0 (length runs)) MAX_CONCURRENT_UPLOADS)
      as (bs & -> & _ & Hcat & Hnth & _); [unfold MAX_CONCURRENT_UPLOADS; lia|].
    pose proof (await_batches_returns bs 0 [] order) as Hret.
    pose proof (await_batches_order bs 0 [] order) as Hord.
    destruct (await_batches 0 bs [] order) as [evs ok]. simpl in *. split.
    + rewrite Hret. split.
      * intros H p Hp.
        assert (p ∈ concat bs) as Hin by (rewrite Hcat; apply elem_of_seq; lia).
        apply list_elem_of_In, in_concat in Hin as (batch & Hb & Hpb).
        destruct (H batch p) as [Hn|Ho]; [by apply list_elem_of_In..| |done].
        by apply elem_of_nil in Hn.
      * intros H batch p Hb Hpb. right. apply H.
        assert (p ∈ concat bs) as Hin.
        { apply list_elem_of_In, in_concat. exists batch.
          split; by apply list_elem_of_In. }
        rewrite Hcat in Hin. apply elem_of_seq in Hin. lia.
    + intros pre k post H p Hp1 Hp2.
      assert (forall mid, evs = mid ++ BatchAwaited k :: post -> Settled p ∈ mid) as Hmid.
      { intros mid Hevs. destruct (Hord mid k post Hevs) as (batch & _ & Hk & Hin).
        rewrite Nat.sub_0_r in Hk. destruct (Hnth k batch Hk) as [-> _].
        destruct (Hin p) as [Hn|Hs]; [|by apply elem_of_nil in Hn|done].
        rewrite drop_seq, take_seq. apply elem_of_seq.
        unfold MAX_CONCURRENT_UPLOADS in *. lia. }
      apply app_eq_app in H as [mid [[H1 H2]|[H1 H2]]].
      * destruct mid as [|e mid].
        -- simpl in H2. symmetry in H2. apply (Hmid []) in H2.
           by apply elem_of_nil in H2.
        -- simpl in H2. injection H2 as <- H2.
           by apply not_batch_awaited_started in H1.
      * subst pre. apply elem_of_app. right. by apply Hmid.
  - assert (runs = []) as -> by (destruct runs; [done|simpl in Hzero; lia]).
    simpl. split; [split; [intros _ p Hp; lia|done]|].
    intros pre k post H. by destruct pre.
Qed.

End AwaitCallFacts.

(** ** The recursive walk *)
Section WalkFacts.
Import Walk.
Context (st : storage).



End WalkFacts.


Section WalkShapeFacts.
Import Walk.
Context (st : storage).

Lemma shape_with_arr (ok : string -> string -> bool) (xs ys : list json) :
  shape_with ok (JArr xs) (JArr ys) = true
  <-> Forall2 (fun x y => shape_with ok x y = true) xs ys.
Proof.
  simpl. revert ys. induction xs as [|x xs IH]; intros [|y ys]; split; try done.
  - inversion 1.
  - inversion 1.
  - intros [Hx Hr]%andb_true_iff. constructor; [done|]. by apply IH.
  - inversion 1; subst. apply andb_true_iff. split; [done|]. by apply IH.
Qed.

Lemma shape_with_obj (ok : string -> string -> bool) (fs gs : props json) :
  shape_with ok (JObj fs) (JObj gs) = true
  <-> Forall2 (fun p q => p.1 = q.1 /\ shape_with ok p.2 q.2 = true) fs gs.
Proof.
  simpl. revert gs. induction fs as [|[k x] fs IH]; intros [|[k' y] gs]; split; try done.
  - inversion 1.
  - inversion 1.
  - intros [[Hk Hx]%andb_true_iff Hr]%andb_true_iff.
    apply bool_decide_eq_true in Hk. constructor; [done|]. by apply IH.
  - inversion 1 as [|? ? ? ? [Hk Hx] Hr]; subst. simpl in *. subst.
    rewrite bool_decide_true by done. rewrite Hx. by apply IH.
Qed.




Lemma shape_with_refl (ok : string -> string -> bool) :
  (forall s, ok s s = true) -> forall a, shape_with ok a a = true.
Proof.
  intros Hok a.
  induction a as [|b|n|s|xs IH|fs IH] using json_nested_ind; try done.
  - simpl. by apply bool_decide_eq_true.
  - simpl. by apply bool_decide_eq_true.
  - apply Hok.
  - apply shape_with_arr. induction IH; by constructor.
  - apply shape_with_obj. induction IH; by constructor.
Qed.



End WalkShapeFacts.

Section WalkShapeTheorem.
Import Walk.



End WalkShapeTheorem.

(** ** The scans: which items are uploaded, which pass through *)

Section ToolResultFacts.
Import Candidates.
Context (st : storage).

(** A tool result with a content sequence without [null]: the call
    returns, and every item comes out as its own scan and continuation
    leave it. *)
Lemma tool_result_outcomes (fs : props json) (content : list json)
    (filename : option json) (w : world) :
  get_prop "content" fs = Some (JArr content) -> no_null content ->
  exists content' w',
    processToolResultForBase64 st (JObj fs) filename w
    = (Return (JObj (set_prop "content" (JArr content') fs)), w')
    /\ Forall2 (tool_item_outcome st filename w w') content content'
    /\ length w' = length w
                   + length (filter (fun item => uploadable_tool_item item = true)
                               content).
Proof.
  intros Hc Hnull.
  destruct (scan_tool_content_total st filename content Hnull 0 w) as (ps & w' & Hscan).
  destruct (scan_tool_content_settle st filename content [] w ps w' Hscan)
    as (content' & Hfold & Hall).
  exists content', w'. split; [|split; [done|]].
  - unfold processToolResultForBase64, has_content_array, content_of.
    rewrite json_clone_id, Hc, Hscan, await_uploads_all.
    simpl in Hfold. by rewrite Hfold.
  - by eapply scan_tool_content_calls.
Qed.


End ToolResultFacts.


(** ** Offloading twice *)
Section TwiceFacts.
Import Candidates.
Context (st : storage).

(** A call begun during a run is one of the calls made since its start. *)
Lemma begun_call_since (w wj w' : world) (run : upload_run) :
  w `prefix_of` wj -> (wj ++ [run]) `prefix_of` w' -> run ∈ calls_since w w'.
Proof.
  intros [k0 ->] [k ->]. unfold calls_since.
  rewrite <- !app_assoc, drop_app_length, !elem_of_app. right. left. by left.
Qed.

(** An item the continuation has substituted is no candidate any more. *)
Lemma substituted_tool_item_done (url : string) (item : json) :
  uploadable_tool_item (on_fields (settle_tool_fields JStr url) item) = false.
Proof.
  unfold uploadable_tool_item.
  destruct (part_kind_of _); [|done].
  destruct item; try done. simpl. by rewrite settle_tool_fields_data.
Qed.

Lemma on_fields_not_null (f : props json -> props json) (item : json) :
  is_null item = false -> is_null (on_fields f item) = false.
Proof. by destruct item. Qed.

(** A content sequence without candidates is scanned without a call. *)
Lemma scan_tool_content_quiet (filename : option json) (content : list json) :
  Forall (fun item => is_null item = false /\ uploadable_tool_item item = false) content ->
  forall i w, scan_tool_content st filename i content w = (Some [], w).
Proof.
  induction 1 as [|item rest [Hnull Hno] _ IH]; intros i w; [done|]. simpl.
  rewrite Hnull. pose proof (tool_item_upload_candidate st filename item w) as Hc.
  rewrite Hno in Hc. by rewrite Hc, IH.
Qed.

(** X13. Offloading a tool result a second time changes nothing.  When
    every upload call of [processToolResultForBase64] on a tool result
    with a content sequence has returned a URL, the call on its output
    returns that very output and makes no upload call, whatever file
    name it is given: the items it has substituted hold no [data] any
    more.  No member of the sequence is [null]. *)
Theorem tool_result_offload_idempotent (fs : props json) (content : list json)
    (filename filename' : option json) (w : world) :
  get_prop "content" fs = Some (JArr content) -> no_null content ->
  exists result' w',
    processToolResultForBase64 st (JObj fs) filename w = (Return result', w')
    /\ (all_uploaded (calls_since w w') ->
        forall w'', processToolResultForBase64 st result' filename' w''
                    = (Return result', w'')).
Proof.
  intros Hc Hnull.
  destruct (tool_result_outcomes st fs content filename w Hc Hnull)
    as (content' & w' & Hrun & Hall & _).
  eexists _, w'. split; [exact Hrun|]. intros Hup w''.
  assert (Forall (fun item => is_null item = false /\ uploadable_tool_item item = false)
            content') as Hquiet.
  { unfold no_null in Hnull. clear Hc Hrun. revert Hnull.
    induction Hall as [|item item' rest rest' (wj & Hw & Hafter & ->) _ IH]; [done|].
    intros [Hn Hns]%Forall_cons. constructor; [|by apply IH].
    pose proof (tool_item_upload_candidate st filename item wj) as Hcand.
    destruct (uploadable_tool_item item) eqn:Hu.
    - destruct Hcand as [run Hcand]. rewrite Hcand in Hafter |- *. simpl in *.
      pose proof (begun_call_since _ _ _ _ Hw Hafter) as Hin.
      unfold all_uploaded in Hup. rewrite Forall_forall in Hup.
      destruct (Hup run Hin) as [url Hurl].
      unfold settled_tool_item, after_upload. rewrite Hurl.
      split; [by apply on_fields_not_null|apply substituted_tool_item_done].
    - rewrite Hcand. by split. }
  unfold processToolResultForBase64, has_content_array, content_of.
  rewrite json_clone_id, get_set_prop_eq.
  rewrite (scan_tool_content_quiet filename' content' Hquiet). simpl.
  by rewrite set_set_prop.
Qed.

End TwiceFacts.

(** The tool result of the test suite, offloaded twice. *)
Lemma tool_result_offload_idempotent_witness :
  exists result' w',
    processToolResultForBase64 Fixtures.test_storage (JObj Fixtures.screenshot_result)
      None [] = (Return result', w')
    /\ processToolResultForBase64 Fixtures.test_storage result' None w'
       = (Return result', w').
Proof.
  destruct (tool_result_offload_idempotent Fixtures.test_storage
              Fixtures.screenshot_result _ None None [] eq_refl)
    as (result' & w' & Hrun & Htwice).
  { repeat constructor. }
  exists result', w'. split; [exact Hrun|]. apply Htwice.
  vm_compute in Hrun. injection Hrun as _ <-.
  repeat constructor; by eexists.
Defined.

(** ** Message lists: which parts are uploaded, which pass through *)
Section MessageFacts.
Import Candidates.
Context (st : storage).

(** A message list without [null]: the call returns, and every message
    comes out as the scan and the continuations leave it. *)
Lemma messages_outcomes (messages : list json) (w : world) :
  Forall message_without_null messages ->
  exists messages' w',
    processMessagesForBase64 st messages w = (Return messages', w')
    /\ Forall2 (message_outcome st w w') messages messages'
    /\ length w' = length w
                   + length (filter (fun part => uploadable_part part = true)
                               (parts_of messages)).
Proof.
  intros Hwf.
  destruct (scan_messages_total st messages Hwf 0 w) as (ps & w' & Hscan).
  destruct (scan_messages_settle st messages [] w ps w' Hscan)
    as (messages' & Hfold & Hall).
  exists messages', w'. split; [|split; [done|]].
  - unfold processMessagesForBase64.
    rewrite map_json_clone, Hscan, await_uploads_all.
    simpl in Hfold. by rewrite Hfold.
  - by eapply scan_messages_calls.
Qed.



End MessageFacts.


Section TwiceMessagesFacts.
Import Candidates.
Context (st : storage).

Lemma settle_message_fields_type (kind : part_kind) (url : string) (fs : props json) :
  get_prop "type" (settle_message_fields truthy JStr kind url fs) = get_prop "type" fs.
Proof.
  destruct kind; simpl; unfold settle_image_fields, settle_file_fields;
    rewrite drop_mimeType_other by done.
  - destruct (prop_truthy truthy "image" fs); [by rewrite get_set_prop_ne|].
    destruct (prop_truthy truthy "data" fs); [|done].
    rewrite get_set_prop_ne by done. by rewrite get_delete_prop_ne.
  - rewrite get_set_prop_ne by done. by rewrite get_delete_prop_ne.
Qed.

Lemma candidate_falsy (o : option json) :
  truthy_opt o = false -> candidate (as_string o) = false.
Proof. destruct o as [[| | |s| |]|]; try done. simpl. by intros ->. Qed.

(** A part the continuation has substituted is no candidate any more,
    provided the URL is not taken for a payload. *)
Lemma substituted_part_done (kind : part_kind) (url : string) (part : json) :
  part_kind_of part = Some kind ->
  not_a_payload url = true ->
  uploadable_part (on_fields (settle_message_fields truthy JStr kind url) part) = false.
Proof.
  intros Hk Hurl. destruct (part_kind_object _ _ Hk) as [pfs ->]. simpl.
  unfold uploadable_part, part_kind_of, prop in *.
  rewrite settle_message_fields_type, Hk.
  unfold not_a_payload in Hurl.
  apply andb_true_iff in Hurl as [[Hne Hdu]%andb_true_iff Hb64].
  apply negb_true_iff in Hdu, Hb64.
  destruct kind; simpl.
  - destruct (prop_truthy truthy "image" pfs) eqn:Hi.
    + destruct (settle_image_fields_image truthy JStr url pfs Hi) as (-> & _ & _).
      unfold js_or. simpl. rewrite Hne. simpl. by rewrite Hne, Hdu, Hb64.
    + destruct (prop_truthy truthy "data" pfs) eqn:Hd.
      * destruct (settle_image_fields_data truthy JStr url pfs Hi Hd) as (-> & _ & ->).
        unfold js_or. unfold prop_truthy in Hi.
        change (truthy_opt (get_prop "image" pfs) = false) in Hi. by rewrite Hi.
      * unfold settle_image_fields. rewrite Hi, Hd.
        rewrite !drop_mimeType_other by done. unfold js_or.
        change (truthy_opt (get_prop "image" pfs) = false) in Hi. rewrite Hi.
        by apply candidate_falsy.
  - unfold settle_file_fields. rewrite drop_mimeType_other by done.
    rewrite get_set_prop_ne by done. by rewrite get_delete_prop_eq.
Qed.

Lemma scan_parts_quiet (parts : list json) :
  Forall (fun part => is_null part = false /\ uploadable_part part = false) parts ->
  forall i j w, scan_parts st i j parts w = (Some [], w).
Proof.
  induction 1 as [|part rest [Hnull Hno] _ IH]; intros i j w; [done|]. simpl.
  rewrite Hnull. pose proof (part_uploads_candidate st part w) as Hc.
  rewrite Hno in Hc. destruct Hc as [-> Hf]. by rewrite Hf, IH.
Qed.

Lemma scan_messages_quiet (messages : list json) :
  Forall quiet_message messages ->
  forall i w, scan_messages st i messages w = (Some [], w).
Proof.
  induction 1 as [|message rest [Hnull Hparts] _ IH]; intros i w; [done|]. simpl.
  rewrite Hnull.
  destruct (prop message "content") as [[| | | |parts|]|]; try by rewrite IH.
  by rewrite (scan_parts_quiet parts Hparts), IH.
Qed.

End TwiceMessagesFacts.

Section TwiceMessagesTheorem.
Import Candidates.
Context (st : storage).

Lemma settled_parts_quiet (w w' : world) (parts parts' : list json) :
  all_uploaded_plain (calls_since w w') ->
  no_null parts ->
  Forall2 (message_part_outcome st w w') parts parts' ->
  Forall (fun part => is_null part = false /\ uploadable_part part = false) parts'.
Proof.
  intros Hup Hnull Hall. unfold no_null in Hnull. revert Hnull.
  induction Hall as [|part part' rest rest' (wj & Hw & Hafter & ->) _ IH]; [done|].
  intros [Hn Hns]%Forall_cons. constructor; [|by apply IH].
  pose proof (part_uploads_candidate st part wj) as Hc.
  destruct (uploadable_part part) eqn:Hu.
  - destruct Hc as (run & Hw2 & Hcase). rewrite Hw2 in Hafter.
    pose proof (begun_call_since _ _ _ _ Hw Hafter) as Hin.
    unfold all_uploaded_plain in Hup. rewrite Forall_forall in Hup.
    destruct (Hup run Hin) as (url & Hurl & Hplain).
    unfold settled_message_part, after_upload.
    destruct Hcase as [(-> & -> & Hk)|(-> & -> & Hk)]; rewrite Hurl.
    + split; [by apply on_fields_not_null|by apply substituted_part_done].
    + split; [by apply on_fields_not_null|by apply substituted_part_done].
  - destruct Hc as [Hi Hf]. rewrite Hi. simpl. rewrite Hf. by split.
Qed.

(** X14. Offloading a message list a second time changes nothing.
    When every upload call of [processMessagesForBase64] has returned a
    URL, and these URLs are not empty, do not begin with [data:] and
    fail the base64 test (as every URL that begins with [https://]), the call on its
    output returns that very output and makes no upload call: a
    substituted part holds the URL in [image], or holds no [data] any
    more.  No message and no part is [null]. *)
Theorem messages_offload_idempotent (messages : list json) (w : world) :
  Forall message_without_null messages ->
  exists messages' w',
    processMessagesForBase64 st messages w = (Return messages', w')
    /\ (all_uploaded_plain (calls_since w w') ->
        forall w'', processMessagesForBase64 st messages' w''
                    = (Return messages', w'')).
Proof.
  intros Hwf.
  destruct (messages_outcomes st messages w Hwf) as (messages' & w' & Hrun & Hall & _).
  exists messages', w'. split; [exact Hrun|]. intros Hup w''.
  assert (Forall quiet_message messages') as Hquiet.
  { clear Hrun. revert Hwf.
    induction Hall as [|message message' rest rest' Hout _ IH]; [done|].
    intros [[Hn Hparts] Hrest]%Forall_cons. constructor; [|by apply IH].
    unfold message_outcome in Hout. unfold prop in Hparts.
    destruct message as [| | | | |mfs]; try (by subst message').
    destruct (get_prop "content" mfs) as [[| | | |parts|]|] eqn:Ec;
      try (subst message'; split; [done|]; unfold prop; by rewrite Ec).
    destruct Hout as (parts' & -> & Hps). split; [done|].
    unfold prop. rewrite get_set_prop_eq.
    by eapply settled_parts_quiet. }
  unfold processMessagesForBase64.
  by rewrite map_json_clone, (scan_messages_quiet st messages' Hquiet).
Qed.

End TwiceMessagesTheorem.

(** The image part with an [image] and a [data] field, offloaded twice. *)
Lemma messages_offload_idempotent_witness :
  exists messages' w',
    processMessagesForBase64 Fixtures.test_storage Fixtures.image_and_data []
    = (Return messages', w')
    /\ processMessagesForBase64 Fixtures.test_storage messages' w'
       = (Return messages', w').
Proof.
  destruct (messages_offload_idempotent Fixtures.test_storage Fixtures.image_and_data [])
    as (messages' & w' & Hrun & Htwice).
  { repeat (first [done | constructor | split]; simpl). }
  exists messages', w'. split; [exact Hrun|]. apply Htwice.
  vm_compute in Hrun. injection Hrun as _ <-.
  repeat constructor. by eexists.
Defined.

(** ** Names and types by default *)
Section DefaultFacts.
Import Text Candidates.
Context (st : storage).

Lemma strip_prefix_none (p s : string) :
  starts_with p s = false -> strip_prefix p s = None.
Proof.
  revert s. induction p as [|a p IH]; intros [|b s]; simpl; try done.
  case_bool_decide; [|done]. simpl. apply IH.
Qed.

Lemma not_data_prefix_not_parsed (s : string) :
  isDataUrl s = false -> parseDataUrl s = None.
Proof.
  unfold isDataUrl, parseDataUrl, match_data_url. intros H.
  by rewrite (strip_prefix_none _ _ H).
Qed.

(** A URL that begins with [https://] is not taken for a payload. *)
Lemma https_url_not_a_payload (url : string) :
  starts_with "https://" url = true -> not_a_payload url = true.
Proof. intros [r ->]%starts_with_spec. reflexivity. Qed.

(** The command of an upload of raw base64 under a name without an
    extension and a MIME type of the table. *)
Lemma raw_upload_command (call : nat) (s name mime ext : string) :
  isDataUrl s = false ->
  nonempty name = true -> has_extension name = false ->
  get_prop mime mimeToExt = Some ext ->
  run_put (uploadBase64ToS3 st call s (Some (JStr name)) (Some (JStr mime)))
  = Some {| put_bucket := BUCKET_NAME st;
            put_key := "uploads/" +:+ randomUUID st call +:+ "/" +:+ name +:+ "." +:+ ext;
            put_body_base64 := s;
            put_content_type := JStr mime;
            put_acl := "public-read" |}.
Proof.
  intros Hs Hn He Ht. unfold uploadBase64ToS3.
  rewrite (not_data_prefix_not_parsed _ Hs).
  assert (nonempty mime = true) as Hm.
  { destruct mime; [|done]. by vm_compute in Ht. }
  simpl. rewrite Hm. unfold final_filename. simpl. rewrite Hn, He.
  rewrite (getExtension_of_table _ _ Ht).
  destruct (send_put st call _); [destruct (getSignedUrl st call _ _)|]; done.
Qed.

(** X16. What raw base64 is stored as when the item says nothing.  An
    image item of a tool result without a truthy [mimeType], without a
    truthy [filename], and with no file name given to the call, whose
    [data] passes the base64 test, is sent as [image/jpeg] under
    [uploads/<id>/screenshot.jpg]; a file item as
    [application/octet-stream] under [uploads/<id>/file.bin].  In a
    message list an image part is sent as [image/jpeg] under
    [uploads/<id>/image.jpg], and a file part without [filename],
    [name], [mimeType] and [mediaType] as [application/octet-stream]
    under [uploads/<id>/file.bin].  The body is the string itself. *)
Theorem default_names_and_types (s : string) (w : world) :
  isDataUrl s = false -> looks_like_base64 s = true ->
  let stored name mime :=
    Some {| put_bucket := BUCKET_NAME st;
            put_key := "uploads/" +:+ randomUUID st (length w) +:+ "/" +:+ name;
            put_body_base64 := s;
            put_content_type := JStr mime;
            put_acl := "public-read" |} in
  (forall item kind fallback,
      part_kind_of item = Some kind ->
      prop item "data" = Some (JStr s) ->
      truthy_opt (prop item "mimeType") = false ->
      truthy_opt (prop item "filename") = false ->
      truthy_opt fallback = false ->
      exists run,
        tool_item_upload st fallback item w = (Some run, w ++ [run])
        /\ run_put run
           = match kind with
             | ImagePart => stored "screenshot.jpg" "image/jpeg"
             | FilePart => stored "file.bin" "application/octet-stream"
             end)
  /\ (forall part,
      part_kind_of part = Some ImagePart ->
      js_or (prop part "image") (prop part "data") = Some (JStr s) ->
      truthy_opt (prop part "mimeType") = false ->
      truthy_opt (prop part "filename") = false ->
      exists run,
        image_part_upload st part w = (Some run, w ++ [run])
        /\ run_put run = stored "image.jpg" "image/jpeg")
  /\ (forall part,
      part_kind_of part = Some FilePart ->
      prop part "data" = Some (JStr s) ->
      truthy_opt (prop part "mimeType") = false ->
      truthy_opt (prop part "mediaType") = false ->
      truthy_opt (prop part "filename") = false ->
      truthy_opt (prop part "name") = false ->
      exists run,
        file_part_upload st part w = (Some run, w ++ [run])
        /\ run_put run = stored "file.bin" "application/octet-stream").
Proof.
  intros Hs Hb64. cbv zeta.
  pose proof (looks_like_base64_nonempty s Hb64) as Hne.
  assert (isBase64 s = true) as Hraw by (unfold isBase64; by rewrite Hs, Hb64).
  split; [|split].
  - intros item kind fallback Hk Hd Hm Hf Hfb.
    unfold tool_item_upload, upload. rewrite Hk, Hd. cbn [as_string].
    rewrite Hne, Hs, Hraw. simpl. eexists. split; [done|].
    unfold js_or. rewrite Hm, Hf, Hfb.
    destruct kind; simpl default_tool_mime; simpl default_tool_filename.
    + by rewrite (raw_upload_command _ s "screenshot" "image/jpeg" "jpg").
    + by rewrite (raw_upload_command _ s "file" "application/octet-stream" "bin").
  - intros part Hk Hd Hm Hf.
    unfold image_part_upload, upload. rewrite Hk, Hd. cbn [as_string].
    rewrite Hne, Hs, Hraw. simpl. eexists. split; [done|].
    unfold js_or. rewrite Hm, Hf.
    by rewrite (raw_upload_command _ s "image" "image/jpeg" "jpg").
  - intros part Hk Hd Hm Hmt Hf Hn.
    unfold file_part_upload, upload. rewrite Hk, Hd. cbn [as_string].
    rewrite Hne, Hs, Hraw. simpl. eexists. split; [done|].
    unfold js_or. rewrite Hm, Hmt, Hf, Hn.
    by rewrite (raw_upload_command _ s "file" "application/octet-stream" "bin").
Qed.

End DefaultFacts.

(** The raw image item of the test suite, without its [mimeType]. *)
Lemma default_names_and_types_witness :
  exists run,
    tool_item_upload Fixtures.test_storage None
      (JObj [("type", JStr "image"); ("data", JStr "def456")]) []
    = (Some run, [] ++ [run])
    /\ run_put run
       = Some {| put_bucket := "test-bucket";
                 put_key := "uploads/test-uuid-1234/screenshot.jpg";
                 put_body_base64 := "def456";
                 put_content_type := JStr "image/jpeg";
                 put_acl := "public-read" |}.
Proof.
  destruct (default_names_and_types Fixtures.test_storage "def456" [] eq_refl eq_refl)
    as (Htool & _).
  exact (Htool (JObj [("type", JStr "image"); ("data", JStr "def456")]) ImagePart None
           eq_refl eq_refl eq_refl eq_refl eq_refl).
Defined.

(** ** The MIME type of a data URI *)
Section DataUriTypeFacts.
Import Text.
Context (st : storage).

Lemma includes_append (p a b : string) : includes p (a +:+ p +:+ b) = true.
Proof.
  induction a as [|c a IH].
  - rewrite append_nil.
    assert (starts_with p (p +:+ b) = true) as H by (apply starts_with_spec; eauto).
    destruct (p +:+ b); simpl; by rewrite H.
  - rewrite append_cons. simpl. rewrite IH. apply orb_true_r.
Qed.

Lemma parsed_is_data_url (s payload : string) (mime : json) :
  parseDataUrl s = Some (payload, mime) ->
  isDataUrl s = true /\ is_data_url_string s = true /\ nonempty s = true.
Proof.
  unfold parseDataUrl. destruct (match_data_url s) as [[m p]|] eqn:E; [|done].
  intros _. apply match_data_url_spec in E as (-> & _).
  assert (starts_with "data:" ("data:" +:+ m +:+ ";base64," +:+ p) = true) as H
    by (apply starts_with_spec; eauto).
  split; [done|]. split; [|done].
  unfold is_data_url_string. rewrite H. simpl.
  apply (includes_append ";base64," (String "d" (String "a" (String "t" (String "a"
           (String ":" m))))) p).
Qed.

(** The command of an upload of a data URI. *)
Lemma data_uri_command (call : nat) (s payload : string) (mime : json)
    (filename hint : option json) (put : put_command) :
  parseDataUrl s = Some (payload, mime) ->
  run_put (uploadBase64ToS3 st call s filename hint) = Some put ->
  put_content_type put = mime /\ put_body_base64 put = payload.
Proof.
  intros Hp. unfold uploadBase64ToS3. rewrite Hp.
  destruct (final_filename filename mime); [|done].
  destruct (send_put st call _); [destruct (getSignedUrl st call _ _)|];
    by intros [= <-].
Qed.

(** X17. The MIME type inside a data URI always wins.  For a string
    [parseDataUrl] accepts, every path stores the bytes after
    [;base64,] under the MIME type written in the string: the upload
    primitive ignores the MIME type it is given; the walk passes no
    hint; and the scans pass no MIME type, so that the [mimeType] of
    the item, whatever it says, has no part in the type nor in the
    extension of the stored object. *)
Theorem data_uri_type_wins (s payload : string) (mime : json) :
  parseDataUrl s = Some (payload, mime) ->
  (forall call filename hint,
      uploadBase64ToS3 st call s filename hint = uploadBase64ToS3 st call s filename None)
  /\ (forall call filename hint put,
      run_put (uploadBase64ToS3 st call s filename hint) = Some put ->
      put_content_type put = mime /\ put_body_base64 put = payload)
  /\ (forall filename hint w,
      replaceBase64InObject st (JStr s) filename hint w
      = upload_or_keep st s filename None w)
  /\ (forall fallback item kind w,
      part_kind_of item = Some kind ->
      prop item "data" = Some (JStr s) ->
      tool_item_upload st fallback item w
      = (Some (uploadBase64ToS3 st (length w) s
                 (js_or (js_or (prop item "filename") fallback)
                        (Some (JStr (default_tool_filename kind)))) None),
         w ++ [uploadBase64ToS3 st (length w) s
                 (js_or (js_or (prop item "filename") fallback)
                        (Some (JStr (default_tool_filename kind)))) None]))
  /\ (forall part w,
      part_kind_of part = Some ImagePart ->
      js_or (prop part "image") (prop part "data") = Some (JStr s) ->
      image_part_upload st part w
      = (Some (uploadBase64ToS3 st (length w) s
                 (js_or (prop part "filename") (Some (JStr "image"))) None),
         w ++ [uploadBase64ToS3 st (length w) s
                 (js_or (prop part "filename") (Some (JStr "image"))) None]))
  /\ (forall part w,
      part_kind_of part = Some FilePart ->
      prop part "data" = Some (JStr s) ->
      file_part_upload st part w
      = (Some (uploadBase64ToS3 st (length w) s
                 (js_or (js_or (prop part "filename") (prop part "name"))
                        (Some (JStr "file"))) None),
         w ++ [uploadBase64ToS3 st (length w) s
                 (js_or (js_or (prop part "filename") (prop part "name"))
                        (Some (JStr "file"))) None])).
Proof.
  intros Hp. destruct (parsed_is_data_url _ _ _ Hp) as (Hdu & Hds & Hne).
  assert (isBase64 s = false) as Hraw by (unfold isBase64; by rewrite Hdu).
  split; [|split; [|split; [|split; [|split]]]].
  - intros call filename hint. unfold uploadBase64ToS3. by rewrite Hp.
  - intros call filename hint put. by apply data_uri_command.
  - intros filename hint w. simpl. by rewrite Hds.
  - intros fallback item kind w Hk Hd.
    unfold tool_item_upload, upload. rewrite Hk, Hd. cbn [as_string].
    by rewrite Hne, Hdu, Hraw.
  - intros part w Hk Hd.
    unfold image_part_upload, upload. rewrite Hk, Hd. cbn [as_string].
    by rewrite Hne, Hdu, Hraw.
  - intros part w Hk Hd.
    unfold file_part_upload, upload. rewrite Hk, Hd. cbn [as_string].
    by rewrite Hne, Hdu, Hraw.
Qed.

End DataUriTypeFacts.

(** A PNG data URI in an item that says [image/jpeg]. *)
Lemma data_uri_type_wins_witness :
  let item := JObj [("type", JStr "image"); ("data", JStr "data:image/png;base64,AAAA");
                    ("mimeType", JStr "image/jpeg")] in
  option_map (fun put => (put_key put, put_content_type put, put_body_base64 put))
    (run_put (uploadBase64ToS3 Fixtures.test_storage 0 "data:image/png;base64,AAAA"
                (Some (JStr "screenshot")) None))
  = Some ("uploads/test-uuid-1234/screenshot.png", JStr "image/png", "AAAA")
  /\ tool_item_upload Fixtures.test_storage None item []
     = (Some (uploadBase64ToS3 Fixtures.test_storage 0 "data:image/png;base64,AAAA"
                (Some (JStr "screenshot")) None),
        [] ++ [uploadBase64ToS3 Fixtures.test_storage 0 "data:image/png;base64,AAAA"
                 (Some (JStr "screenshot")) None]).
Proof.
  intros item. split; [reflexivity|].
  destruct (data_uri_type_wins Fixtures.test_storage "data:image/png;base64,AAAA"
              "AAAA" (JStr "image/png") eq_refl) as (_ & _ & _ & Htool & _).
  exact (Htool None item ImagePart [] eq_refl eq_refl).
Defined.

(** ** The hint of the walk, and the file name of a tool call *)
Section WalkHintFacts.
Import Text Walk.
Context (st : storage).

(** The calls of a walk are calls of the upload primitive with the file
    name the walk was given, appended to the history. *)
Lemma walk_calls (obj : json) :
  forall filename hint w,
  exists new,
    (replaceBase64InObject st obj filename hint w).2 = w ++ new
    /\ Forall (fun run => exists call s mimeType,
                 run = uploadBase64ToS3 st call s filename mimeType) new.
Proof.
  induction obj as [|b|n|s|items IH|fs IH] using json_nested_ind;
    intros filename hint w.
  - exists []. by rewrite app_nil_r.
  - exists []. by rewrite app_nil_r.
  - exists []. by rewrite app_nil_r.
  - assert (forall mime, exists new,
               (upload_or_keep st s filename mime w).2 = w ++ new
               /\ Forall (fun run => exists call s0 mimeType,
                            run = uploadBase64ToS3 st call s0 filename mimeType) new)
      as Hup.
    { intros mime. unfold upload_or_keep, upload. eexists [_]. split; [done|].
      constructor; [|done]. eauto. }
    simpl. destruct (is_data_url_string s); [apply Hup|].
    destruct (truthy_opt hint && looks_like_base64 s); [apply Hup|].
    exists []. by rewrite app_nil_r.
  - rewrite walk_array.
    assert (forall w0, exists new,
               (walk_each st filename hint items w0).2 = w0 ++ new
               /\ Forall (fun run => exists call s mimeType,
                            run = uploadBase64ToS3 st call s filename mimeType) new)
      as Heach.
    { induction IH as [|item r Hitem _ IHr]; intros w0.
      - exists []. by rewrite app_nil_r.
      - simpl. destruct (Hitem filename hint w0) as (new1 & Hw1 & Hn1).
        destruct (replaceBase64InObject st item filename hint w0) as [item' w1].
        simpl in Hw1. subst w1.
        destruct (IHr (w0 ++ new1)) as (new2 & Hw2 & Hn2).
        destruct (walk_each st filename hint r (w0 ++ new1)) as [r' w2].
        simpl in Hw2 |- *. subst w2. exists (new1 ++ new2).
        rewrite app_assoc. split; [done|]. by apply Forall_app. }
    destruct (Heach w) as (new & Hw & Hn).
    destruct (walk_each st filename hint items w) as [items' w']. by exists new.
  - rewrite walk_object.
    assert (forall l, Forall (fun p => forall filename hint w, exists new,
                        (replaceBase64InObject st p.2 filename hint w).2 = w ++ new
                        /\ Forall (fun run => exists call s mimeType,
                                     run = uploadBase64ToS3 st call s filename mimeType)
                             new) l ->
              forall result w0, exists new,
                (walk_entries st fs filename hint l result w0).2 = w0 ++ new
                /\ Forall (fun run => exists call s mimeType,
                             run = uploadBase64ToS3 st call s filename mimeType) new)
      as Hloop.
    { induction 1 as [|[key value] r Hv _ IHr]; intros result w0.
      - exists []. by rewrite app_nil_r.
      - simpl in Hv |- *.
        destruct (Hv filename (currentMimeType fs key hint) w0) as (new1 & Hw1 & Hn1).
        destruct (replaceBase64InObject st value filename _ w0) as [value' w1].
        simpl in Hw1. subst w1.
        destruct (IHr (assign_result key value' result) (w0 ++ new1))
          as (new2 & Hw2 & Hn2).
        exists (new1 ++ new2). rewrite app_assoc. split; [done|]. by apply Forall_app. }
    destruct (Hloop fs IH [] w) as (new & Hw & Hn).
    destruct (walk_entries st fs filename hint fs [] w) as [result w']. by exists new.
Qed.

Lemma walk_extends (obj : json) (filename hint : option json) (w : world) :
  w `prefix_of` (replaceBase64InObject st obj filename hint w).2.
Proof.
  destruct (walk_calls obj filename hint w) as (new & -> & _). by apply prefix_app_r.
Qed.

Lemma get_prop_elem {V} (k : string) (v : V) (fs : props V) :
  get_prop k fs = Some v -> (k, v) ∈ fs.
Proof.
  induction fs as [|[k' v'] fs IH]; [done|]. simpl. case_bool_decide as Hk.
  - intros [= ->]. subst. by left.
  - intros Hget. right. by apply IH.
Qed.

(** A property that the rest of the loop does not name keeps its value. *)
Lemma walk_entries_keeps (fs : props json) (filename hint : option json) (k : string) :
  forall l result w0,
  k ∉ keys l ->
  get_prop k (walk_entries st fs filename hint l result w0).1 = get_prop k result.
Proof.
  induction l as [|[key value] r IH]; intros result w0 Hk; [done|]. simpl.
  apply not_elem_of_cons in Hk as [Hne Hk].
  destruct (replaceBase64InObject st value filename _ w0) as [value' w1].
  rewrite IH by done. unfold assign_result. case_bool_decide; [done|].
  by apply get_set_prop_ne.
Qed.

(** The value the loop gives a property is the walk of its value, under
    the hint of line 198, at the history the loop has reached. *)
Lemma walk_entries_get (fs : props json) (filename hint : option json)
    (k : string) (v : json) :
  k <> "__proto__" ->
  forall l result w0,
  NoDup (keys l) -> (k, v) ∈ l ->
  exists wk,
    w0 `prefix_of` wk
    /\ get_prop k (walk_entries st fs filename hint l result w0).1
       = Some (replaceBase64InObject st v filename (currentMimeType fs k hint) wk).1.
Proof.
  intros Hproto. induction l as [|[key value] r IH]; intros result w0 Hnd Hin.
  - by apply elem_of_nil in Hin.
  - simpl in Hnd. apply NoDup_cons in Hnd as [Hnew Hnd]. simpl.
    apply elem_of_cons in Hin as [[= <- <-]|Hin].
    + exists w0. split; [done|].
      destruct (replaceBase64InObject st v filename _ w0) as [v' w1]. simpl.
      rewrite walk_entries_keeps by done.
      unfold assign_result. rewrite bool_decide_false by done.
      apply get_set_prop_eq.
    + pose proof (walk_extends value filename (currentMimeType fs key hint) w0) as Hext.
      destruct (replaceBase64InObject st value filename _ w0) as [value' w1].
      destruct (IH (assign_result key value' result) w1 Hnd Hin) as (wk & Hwk & Hget).
      exists wk. split; [by etrans|done].
Qed.

(** X18. Where the hint of the walk comes from.  In an object with a
    [data] property, the string under [data] (one that is no data URI)
    is judged with the sibling [mimeType] as its hint whenever the
    object has a [mimeType] property, whatever hint comes from above:
    with a truthy [mimeType] and a string that passes the base64 test
    it is uploaded under that MIME type and replaced by the URL (kept
    when the upload fails); with a [mimeType] that is falsy (empty,
    [null]) it is left as it is, even under a truthy hint from above;
    and only an object without [mimeType] passes the hint from above
    on.  Property names are taken to be distinct. *)
Theorem hint_from_sibling_mimeType (fs : props json) (s : string)
    (filename hint : option json) (w : world) :
  NoDup (keys fs) ->
  get_prop "data" fs = Some (JStr s) ->
  is_data_url_string s = false ->
  let hint' := if has_prop "mimeType" fs then get_prop "mimeType" fs else hint in
  exists result w' wk,
    replaceBase64InObject st (JObj fs) filename hint w = (JObj result, w')
    /\ w `prefix_of` wk
    /\ get_prop "data" result
       = Some (if truthy_opt hint' && looks_like_base64 s
               then match run_result (uploadBase64ToS3 st (length wk) s filename hint') with
                    | Uploaded url => JStr url
                    | Failed _ => JStr s
                    end
               else JStr s).
Proof.
  intros Hnd Hdata Hs. cbv zeta. rewrite walk_object.
  destruct (walk_entries_get fs filename hint "data" (JStr s) ltac:(done) fs [] w Hnd
              (get_prop_elem _ _ _ Hdata)) as (wk & Hwk & Hget).
  destruct (walk_entries st fs filename hint fs [] w) as [result w'].
  exists result, w', wk. split; [done|]. split; [done|].
  simpl in Hget. rewrite Hget. f_equal.
  unfold currentMimeType. rewrite bool_decide_true by done. simpl. rewrite Hs.
  by destruct (truthy_opt _ && looks_like_base64 s).
Qed.

End WalkHintFacts.

(** A file item with its MIME type; the same with an empty MIME type,
    under a hint from above. *)
Lemma hint_from_sibling_mimeType_witness :
  (exists result w' (wk : world),
      replaceBase64InObject Fixtures.test_storage
        (JObj [("mimeType", JStr "application/pdf"); ("data", JStr "JVBERi0")])
        None None [] = (JObj result, w')
      /\ [] `prefix_of` wk
      /\ get_prop "data" result
         = Some (match run_result (uploadBase64ToS3 Fixtures.test_storage (length wk)
                                     "JVBERi0" None (Some (JStr "application/pdf"))) with
                 | Uploaded url => JStr url
                 | Failed _ => JStr "JVBERi0"
                 end))
  /\ (exists result w' (wk : world),
      replaceBase64InObject Fixtures.test_storage
        (JObj [("mimeType", JStr ""); ("data", JStr "JVBERi0")])
        None (Some (JStr "application/pdf")) [] = (JObj result, w')
      /\ [] `prefix_of` wk
      /\ get_prop "data" result = Some (JStr "JVBERi0")).
Proof.
  split.
  - apply (hint_from_sibling_mimeType Fixtures.test_storage
             [("mimeType", JStr "application/pdf"); ("data", JStr "JVBERi0")]
             "JVBERi0" None None []); [|done|done].
    by apply (bool_decide_unpack _).
  - apply (hint_from_sibling_mimeType Fixtures.test_storage
             [("mimeType", JStr ""); ("data", JStr "JVBERi0")]
             "JVBERi0" None (Some (JStr "application/pdf")) []); [|done|done].
    by apply (bool_decide_unpack _).
Defined.

Section ToolCallNameFacts.
Import Text Walk.
Context (st : storage).

(** The key of a call whose candidate file name has an extension. *)
Lemma upload_put_named (call : nat) (s f : string) (mimeType : option json)
    (put : put_command) :
  has_extension f = true ->
  run_put (uploadBase64ToS3 st call s (Some (JStr f)) mimeType) = Some put ->
  put_key put = "uploads/" +:+ randomUUID st call +:+ "/" +:+ f.
Proof.
  intros Hf. unfold uploadBase64ToS3.
  destruct (match parseDataUrl s with Some p => Some p | None => _ end)
    as [[payload mime]|]; [|done].
  unfold final_filename. simpl. rewrite (has_extension_nonempty _ Hf), Hf.
  destruct (send_put st call _); [destruct (getSignedUrl st call _ _)|];
    by intros [= <-].
Qed.

(** X19. Everything a tool call stores carries the file name of the
    call.  When the arguments of [processToolCallForBase64] are an
    object with a [filename] property, every upload call made for them,
    at whatever depth a payload is found, is made with that value as
    candidate file name; when it is a string with a dotted extension,
    the key of every command sent is [uploads/<id of its call>/<that
    name>], so that the objects of one tool call differ by their
    identifiers only. *)
Theorem tool_call_objects_named (toolName : json) (fs : props json) (f : json)
    (w : world) :
  get_prop "filename" fs = Some f ->
  exists new args',
    processToolCallForBase64 st toolName (JObj fs) w = ((toolName, args'), w ++ new)
    /\ Forall (fun run => exists call s mimeType,
                 run = uploadBase64ToS3 st call s (Some f) mimeType) new
    /\ forall name, f = JStr name -> has_extension name = true ->
       Forall (fun run => forall put, run_put run = Some put ->
                 exists call, put_key put
                              = "uploads/" +:+ randomUUID st call +:+ "/" +:+ name) new.
Proof.
  intros Hf. unfold processToolCallForBase64. rewrite json_clone_id.
  unfold has_prop. rewrite Hf.
  destruct (walk_calls st (JObj fs) (Some f) None w) as (new & Hw & Hcalls).
  destruct (replaceBase64InObject st (JObj fs) (Some f) None w) as [args' w'].
  simpl in Hw. subst w'. exists new, args'. split; [done|]. split; [done|].
  intros name -> Hext. eapply Forall_impl; [exact Hcalls|].
  intros run (call & s & mimeType & ->) put Hput. exists call.
  by eapply upload_put_named.
Qed.

End ToolCallNameFacts.

(** A tool call with a file name and two payloads at different depths. *)
Lemma tool_call_objects_named_witness :
  let fs := [("filename", JStr "shot.png");
             ("image", JStr "data:image/png;base64,AAAA");
             ("more", JArr [JObj [("thumb", JStr "data:image/jpeg;base64,BBBB")]])] in
  exists new args',
    processToolCallForBase64 Fixtures.test_storage (JStr "save") (JObj fs) []
    = ((JStr "save", args'), [] ++ new)
    /\ Forall (fun run => exists call s mimeType,
                 run = uploadBase64ToS3 Fixtures.test_storage call s
                         (Some (JStr "shot.png")) mimeType) new
    /\ length new = 2.
Proof.
  intros fs.
  destruct (tool_call_objects_named Fixtures.test_storage (JStr "save") fs
              (JStr "shot.png") [] eq_refl) as (new & args' & Hrun & Hcalls & _).
  exists new, args'. split; [exact Hrun|]. split; [exact Hcalls|].
  vm_compute in Hrun. by injection Hrun as _ <-.
Defined.

(** ** The order in which uploads complete *)
Section OrderFacts.
Context (st : storage).

Lemma alter_commute {A} (f g : A -> A) (i j : nat) (l : list A) :
  i <> j -> alter f i (alter g j l) = alter g j (alter f i l).
Proof.
  revert i j. induction l as [|x l IH]; intros [|i] [|j] Hne; try done.
  simpl. f_equal. apply IH. lia.
Qed.

Lemma alter_twice {A} (f g : A -> A) (i : nat) (l : list A) :
  alter f i (alter g i l) = alter (fun x => f (g x)) i l.
Proof.
  revert i. induction l as [|x l IH]; intros [|i]; try done.
  simpl. f_equal. apply IH.
Qed.

(** Steps that commute whenever they act on different places can be
    taken in any order. *)
Lemma foldl_any_order {A B K} (f : B -> A -> B) (place : A -> K) :
  (forall b x y, place x <> place y -> f (f b x) y = f (f b y) x) ->
  forall l l', l ≡ₚ l' -> NoDup (place <$> l) -> forall b, foldl f b l = foldl f b l'.
Proof.
  intros Hcomm l l' Hperm.
  induction Hperm as [|x l l' _ IH|x y l|l l' l'' Hp1 IH1 Hp2 IH2]; intros Hnd b.
  - done.
  - simpl. apply IH. by apply NoDup_cons in Hnd as [_ Hnd].
  - simpl. apply NoDup_cons in Hnd as [Hy _]. f_equal. apply Hcomm.
    intros Heq. apply Hy. rewrite Heq. by left.
  - rewrite IH1 by done. apply IH2. by rewrite <- Hp1.
Qed.

(** The promises of the tool-result scan are for different items. *)
Lemma scan_tool_content_places (filename : option json) (content : list json) :
  forall i w ps w',
  scan_tool_content st filename i content w = (Some ps, w') ->
  Forall (fun p => i <= tp_index p) ps /\ NoDup (tp_index <$> ps).
Proof.
  induction content as [|item rest IH]; intros i w ps w' Hscan; simpl in Hscan.
  - injection Hscan as <- <-. split; [done|constructor].
  - destruct (is_null item); [done|].
    destruct (tool_item_upload st filename item w) as [r w1].
    destruct (scan_tool_content st filename (S i) rest w1) as [[more|] w2] eqn:E; [|done].
    injection Hscan as <- <-. destruct (IH _ _ _ _ E) as [Hge Hnd].
    assert (Forall (fun p => i <= tp_index p) more) as Hge'.
    { eapply Forall_impl; [exact Hge|]. simpl. intros p Hp. lia. }
    destruct r as [run|]; simpl; [|done].
    split; [by constructor|]. constructor; [|done].
    intros (p & Hp & Hin)%list_elem_of_fmap. simpl in Hp.
    rewrite Forall_forall in Hge. specialize (Hge p Hin). lia.
Qed.

Lemma settle_tool_promise_commute (content : list json) (p q : tool_promise) :
  tp_index p <> tp_index q ->
  settle_tool_promise (settle_tool_promise content p) q
  = settle_tool_promise (settle_tool_promise content q) p.
Proof.
  intros Hne. unfold settle_tool_promise.
  destruct (run_result (tp_run p)), (run_result (tp_run q)); try done.
  by apply alter_commute.
Qed.

(** X20. The content a tool result comes back with does not depend on
    the order in which its uploads complete.  The upload promises of
    one call of [processToolResultForBase64] are for different items,
    each continuation touches its own item only, and so the
    continuations, run in any order whatever, leave the same content
    sequence as when run in the order the promises were made. *)
Theorem tool_result_any_completion_order (filename : option json)
    (content : list json) (w : world) (ps : list tool_promise) (w' : world) :
  scan_tool_content st filename 0 content w = (Some ps, w') ->
  NoDup (tp_index <$> ps)
  /\ forall ps', ps ≡ₚ ps' ->
       foldl settle_tool_promise content ps' = foldl settle_tool_promise content ps.
Proof.
  intros Hscan. destruct (scan_tool_content_places _ _ _ _ _ _ Hscan) as [_ Hnd].
  split; [done|]. intros ps' Hperm. symmetry.
  by apply (foldl_any_order settle_tool_promise tp_index settle_tool_promise_commute).
Qed.

End OrderFacts.

(** The two images of the tool result of the test suite, completing in
    the other order. *)
Lemma tool_result_any_completion_order_witness :
  let content := content_of Fixtures.screenshot_result in
  exists ps w',
    scan_tool_content Fixtures.test_storage None 0 content [] = (Some ps, w')
    /\ length ps = 2
    /\ foldl settle_tool_promise content (reverse ps)
       = foldl settle_tool_promise content ps.
Proof.
  intros content. eexists _, _. split; [reflexivity|]. split; [reflexivity|].
  eapply (tool_result_any_completion_order Fixtures.test_storage None content []);
    [reflexivity|].
  symmetry. apply reverse_Permutation.
Defined.

Section OrderMessagesFacts.
Context (st : storage).

(** Where the continuation of a promise of the message scan writes. *)
Lemma pushed_promise_place (i j : nat) (kind : part_kind) (r : option upload_run) :
  Forall (fun p => mp_message p = i /\ mp_part p = j) (pushed_promise i j kind r).
Proof. destruct r; repeat constructor. Qed.

Lemma scan_parts_places (parts : list json) :
  forall i j w ps w',
  scan_parts st i j parts w = (Some ps, w') ->
  Forall (fun p => mp_message p = i /\ j <= mp_part p) ps
  /\ NoDup ((fun p => (mp_message p, mp_part p)) <$> ps).
Proof.
  induction parts as [|part rest IH]; intros i j w ps w' Hscan; simpl in Hscan.
  - injection Hscan as <- <-. split; [done|constructor].
  - destruct (is_null part); [done|].
    pose proof (part_uploads_candidate st part w) as Hc.
    destruct (image_part_upload st part w) as [r1 w1].
    destruct (file_part_upload st part w1) as [r2 w2] eqn:E2.
    destruct (scan_parts st i (S j) rest w2) as [[more|] w3] eqn:E; [|done].
    injection Hscan as <- <-. destruct (IH _ _ _ _ _ E) as [Hge Hnd].
    assert (Forall (fun p => mp_message p = i /\ j <= mp_part p) more) as Hge'.
    { eapply Forall_impl; [exact Hge|]. simpl. intros p [Hp1 Hp2]. split; [done|lia]. }
    assert (forall run kind,
              NoDup ((fun p => (mp_message p, mp_part p))
                       <$> ({| mp_message := i; mp_part := j; mp_kind := kind;
                               mp_run := run |} :: more))) as Hone.
    { intros run kind. simpl. constructor; [|done].
      intros (p & [= Hp1 Hp2] & Hin)%list_elem_of_fmap.
      rewrite Forall_forall in Hge. destruct (Hge p Hin) as [_ Hlt]. lia. }
    simpl in Hc. rewrite E2 in Hc. simpl in Hc.
    destruct (Candidates.uploadable_part part).
    + destruct Hc as (run & _ & [(-> & -> & _)|(-> & -> & _)]); simpl.
      * split; [constructor; [by split|done]|apply (Hone run ImagePart)].
      * split; [constructor; [by split|done]|apply (Hone run FilePart)].
    + destruct Hc as [[= -> ->] Hf]. rewrite Hf in E2. injection E2 as <- <-. by simpl.
Qed.

Lemma scan_messages_places (messages : list json) :
  forall i w ps w',
  scan_messages st i messages w = (Some ps, w') ->
  Forall (fun p => i <= mp_message p) ps
  /\ NoDup ((fun p => (mp_message p, mp_part p)) <$> ps).
Proof.
  induction messages as [|message rest IH]; intros i w ps w' Hscan; simpl in Hscan.
  - injection Hscan as <- <-. split; [done|constructor].
  - destruct (is_null message); [done|].
    assert (exists pushed w1,
               match prop message "content" with
               | Some (JArr parts) => scan_parts st i 0 parts w
               | _ => (Some [], w)
               end = (pushed, w1)
               /\ forall l, pushed = Some l ->
                    Forall (fun p => mp_message p = i) l
                    /\ NoDup ((fun p => (mp_message p, mp_part p)) <$> l))
      as (pushed & w1 & Hhere & Hplaces).
    { destruct (prop message "content") as [[| | | |parts|]|];
        try (eexists _, _; split; [done|]; intros l [= <-]; split; [done|constructor]).
      destruct (scan_parts st i 0 parts w) as [pushed w1] eqn:E.
      exists pushed, w1. split; [done|]. intros l ->.
      destruct (scan_parts_places _ _ _ _ _ _ E) as [Hp Hnd]. split; [|done].
      eapply Forall_impl; [exact Hp|]. by intros p [Hp1 _]. }
    rewrite Hhere in Hscan. destruct pushed as [pushed|]; [|done].
    destruct (Hplaces pushed eq_refl) as [Hat Hnd1].
    destruct (scan_messages st (S i) rest w1) as [[more|] w2] eqn:E; [|done].
    injection Hscan as <- <-. destruct (IH _ _ _ _ E) as [Hge Hnd2]. split.
    + apply Forall_app. split.
      * eapply Forall_impl; [exact Hat|]. simpl. intros p Hp. lia.
      * eapply Forall_impl; [exact Hge|]. simpl. intros p Hp. lia.
    + rewrite fmap_app. apply NoDup_app. split; [done|]. split; [|done].
      intros [a b] (p & [= -> ->] & Hp)%list_elem_of_fmap
             (q & [= Hq1 Hq2] & Hq)%list_elem_of_fmap.
      rewrite Forall_forall in Hat, Hge.
      pose proof (Hat p Hp). pose proof (Hge q Hq). lia.
Qed.

(** Updates of different parts commute. *)
Lemma alter_part_commute (f g : json -> json) (i j i' j' : nat) (messages : list json) :
  (i, j) <> (i', j') ->
  alter_part f i j (alter_part g i' j' messages)
  = alter_part g i' j' (alter_part f i j messages).
Proof.
  intros Hne. unfold alter_part.
  destruct (decide (i = i')) as [<-|Hi]; [|by apply alter_commute].
  assert (j <> j') as Hj by congruence.
  rewrite !alter_twice. apply list_alter_ext; [|done].
  intros [| | | | |fs] _; try done. simpl.
  destruct (get_prop "content" fs) as [[| | | |parts|]|] eqn:Ec;
    rewrite ?Ec; try done.
  rewrite !get_set_prop_eq, !set_set_prop. do 3 f_equal. by apply alter_commute.
Qed.

Lemma settle_message_promise_commute (messages : list json) (p q : message_promise) :
  (mp_message p, mp_part p) <> (mp_message q, mp_part q) ->
  settle_message_promise (settle_message_promise messages p) q
  = settle_message_promise (settle_message_promise messages q) p.
Proof.
  intros Hne. unfold settle_message_promise.
  destruct (run_result (mp_run p)), (run_result (mp_run q)); try done.
  apply alter_part_commute. congruence.
Qed.

(** X21. What a message list comes back as does not depend on the order
    in which its uploads complete.  The upload promises of one call of
    [processMessagesForBase64] are for different parts (a part gets a
    promise from the image branch or from the file branch, never from
    both), each continuation touches its own part only, and so the
    continuations, run in any order whatever, leave the same messages
    as when run in the order the promises were made. *)
Theorem messages_any_completion_order (messages : list json) (w : world)
    (ps : list message_promise) (w' : world) :
  scan_messages st 0 messages w = (Some ps, w') ->
  NoDup ((fun p => (mp_message p, mp_part p)) <$> ps)
  /\ forall ps', ps ≡ₚ ps' ->
       foldl settle_message_promise messages ps'
       = foldl settle_message_promise messages ps.
Proof.
  intros Hscan. destruct (scan_messages_places _ _ _ _ _ Hscan) as [_ Hnd].
  split; [done|]. intros ps' Hperm. symmetry.
  by apply (foldl_any_order settle_message_promise
              (fun p => (mp_message p, mp_part p)) settle_message_promise_commute).
Qed.

End OrderMessagesFacts.

(** The two images of the failure test, completing in the other order. *)
Lemma messages_any_completion_order_witness :
  exists ps w',
    scan_messages Fixtures.test_storage 0 Fixtures.two_images [] = (Some ps, w')
    /\ length ps = 2
    /\ foldl settle_message_promise Fixtures.two_images (reverse ps)
       = foldl settle_message_promise Fixtures.two_images ps.
Proof.
  eexists _, _. split; [reflexivity|]. split; [reflexivity|].
  eapply (messages_any_completion_order Fixtures.test_storage Fixtures.two_images []);
    [reflexivity|].
  symmetry. apply reverse_Permutation.
Defined.
